(** * CANopen network client: transport and framing layer

    A shallow embedding of [pycanopenclient/canopenclient.py] (the class
    [CANopenClient], of which [cocomm.py] holds an identical copy) and
    the properties of its connect / disconnect / sendCommand operations.

    Python values are embedded as follows:
    - [str] is a list of Unicode code points (so that lone surrogates,
      which a Python string may hold, are representable);
    - [bytes] is a list of [Byte.byte];
    - [int] is [Z];
    - the instance attributes of [CANopenClient] form a record, and each
      method is a computation in a state-and-exception monad whose state
      holds the instance, the log of socket calls and the lines printed;
    - the operating system and the peer are an oracle ([Env]) that
      answers every socket call, by position in the log, with a normal
      result or with an exception;
    - the standard output is a UTF-8 text stream with the strict error
      handler: [print] raises [UnicodeEncodeError], and writes nothing,
      on a text that [str.encode] refuses. *)

From Stdlib Require Import List ZArith NArith Bool Lia.
From Stdlib Require Import Strings.String Strings.Ascii Strings.Byte.
From Stdlib Require Import DecimalString.
From Stdlib Require HexadecimalString.
Import ListNotations.

(** ** Python strings and bytes *)

Module Py.

(** A Python [str]: the sequence of its code points. *)
Abbreviation str := (list N) (only parsing).

(** A Python [bytes] object. *)
Abbreviation bytes := (list byte) (only parsing).

(** A string literal of the source (ASCII only). *)
Definition lit (s : string) : str :=
  map N_of_ascii (list_ascii_of_string s).

Definition str_eqb (a b : str) : bool :=
  if list_eq_dec N.eq_dec a b then true else false.

(** [str(i)] for an [int]: decimal digits, with a minus sign when negative. *)
Definition str_of_int (i : Z) : str :=
  lit (NilZero.string_of_int (Z.to_int i)).

(** [b'...'.startswith]-style prefix test on strings. *)
Fixpoint startswith (p s : str) : bool :=
  match p, s with
  | [], _ => true
  | _ :: _, [] => false
  | a :: p', b :: s' => N.eqb a b && startswith p' s'
  end.

(** [sub in s]: substring containment. *)
Fixpoint contains (sub s : str) : bool :=
  startswith sub s ||
  match s with
  | [] => false
  | _ :: s' => contains sub s'
  end.

(** [s.replace(c, "")] for a one-character [c]: every occurrence removed. *)
Definition remove_char (c : N) (s : str) : str :=
  filter (fun x => negb (N.eqb x c)) s.

(** [str.isspace] on one code point (the interpreter's whitespace table). *)
Definition isspace (c : N) : bool :=
  ((9 <=? c) && (c <=? 13) || (28 <=? c) && (c <=? 32)
   || (c =? 133) || (c =? 160) || (c =? 5760)
   || (8192 <=? c) && (c <=? 8202)
   || (c =? 8232) || (c =? 8233) || (c =? 8239) || (c =? 8287)
   || (c =? 12288))%N.

Fixpoint lstrip (s : str) : str :=
  match s with
  | [] => []
  | c :: s' => if isspace c then lstrip s' else s
  end.

Definition rstrip (s : str) : str := rev (lstrip (rev s)).

(** [s.strip()] with no argument. *)
Definition strip (s : str) : str := rstrip (lstrip s).

(** Exceptions (all of them subclasses of [Exception]). *)
Inductive exn : Type :=
| OSError (errno : Z)
| IndexError
| UnicodeEncodeError
| UnicodeDecodeError.

(** The result of running a piece of Python code: a value, a raised
    exception, or no result at all (a blocking call that is never
    answered, or a loop still running when the step budget ended). *)
Inductive outcome (A : Type) : Type :=
| Ret (a : A)
| Raise (e : exn)
| Diverge.
Arguments Ret {A} a.
Arguments Raise {A} e.
Arguments Diverge {A}.

(** [s[0]]: the first character, or [IndexError] on the empty string. *)
Definition getitem0 (s : str) : outcome str :=
  match s with
  | [] => Raise IndexError
  | c :: _ => Ret [c]
  end.

(** *** UTF-8, strict *)

Definition byte_of_N (n : N) : byte :=
  match Byte.of_N n with Some b => b | None => x00 end.

(** The bytes of one code point; surrogates (and values past U+10FFFF,
    which no Python string holds) have none. *)
Definition encode_char (c : N) : option bytes :=
  (if c <? 0x80 then Some [byte_of_N c]
   else if c <? 0x800 then
     Some [byte_of_N (0xC0 + c / 64); byte_of_N (0x80 + c mod 64)]
   else if (0xD800 <=? c) && (c <=? 0xDFFF) then None
   else if c <? 0x10000 then
     Some [byte_of_N (0xE0 + c / 4096); byte_of_N (0x80 + (c / 64) mod 64);
           byte_of_N (0x80 + c mod 64)]
   else if c <=? 0x10FFFF then
     Some [byte_of_N (0xF0 + c / 262144); byte_of_N (0x80 + (c / 4096) mod 64);
           byte_of_N (0x80 + (c / 64) mod 64); byte_of_N (0x80 + c mod 64)]
   else None)%N.

(** [s.encode('UTF-8', 'strict')]. *)
Fixpoint encode (s : str) : outcome bytes :=
  match s with
  | [] => Ret []
  | c :: s' =>
      match encode_char c with
      | None => Raise UnicodeEncodeError
      | Some bs =>
          match encode s' with
          | Ret r => Ret (bs ++ r)
          | other => other
          end
      end
  end.

(** The text can be encoded: it holds no surrogate. *)
Definition printable (s : str) : bool :=
  match encode s with
  | Ret _ => true
  | _ => false
  end.

Definition is_cont (b : N) : bool := ((0x80 <=? b) && (b <=? 0xBF))%N.

(** A decoded multi-byte character is accepted when it is not overlong,
    not a surrogate and not past U+10FFFF. *)
Definition scalar_ok (lo c : N) : bool :=
  ((lo <=? c) && (c <=? 0x10FFFF) && negb ((0xD800 <=? c) && (c <=? 0xDFFF)))%N.

(** [b.decode('UTF-8', 'strict')]: only well-formed UTF-8 is accepted; a
    sequence cut short by the end of the buffer is an error. *)
Fixpoint decode (bs : bytes) : outcome str :=
  let continue (c : N) (rest : outcome str) : outcome str :=
    match rest with
    | Ret r => Ret (c :: r)
    | other => other
    end in
  match bs with
  | [] => Ret []
  | b0 :: r0 =>
      let n0 := Byte.to_N b0 in
      if (n0 <? 0x80)%N then continue n0 (decode r0)
      else if (n0 <? 0xC0)%N then Raise UnicodeDecodeError
      else if (n0 <? 0xE0)%N then
        match r0 with
        | b1 :: r1 =>
            let n1 := Byte.to_N b1 in
            let c := ((n0 - 0xC0) * 64 + (n1 - 0x80))%N in
            if is_cont n1 && scalar_ok 0x80 c
            then continue c (decode r1)
            else Raise UnicodeDecodeError
        | _ => Raise UnicodeDecodeError
        end
      else if (n0 <? 0xF0)%N then
        match r0 with
        | b1 :: b2 :: r2 =>
            let n1 := Byte.to_N b1 in
            let n2 := Byte.to_N b2 in
            let c := ((n0 - 0xE0) * 4096 + (n1 - 0x80) * 64 + (n2 - 0x80))%N in
            if is_cont n1 && is_cont n2 && scalar_ok 0x800 c
            then continue c (decode r2)
            else Raise UnicodeDecodeError
        | _ => Raise UnicodeDecodeError
        end
      else if (n0 <? 0xF8)%N then
        match r0 with
        | b1 :: b2 :: b3 :: r3 =>
            let n1 := Byte.to_N b1 in
            let n2 := Byte.to_N b2 in
            let n3 := Byte.to_N b3 in
            let c := ((n0 - 0xF0) * 262144 + (n1 - 0x80) * 4096
                      + (n2 - 0x80) * 64 + (n3 - 0x80))%N in
            if is_cont n1 && is_cont n2 && is_cont n3 && scalar_ok 0x10000 c
            then continue c (decode r3)
            else Raise UnicodeDecodeError
        | _ => Raise UnicodeDecodeError
        end
      else Raise UnicodeDecodeError
  end.

End Py.

Import Py.

(** ** The operating system and the peer *)

Inductive addr_family : Type := AF_UNIX | AF_INET | AF_INET6.

(** A socket object: its family and whether it has been connected. *)
Record socket : Type := {
  family : addr_family;
  is_connected : bool
}.

(** One call into the [socket] module, as recorded in the log. *)
Inductive event : Type :=
| Socket (fam : addr_family)                  (* socket.socket(fam, SOCK_STREAM) *)
| Connect (address : str)                     (* sock.connect(address) *)
| CreateConnection (address : str) (port : Z) (* socket.create_connection((address, port)) *)
| Sendall (bs : bytes)                        (* sock.sendall(bs) *)
| Recv (bufsize : N)                          (* sock.recv(bufsize) *)
| Close.                                      (* sock.close() *)

(** The oracle.  Every socket call is answered according to its position
    in the log (the number of socket calls made before it) and to its
    arguments; the answer is a value, an exception, or [Diverge] for a
    blocking call that is never answered.  [str_of_exn] is the
    interpreter's rendering of an exception by [format].  That text and
    the name of the platform are made by the interpreter, which escapes
    what cannot be shown: they are printable. *)
Record Env : Type := {
  platform_system : str;
  os_socket : nat -> addr_family -> outcome unit;
  os_connect : nat -> str -> outcome unit;
  os_create_connection : nat -> str -> Z -> outcome addr_family;
  os_sendall : nat -> bytes -> outcome unit;
  os_recv : nat -> N -> outcome bytes;
  os_close : nat -> outcome unit;
  str_of_exn : exn -> str;
  platform_system_printable : printable platform_system = true;
  str_of_exn_printable : forall e, printable (str_of_exn e) = true
}.

(** ** The state-and-exception monad *)

Definition M (S A : Type) : Type := Env -> S -> S * outcome A.

Definition ret {S A : Type} (a : A) : M S A :=
  fun _ s => (s, Ret a).

Definition bind {S A B : Type} (m : M S A) (k : A -> M S B) : M S B :=
  fun env s =>
    match m env s with
    | (s', Ret a) => k a env s'
    | (s', Raise e) => (s', Raise e)
    | (s', Diverge) => (s', Diverge)
    end.

(** An expression that may raise, evaluated without touching the state. *)
Definition eval {S A : Type} (o : outcome A) : M S A :=
  fun _ s => (s, o).

(** [try: body  except Exception as err: handler err]. *)
Definition try_except {S A : Type} (body : M S A) (handler : exn -> M S A) : M S A :=
  fun env s =>
    match body env s with
    | (s', Raise e) => handler e env s'
    | other => other
    end.

Definition gets {S A : Type} (f : S -> A) : M S A :=
  fun _ s => (s, Ret (f s)).

Definition modify {S : Type} (f : S -> S) : M S unit :=
  fun _ s => (f s, Ret tt).

Definition ask {S A : Type} (f : Env -> A) : M S A :=
  fun env s => (s, Ret (f env)).

Definition when {S : Type} (b : bool) (m : M S unit) : M S unit :=
  if b then m else ret tt.

Declare Scope py_scope.
Delimit Scope py_scope with py.
Notation "x <- m ;; k" := (bind m (fun x => k))
  (at level 100, m at next level, right associativity) : py_scope.
Notation "m ;; k" := (bind m (fun _ => k))
  (at level 100, right associativity) : py_scope.
Local Open Scope py_scope.

(** ** The client *)

Inductive SocketType : Type := UNIX | TCP.

(** The instance attributes.  [sock_type] is [None] when the constructor
    was given anything that is not a member of [SocketType]. *)
Record CANopenClient : Type := {
  sock : option socket;
  sock_type : option SocketType;
  server_address : str;
  server_port : Z;
  showVerbose : bool
}.

Record State : Type := {
  self : CANopenClient;
  trace : list event;     (* socket calls, oldest first *)
  stdout : list str       (* printed lines, oldest first *)
}.

Definition set_sock (v : option socket) (c : CANopenClient) : CANopenClient :=
  {| sock := v; sock_type := sock_type c; server_address := server_address c;
     server_port := server_port c; showVerbose := showVerbose c |}.

Definition set_self (f : CANopenClient -> CANopenClient) (s : State) : State :=
  {| self := f (self s); trace := trace s; stdout := stdout s |}.

(** [print(line)]: the line is encoded for the standard output before
    anything is written, so a line that cannot be encoded raises and
    leaves the output as it was. *)
Definition print (line : str) : M State unit :=
  fun _ s =>
    if printable line
    then ({| self := self s; trace := trace s; stdout := stdout s ++ [line] |}, Ret tt)
    else (s, Raise UnicodeEncodeError).

(** A call into the socket module: logged, then answered by the oracle. *)
Definition syscall {A : Type} (ev : event) (answer : Env -> nat -> outcome A) : M State A :=
  fun env s =>
    ({| self := self s; trace := trace s ++ [ev]; stdout := stdout s |},
     answer env (List.length (trace s))).

Definition socket_socket (fam : addr_family) : M State socket :=
  syscall (Socket fam) (fun env t => os_socket env t fam) ;;
  ret {| family := fam; is_connected := false |}.

Definition socket_create_connection (address : str) (port : Z) : M State socket :=
  fam <- syscall (CreateConnection address port)
                 (fun env t => os_create_connection env t address port) ;;
  ret {| family := fam; is_connected := true |}.

(** [self.sock.connect(address)]: on success the socket object held in
    [self.sock] becomes connected. *)
Definition sock_connect (address : str) : M State unit :=
  syscall (Connect address) (fun env t => os_connect env t address) ;;
  modify (set_self (fun c =>
    set_sock (option_map (fun s => {| family := family s; is_connected := true |})
                         (sock c)) c)).

Definition sock_sendall (bs : bytes) : M State unit :=
  syscall (Sendall bs) (fun env t => os_sendall env t bs).

Definition sock_recv (bufsize : N) : M State bytes :=
  syscall (Recv bufsize) (fun env t => os_recv env t bufsize).

Definition sock_close : M State unit :=
  syscall Close os_close.

(** [__init__], with the defaults of its last two parameters. *)
Definition init (sock_Type : option SocketType) (server_Address : str)
    (server_Port : Z) (show_verbose : bool) : CANopenClient :=
  {| sock := None; sock_type := sock_Type; server_address := server_Address;
     server_port := server_Port; showVerbose := show_verbose |}.

Definition default_server_Port : Z := 0.
Definition default_show_verbose : bool := false.

(** [__get_constants] builds a dictionary from the constants of the
    socket module; it touches neither the instance nor any socket, and
    its three results in [connectTcpSocket] are never read. *)
Definition get_constants (prefix : str) : M State unit := ret tt.

Definition connectUnixSocket : M State bool :=
  system <- ask platform_system ;;
  this <- gets self ;;
  if str_eqb system (lit "Linux") then
    s <- socket_socket AF_UNIX ;;
    modify (set_self (set_sock (Some s))) ;;
    when (showVerbose this)
      (print (lit "Connecting to: " ++ server_address this)) ;;
    try_except
      (sock_connect (server_address this) ;;
       ret true)
      (fun err =>
         msg <- ask (fun env => str_of_exn env err) ;;
         when (showVerbose this)
           (print (lit "ERROR: Connecting failed: " ++ msg)) ;;
         ret false)
  else
    when (showVerbose this)
      (print (lit "ERROR: Connecting failed: " ++ system
              ++ lit " doesn't support Unix Domain sockets")) ;;
    ret false.

Definition connectTcpSocket : M State bool :=
  system <- ask platform_system ;;
  this <- gets self ;;
  if str_eqb system (lit "Linux") || str_eqb system (lit "Windows") then
    get_constants (lit "AF_") ;;
    get_constants (lit "SOCK_") ;;
    get_constants (lit "IPPROTO_") ;;
    try_except
      (when (showVerbose this)
         (print (lit "Connecting to: " ++ server_address this ++ lit ":"
                 ++ str_of_int (server_port this))) ;;
       s <- socket_create_connection (server_address this) (server_port this) ;;
       modify (set_self (set_sock (Some s))) ;;
       ret true)
      (fun err =>
         msg <- ask (fun env => str_of_exn env err) ;;
         when (showVerbose this)
           (print (lit "ERROR: Connecting failed: " ++ msg)) ;;
         ret false)
  else
    when (showVerbose this)
      (print (lit "ERROR: Connecting failed: " ++ system
              ++ lit " doesn't support TCP sockets")) ;;
    ret false.

Definition connect : M State bool :=
  this <- gets self ;;
  match sock this with
  | None =>
      match sock_type this with
      | Some UNIX => connectUnixSocket
      | Some TCP => connectTcpSocket
      | None =>
          when (showVerbose this) (print (lit "ERROR: Socket type not supported")) ;;
          ret false
      end
  | Some _ =>
      when (showVerbose this) (print (lit "Socket already opened")) ;;
      ret true
  end.

Definition disconnect : M State unit :=
  this <- gets self ;;
  match sock this with
  | Some _ =>
      when (showVerbose this) (print (lit "Closing socket")) ;;
      sock_close ;;
      modify (set_self (set_sock None))
  | None =>
      when (showVerbose this) (print (lit "Socket already closed"))
  end.

(** *** sendCommand *)

(** The local variable [data] of [sendCommand] lives next to the state:
    the [except] clause falls through to [return data], so the value it
    had when an exception was raised is what the call returns. *)
Record Frame : Type := {
  fr_state : State;
  data : str
}.

Definition set_data (d : str) (f : Frame) : Frame :=
  {| fr_state := fr_state f; data := d |}.

(** A method-level computation run inside the frame. *)
Definition lift {A : Type} (m : M State A) : M Frame A :=
  fun env f =>
    let (s', r) := m env (fr_state f) in
    ({| fr_state := s'; data := data f |}, r).

(** A function body with its local, run from the method level. *)
Definition locals {A : Type} (d0 : str) (body : M Frame A) : M State A :=
  fun env s =>
    let (f', r) := body env {| fr_state := s; data := d0 |} in
    (fr_state f', r).

(** The terminator of a reply: carriage return, line feed. *)
Definition CRLF : str := [13; 10]%N.

(** The null character. *)
Definition NUL : N := 0%N.

(** [while True: rxBytes = recv(1024); data += decode(rxBytes);
    if "\r\n" in data: break].  The loop has no bound of its own; [fuel]
    bounds the number of iterations run here. *)
Fixpoint recv_loop (fuel : nat) : M Frame unit :=
  match fuel with
  | O => eval Diverge
  | S fuel' =>
      rxBytes <- lift (sock_recv 1024) ;;
      text <- eval (decode rxBytes) ;;
      modify (fun f => set_data (data f ++ text) f) ;;
      d <- gets data ;;
      if contains CRLF d then ret tt else recv_loop fuel'
  end.

(** "build message, prepend [x] command index when required": the test
    [cmd[0] == '['] raises on the empty string; otherwise the message is
    [cmd] itself or ["[{0}] {1}".format(index, cmd)]. *)
Definition build_message (cmd : str) (index : Z) : outcome str :=
  match getitem0 cmd with
  | Ret c0 =>
      Ret (if str_eqb c0 (lit "[") then cmd
           else lit "[" ++ str_of_int index ++ lit "] " ++ cmd)
  | Raise e => Raise e
  | Diverge => Diverge
  end.

(** The body of the [try] block. *)
Definition sendCommand_try (fuel : nat) (cmd : str) (index : Z) : M Frame unit :=
  this <- lift (gets self) ;;
  message <- eval (build_message cmd index) ;;
  when (showVerbose this) (lift (print (lit "# " ++ message))) ;;
  txBytes <- eval (encode message) ;;
  lift (sock_sendall txBytes) ;;
  recv_loop fuel ;;
  modify (fun f => set_data (strip (remove_char NUL (data f))) f) ;;
  d <- gets data ;;
  lift (print d).

Definition default_index : Z := 1.

Definition sendCommand (fuel : nat) (cmd : str) (index : Z) : M State str :=
  locals []
    (this <- lift (gets self) ;;
     match sock this with
     | None =>
         when (showVerbose this) (lift (print (lit "TX failed: not connected"))) ;;
         gets data
     | Some _ =>
         try_except
           (sendCommand_try fuel cmd index)
           (fun err =>
              msg <- ask (fun env => str_of_exn env err) ;;
              when (showVerbose this)
                (lift (print (lit "ERROR: TX failed: " ++ msg)))) ;;
         gets data
     end).

(** ** Reading results and logs *)

Definition is_ret {A : Type} (r : outcome A) : bool :=
  match r with Ret _ => true | _ => false end.

Definition is_raise {A : Type} (r : outcome A) : bool :=
  match r with Raise _ => true | _ => false end.

Definition is_diverge {A : Type} (r : outcome A) : bool :=
  match r with Diverge => true | _ => false end.

(** The payloads handed to [sendall], in order. *)
Fixpoint sent (tr : list event) : list bytes :=
  match tr with
  | [] => []
  | Sendall bs :: tr' => bs :: sent tr'
  | _ :: tr' => sent tr'
  end.

(** The handle is absent or a connected socket. *)
Definition handle_ok (c : CANopenClient) : bool :=
  match sock c with
  | None => true
  | Some s => is_connected s
  end.

(** The platform tests of the two connect paths. *)
Definition on_linux (env : Env) : bool :=
  str_eqb (platform_system env) (lit "Linux").

Definition on_tcp_platform (env : Env) : bool :=
  str_eqb (platform_system env) (lit "Linux")
  || str_eqb (platform_system env) (lit "Windows").

Fixpoint bytes_eqb (a b : bytes) : bool :=
  match a, b with
  | [], [] => true
  | x :: a', y :: b' => Byte.eqb x y && bytes_eqb a' b'
  | _, _ => false
  end.

(** The read answered a chunk, and the chunk is [c]. *)
Definition is_chunk (r : outcome bytes) (c : bytes) : bool :=
  match r with
  | Ret c' => bytes_eqb c' c
  | _ => false
  end.

(** The chunks [cs] are what the next reads return, starting at log
    position [t]. *)
Fixpoint delivers (env : Env) (t : nat) (cs : list bytes) : bool :=
  match cs with
  | [] => true
  | c :: cs' => is_chunk (os_recv env t 1024) c && delivers env (S t) cs'
  end.

(** What a read brings as text: [rxBytes.decode('UTF-8', 'strict')] on
    the answer of [recv]. *)
Definition read_text (r : outcome bytes) : outcome str :=
  match r with
  | Ret c => decode c
  | Raise e => Raise e
  | Diverge => Diverge
  end.

(** No chunk of [xs] brings the terminator into the accumulated text. *)
Definition unterminated (xs : list str) : bool :=
  forallb (fun k => negb (contains CRLF (List.concat (firstn k xs))))
          (seq 1 (List.length xs)).

(** The steps of the [try] block before the first read: build the
    message, encode it, send it (at log position [t]). *)
Definition send_phase (env : Env) (t : nat) (cmd : str) (index : Z) : outcome unit :=
  match build_message cmd index with
  | Ret msg =>
      match encode msg with
      | Ret bs => os_sendall env t bs
      | Raise e => Raise e
      | Diverge => Diverge
      end
  | Raise e => Raise e
  | Diverge => Diverge
  end.


(** The text of a buffer of ASCII bytes. *)
Definition text_of (bs : bytes) : str := map Byte.to_N bs.

Definition all_ascii (bs : bytes) : bool :=
  forallb (fun b => (Byte.to_N b <? 0x80)%N) bs.

(** The terminator occurs in [x], and in no proper prefix of [x]. *)
Definition terminated_at_end (x : str) : bool :=
  contains CRLF x &&
  forallb (fun k => negb (contains CRLF (firstn k x))) (seq 0 (List.length x)).

(** The state right after the message [msg], encoded as [bs], has been
    shown (when verbose) and handed to [sendall]. *)
Definition after_send (s : State) (msg : str) (bs : bytes) : State :=
  {| self := self s;
     trace := trace s ++ [Sendall bs];
     stdout := if showVerbose (self s) then stdout s ++ [lit "# " ++ msg]
               else stdout s |}.

(** A [connect] that dials can print its "Connecting to:" line: the
    client is not verbose, or its address is printable. *)
Definition announces (c : CANopenClient) : bool :=
  negb (showVerbose c) || printable (server_address c).



(** The state after [n] more calls of [recv(1024)]. *)
Definition reads (n : nat) (s : State) : State :=
  {| self := self s;
     trace := trace s ++ repeat (Recv 1024) n;
     stdout := stdout s |}.

(** ** Example hosts and sessions *)

(** A [bytes] literal (ASCII only). *)
Definition bytes_of (s : string) : bytes :=
  map byte_of_ascii (list_ascii_of_string s).

(** A Linux host.  Creating a socket object, connecting and closing are
    answered by the given results; the peer answers the reads that
    follow a [sendall] made at log position [0] with [reads], in order,
    and then with the empty chunk of a closed connection. *)
Definition host (socket_r connect_r close_r : outcome unit)
    (reads : list (outcome bytes)) : Env :=
  {| platform_system := lit "Linux";
     os_socket := fun _ _ => socket_r;
     os_connect := fun _ _ => connect_r;
     os_create_connection := fun _ _ _ =>
       match connect_r with
       | Ret _ => Ret AF_INET
       | Raise e => Raise e
       | Diverge => Diverge
       end;
     os_sendall := fun _ _ => Ret tt;
     os_recv := fun t _ => nth (t - 1) reads (Ret []);
     os_close := fun _ => close_r;
     str_of_exn := fun _ => lit "error";
     platform_system_printable := eq_refl;
     str_of_exn_printable := fun _ => eq_refl |}.

(** Every call succeeds and the peer replies with [chunks]. *)
Definition replying (chunks : list bytes) : Env :=
  host (Ret tt) (Ret tt) (Ret tt) (map (@Ret bytes) chunks).

(** Nothing listens at the address: connecting fails with ENOENT. *)
Definition no_daemon : Env :=
  host (Ret tt) (Raise (OSError 2)) (Ret tt) [].


(** Closing the socket fails with EIO. *)
Definition close_fails : Env :=
  host (Ret tt) (Ret tt) (Raise (OSError 5)) [].

Definition fresh (c : CANopenClient) : State :=
  {| self := c; trace := []; stdout := [] |}.

Definition unix_client : CANopenClient :=
  init (Some UNIX) (lit "/tmp/CO_command_socket") default_server_Port
       default_show_verbose.

Definition tcp_client : CANopenClient :=
  init (Some TCP) (lit "127.0.0.1") 60000 default_show_verbose.

(** A session whose handle is a connected socket. *)
Definition connected (c : CANopenClient) : State :=
  fresh (set_sock (Some {| family := AF_INET; is_connected := true |}) c).

(** The reply ["[1] OK\r\n"], and the same reply padded with two null
    bytes before the terminator. *)
Definition reply_ok : bytes := bytes_of "[1] OK" ++ [x0d; x0a].

Definition reply_ok_padded : bytes := bytes_of "[1] OK" ++ [x00; x00; x0d; x0a].

Definition a_socket : socket := {| family := AF_INET; is_connected := true |}.

(** The peer sends ["[1] O"] and then resets the connection. *)
Definition reset_midway : Env :=
  host (Ret tt) (Ret tt) (Ret tt) [Ret (bytes_of "[1] O"); Raise (OSError 104)].

(** ** Proof support *)

Arguments printable : simpl never.

(** Unfolds the operations of the monad and the socket primitives. *)
Ltac run_monad :=
  unfold bind, lift, locals, try_except, eval, gets, modify, ask, when, ret,
    print, sock_sendall, sock_recv, sock_close, sock_connect, socket_socket,
    socket_create_connection, get_constants, syscall in *.


(** ** Further vocabulary *)

(** The socket type of the instance is one that [connect] dispatches on
    this platform. *)
Definition dispatchable (env : Env) (c : CANopenClient) : bool :=
  match sock_type c with
  | Some UNIX => on_linux env
  | Some TCP => on_tcp_platform env
  | None => false
  end.

(** All the characters of [s] are whitespace. *)
Definition all_space (s : str) : bool := forallb isspace s.

(** [s] neither begins nor ends with whitespace. *)
Definition trimmed (s : str) : bool :=
  match s with
  | [] => true
  | c :: _ => negb (isspace c) && negb (isspace (last s c))
  end.

(** Two replies on the wire, cut into three chunks: the second chunk
    holds the end of the first reply and the start of the second. *)
Definition queued_chunks : list bytes :=
  [bytes_of "[1] O";
   bytes_of "K" ++ [x0d; x0a] ++ bytes_of "[2] ";
   bytes_of "OK" ++ [x0d; x0a]].

Definition queued_texts : list str := map text_of queued_chunks.

(** Case analysis on the comparisons of a goal, and abstraction of a
    quotient or remainder before linear arithmetic. *)
Ltac ltb_cases :=
  repeat match goal with
  | |- context [(?a <? ?b)%N] =>
      let H := fresh "Hlt" in destruct (N.ltb_spec a b) as [H | H]
  | |- context [(?a <=? ?b)%N] =>
      let H := fresh "Hle" in destruct (N.leb_spec a b) as [H | H]
  end.

Ltac hide t := let x := fresh "x" in set (x := t) in *; clearbody x.

(** The number of continuation bytes that a first byte of UTF-8
    announces. *)
Definition awaited (n0 : N) : nat :=
  if (n0 <? 0xC0)%N then 0
  else if (n0 <? 0xE0)%N then 1
  else if (n0 <? 0xF0)%N then 2
  else if (n0 <? 0xF8)%N then 3
  else 0.

(** * The command-line program

    [cocomm.py] is the program in one file; [cli.py] is the same [main]
    over the [AppArgs] of [appargs.py].  The result of
    [parser.parse_args()] is taken as given (argparse decides it); what
    [AppArgs.parse] does with it and what [main] does next are embedded
    here. *)

(** The attributes of the object that [parse_args()] returns, one per
    declared argument, with the types the declarations give them.  [d]
    is [None] when the parser declares no [-d] argument: the object then
    has no such attribute. *)
Module Namespace.
Record ns : Type := {
  command : option (list N);
  f : option (list N);
  s : option (list N);
  t : option (list N);
  p : option Z;
  d : option bool;
  version : bool;
  verbose : bool;
  listErrors : bool
}.

(** The same command line without [-t], and without [-p]. *)
Definition without_t (a : ns) : ns :=
  {| command := command a; f := f a; s := s a; t := None; p := p a; d := d a;
     version := version a; verbose := verbose a; listErrors := listErrors a |}.

Definition without_p (a : ns) : ns :=
  {| command := command a; f := f a; s := s a; t := t a; p := None; d := d a;
     version := version a; verbose := verbose a; listErrors := listErrors a |}.
End Namespace.

Module Cli.

(** Exceptions that leave the program. *)
Inductive cli_exn : Type :=
| AttributeError (name : string)
| SystemExit (code : Z)
| EOFError
| ClientError (e : exn).

(** The attributes of [AppArgs]. *)
Record AppArgs : Type := {
  inputFile : option str;
  socketPath : str;
  tcpSocket : option str;
  tcpPort : Z;
  printErrors : bool;
  command : option str;
  showVerbose : bool
}.

(** What differs between the two copies of [AppArgs]: the default port,
    whether the parser declares [-d], and the version text and the table
    of error codes (which [appargs.py] takes from modules
    [pycanopenclient.version] and [pycanopenclient.errors]).  The two
    texts are literals of the program, which the standard output can
    show. *)
Record Program : Type := {
  default_port : Z;
  declares_d : bool;
  version_text : str;
  errorLst : list (Z * str)
}.

(** [AppArgs.__init__]. *)
Definition init_args (prog : Program) : AppArgs :=
  {| inputFile := None;
     socketPath := lit "/tmp/CO_command_socket";
     tcpSocket := None;
     tcpPort := default_port prog;
     printErrors := false;
     command := None;
     showVerbose := false |}.

Definition set_command (v : option str) (a : AppArgs) : AppArgs :=
  {| inputFile := inputFile a; socketPath := socketPath a;
     tcpSocket := tcpSocket a; tcpPort := tcpPort a;
     printErrors := printErrors a; command := v;
     showVerbose := showVerbose a |}.

Definition set_inputFile (v : option str) (a : AppArgs) : AppArgs :=
  {| inputFile := v; socketPath := socketPath a;
     tcpSocket := tcpSocket a; tcpPort := tcpPort a;
     printErrors := printErrors a; command := command a;
     showVerbose := showVerbose a |}.

Definition set_socketPath (v : str) (a : AppArgs) : AppArgs :=
  {| inputFile := inputFile a; socketPath := v;
     tcpSocket := tcpSocket a; tcpPort := tcpPort a;
     printErrors := printErrors a; command := command a;
     showVerbose := showVerbose a |}.

Definition set_tcpSocket (v : option str) (a : AppArgs) : AppArgs :=
  {| inputFile := inputFile a; socketPath := socketPath a;
     tcpSocket := v; tcpPort := tcpPort a;
     printErrors := printErrors a; command := command a;
     showVerbose := showVerbose a |}.

Definition set_tcpPort (v : Z) (a : AppArgs) : AppArgs :=
  {| inputFile := inputFile a; socketPath := socketPath a;
     tcpSocket := tcpSocket a; tcpPort := v;
     printErrors := printErrors a; command := command a;
     showVerbose := showVerbose a |}.

Definition set_printErrors (v : bool) (a : AppArgs) : AppArgs :=
  {| inputFile := inputFile a; socketPath := socketPath a;
     tcpSocket := tcpSocket a; tcpPort := tcpPort a;
     printErrors := v; command := command a;
     showVerbose := showVerbose a |}.

Definition set_showVerbose (v : bool) (a : AppArgs) : AppArgs :=
  {| inputFile := inputFile a; socketPath := socketPath a;
     tcpSocket := tcpSocket a; tcpPort := tcpPort a;
     printErrors := printErrors a; command := command a;
     showVerbose := v |}.

(** Truth value of an optional string: [None] and [""] are false. *)
Definition truthy (v : option str) : bool :=
  match v with
  | Some (_ :: _) => true
  | _ => false
  end.

(** [self.command = ""; for cmd in args.command: self.command =
    self.command + cmd + " "; self.command = self.command.strip()].
    [args.command] is one string ([nargs='?']), so the loop runs over
    its characters. *)
Definition spell (arg : str) : str :=
  strip (fold_left (fun acc cmd => acc ++ [cmd] ++ lit " ") arg []).

(** ["{0:08x}".format(i)]: lower-case hexadecimal digits, padded with
    zeros after the sign to a width of eight. *)
Definition format_08x (i : Z) : str :=
  let digits := lit (HexadecimalString.NilZero.string_of_uint (N.to_hex_uint (Z.abs_N i))) in
  let sign := if (i <? 0)%Z then lit "-" else [] in
  sign ++ repeat 48%N (8 - List.length sign - List.length digits) ++ digits.

(** The body of the loop of [printErrorCodes], over the items of the
    table in order, with the flag [isInternalErr]. *)
Fixpoint error_lines (isInternalErr : bool) (items : list (Z * str)) : list str :=
  match items with
  | [] => []
  | (key, val) :: rest =>
      let header := if (key =? 0)%Z then [lit "SDO abort codes:"] else [] in
      let isInternalErr := if (key =? 0)%Z then false else isInternalErr in
      header ++
      (if isInternalErr
       then lit "  - " ++ str_of_int key ++ lit " - " ++ val
       else lit "  - 0x" ++ format_08x key ++ lit " - " ++ val)
      :: error_lines isInternalErr rest
  end.

(** [printErrorCodes]: the lines printed; the call ends in [exit(1)]. *)
Definition printErrorCodes (prog : Program) : list str :=
  lit "Internal error codes:" :: error_lines true (errorLst prog).

(** [showVersion]: the line printed; the call ends in [exit(1)]. *)
Definition showVersion (prog : Program) : list str :=
  [lit "APP VERSION v" ++ version_text prog].

(** [AppArgs.parse], from the result of [parse_args()] on: the instance
    as left by the call, the lines printed, and the exception that ended
    the call, if any. *)
Definition parse (prog : Program) (args : Namespace.ns) (self : AppArgs)
  : AppArgs * list str * option cli_exn :=
  let self :=
    match Namespace.command args with
    | Some (c :: r) => set_command (Some (spell (c :: r))) self
    | _ => self
    end in
  let self :=
    if truthy (Namespace.f args) then set_inputFile (Namespace.f args) self
    else self in
  let self :=
    match Namespace.s args with
    | Some (c :: r) => set_socketPath (c :: r) self
    | _ => self
    end in
  let self :=
    if truthy (Namespace.t args) then set_tcpSocket (Namespace.t args) self
    else self in
  let self :=
    match Namespace.p args with
    | Some port => if (port =? 0)%Z then self else set_tcpPort port self
    | None => self
    end in
  match Namespace.d args with
  | None => (self, [], Some (AttributeError "d"))
  | Some flag =>
      let self := if flag then set_printErrors flag self else self in
      let self :=
        if Namespace.verbose args then set_showVerbose true self else self in
      if Namespace.version args then
        (self, showVersion prog, Some (SystemExit 1))
      else if Namespace.listErrors args then
        (self, printErrorCodes prog, Some (SystemExit 1))
      else (self, [], None)
  end.

(** The files and the standard input of the run.  [open_file path] is
    what [open(path, "r")] and the iteration over the file give: the
    exception of [open], or the lines that the iteration yields together
    with the exception that cuts it short, if any.  [stdin] holds the
    lines that successive calls of [input()] return. *)
Record Console : Type := {
  open_file : str -> outcome (list str * option exn);
  stdin : list str
}.

(** How the program ends. *)
Inductive status : Type :=
| Returned
| Uncaught (e : cli_exn)
| Hung.

(** What a run of [main] leaves behind: the socket calls made, the
    lines printed, and how it ended. *)
Record Run : Type := {
  log : list event;
  output : list str;
  exit : status
}.

Definition finish (s : State) (st : status) : Run :=
  {| log := trace s; output := stdout s; exit := st |}.

(** The choice of the client in [main]. *)
Definition make_client (args : AppArgs) : CANopenClient :=
  match tcpSocket args with
  | Some host =>
      if ((0 <? tcpPort args) && (tcpPort args <? 65535))%Z
      then init (Some TCP) host (tcpPort args) (showVerbose args)
      else init (Some UNIX) (socketPath args) 0 (showVerbose args)
  | None => init (Some UNIX) (socketPath args) 0 (showVerbose args)
  end.

(** [for line in file: client.sendCommand(line)]. *)
Fixpoint send_lines (fuel : nat) (lines : list str) : M State unit :=
  match lines with
  | [] => ret tt
  | line :: rest =>
      sendCommand fuel line default_index ;;
      send_lines fuel rest
  end.

(** The input-file branch: [try: open, send every line; except: print;
    finally: close] (closing the file touches nothing of the state kept
    here). *)
Definition from_file (fuel : nat) (console : Console) (path : str) : M State unit :=
  try_except
    (file <- eval (open_file console path) ;;
     send_lines fuel (fst file) ;;
     eval (match snd file with
           | Some e => Raise e
           | None => Ret tt
           end))
    (fun _ => print (lit "ERROR: input file not found")).

(** The interactive branch: [while True: cmd = input(); if "exit" in
    cmd: break; client.sendCommand(cmd)].  [input()] raises [EOFError]
    when the standard input is exhausted. *)
Fixpoint from_stdin (fuel : nat) (lines : list str) (env : Env) (s : State)
  : State * status :=
  match lines with
  | [] => (s, Uncaught EOFError)
  | cmd :: rest =>
      if contains (lit "exit") cmd then (s, Returned)
      else
        match sendCommand fuel cmd default_index env s with
        | (s', Ret _) => from_stdin fuel rest env s'
        | (s', Raise e) => (s', Uncaught (ClientError e))
        | (s', Diverge) => (s', Hung)
        end
  end.

Definition lift_status {A : Type} (r : State * outcome A) : State * status :=
  match r with
  | (s, Ret _) => (s, Returned)
  | (s, Raise e) => (s, Uncaught (ClientError e))
  | (s, Diverge) => (s, Hung)
  end.

(** The three sources of commands, chosen as [main] chooses them. *)
Definition feed (fuel : nat) (args : AppArgs) (console : Console) (env : Env)
    (s : State) : State * status :=
  match inputFile args with
  | Some path => lift_status (from_file fuel console path env s)
  | None =>
      match command args with
      | Some cmd => lift_status (sendCommand fuel cmd default_index env s)
      | None => from_stdin fuel (stdin console) env s
      end
  end.

(** [main], after [args.parse(argv)] has returned [args]. *)
Definition main_with (fuel : nat) (args : AppArgs) (console : Console)
    (env : Env) (printed : list str) : Run :=
  let client := make_client args in
  match connect env {| self := client; trace := []; stdout := printed |} with
  | (s1, Ret isOk) =>
      if negb isOk then finish s1 Returned
      else
        match feed fuel args console env s1 with
        | (s2, Returned) =>
            let (s3, st) := lift_status (disconnect env s2) in
            finish s3 st
        | (s2, st) => finish s2 st
        end
  | (s1, Raise e) => finish s1 (Uncaught (ClientError e))
  | (s1, Diverge) => finish s1 Hung
  end.

(** [main]. *)
Definition main (fuel : nat) (prog : Program) (ns : Namespace.ns)
    (console : Console) (env : Env) : Run :=
  match parse prog ns (init_args prog) with
  | (_, printed, Some e) =>
      {| log := []; output := printed; exit := Uncaught e |}
  | (args, printed, None) => main_with fuel args console env printed
  end.

(** The table of [cocomm.py], in the order of the source. *)
Definition cocomm_errorLst : list (Z * str) :=
  [
    (100, lit "Request not supported.");
    (101, lit "Syntax error.");
    (102, lit "Request not processed due to internal state.");
    (103, lit "Time-out (where applicable).");
    (104, lit "No default net set.");
    (105, lit "No default node set.");
    (106, lit "Unsupported net.");
    (107, lit "Unsupported node.");
    (200, lit "Lost guarding message.");
    (201, lit "Lost connection.");
    (202, lit "Heartbeat started.");
    (203, lit "Heartbeat lost.");
    (204, lit "Wrong NMT state.");
    (205, lit "Boot-up.");
    (300, lit "Error passive.");
    (301, lit "Bus off.");
    (303, lit "CAN buffer overflow.");
    (304, lit "CAN init.");
    (305, lit "CAN active (at init or start-up).");
    (400, lit "PDO already used.");
    (401, lit "PDO length exceeded.");
    (501, lit "LSS implementation- / manufacturer-specific error.");
    (502, lit "LSS node-ID not supported.");
    (503, lit "LSS bit-rate not supported.");
    (504, lit "LSS parameter storing failed.");
    (505, lit "LSS command failed because of media error.");
    (600, lit "Running out of memory.");
    (0x00000000, lit "No abort.");
    (0x05030000, lit "Toggle bit not altered.");
    (0x05040000, lit "SDO protocol timed out.");
    (0x05040001, lit "Command specifier not valid or unknown.");
    (0x05040002, lit "Invalid block size in block mode.");
    (0x05040003, lit "Invalid sequence number in block mode.");
    (0x05040004, lit "CRC error (block mode only).");
    (0x05040005, lit "Out of memory.");
    (0x06010000, lit "Unsupported access to an object.");
    (0x06010001, lit "Attempt to read a write only object.");
    (0x06010002, lit "Attempt to write a read only object.");
    (0x06020000, lit "Object does not exist.");
    (0x06040041, lit "Object cannot be mapped to the PDO.");
    (0x06040042, lit "Number and length of object to be mapped exceeds PDO length.");
    (0x06040043, lit "General parameter incompatibility reasons.");
    (0x06040047, lit "General internal incompatibility in device.");
    (0x06060000, lit "Access failed due to hardware error.");
    (0x06070010, lit "Data type does not match, length of service parameter does not match.");
    (0x06070012, lit "Data type does not match, length of service parameter too high.");
    (0x06070013, lit "Data type does not match, length of service parameter too short.");
    (0x06090011, lit "Sub index does not exist.");
    (0x06090030, lit "Invalid value for parameter (download only).");
    (0x06090031, lit "Value range of parameter written too high.");
    (0x06090032, lit "Value range of parameter written too low.");
    (0x06090036, lit "Maximum value is less than minimum value.");
    (0x060A0023, lit "Resource not available: SDO connection.");
    (0x08000000, lit "General error.");
    (0x08000020, lit "Data cannot be transferred or stored to application.");
    (0x08000021, lit "Data cannot be transferred or stored to application because of local control.");
    (0x08000022, lit "Data cannot be transferred or stored to application because of present device state.");
    (0x08000023, lit "Object dictionary not present or dynamic generation fails.");
    (0x08000024, lit "No data available.")
  ]%Z.

Definition gDefaultPort : Z := 6000.

(** [cocomm.py]. *)
Definition cocomm : Program :=
  {| default_port := gDefaultPort;
     declares_d := true;
     version_text := lit "1.2.01";
     errorLst := cocomm_errorLst |}.

(** [cli.py] with [appargs.py], whose parser declares no [-d] (the
    declaration is commented out); the version text and the table come
    from modules of the package. *)
Definition cli (version : str) (table : list (Z * str)) : Program :=
  {| default_port := 60000;
     declares_d := false;
     version_text := version;
     errorLst := table |}.

(** The result of [parse_args()] has the attribute [d] exactly when the
    parser of the program declares it. *)
Definition from_parser (prog : Program) (ns : Namespace.ns) : bool :=
  Bool.eqb (declares_d prog)
           (match Namespace.d ns with Some _ => true | None => false end).

(** A text with one space after each character but the last. *)
Fixpoint spaced_out (a : str) : str :=
  match a with
  | [] => []
  | [c] => [c]
  | c :: r => c :: 32%N :: spaced_out r
  end.

(** A command line that gives nothing. *)
Definition no_options (hasd : bool) : Namespace.ns :=
  {| Namespace.command := None; Namespace.f := None; Namespace.s := None;
     Namespace.t := None; Namespace.p := None;
     Namespace.d := if hasd then Some false else None;
     Namespace.version := false; Namespace.verbose := false;
     Namespace.listErrors := false |}.

(** No files, and the given lines on the standard input. *)
Definition typing (lines : list str) : Console :=
  {| open_file := fun _ => Raise (OSError 2); stdin := lines |}.

End Cli.

(** What [sendCommand] sends for a line: the encoded message, or
    nothing when the message cannot be built or encoded. *)
Definition wire (line : str) : list bytes :=
  match build_message line default_index with
  | Ret msg =>
      match encode msg with
      | Ret bs => [bs]
      | _ => []
      end
  | _ => []
  end.

(** The lines typed before the first one that contains ["exit"]. *)
Fixpoint until_exit (lines : list str) : list str :=
  match lines with
  | [] => []
  | line :: rest =>
      if contains (lit "exit") line then [] else line :: until_exit rest
  end.

(** A socket call that moves data: [sendall] or [recv]. *)
Definition is_transfer (ev : event) : bool :=
  match ev with
  | Sendall _ | Recv _ => true
  | _ => false
  end.

(** A daemon that answers every read with the same chunk; everything
    else succeeds. *)
Definition daemon (reply : bytes) : Env :=
  {| platform_system := lit "Linux";
     os_socket := fun _ _ => Ret tt;
     os_connect := fun _ _ => Ret tt;
     os_create_connection := fun _ _ _ => Ret AF_INET;
     os_sendall := fun _ _ => Ret tt;
     os_recv := fun _ _ => Ret reply;
     os_close := fun _ => Ret tt;
     str_of_exn := fun _ => lit "error";
     platform_system_printable := eq_refl;
     str_of_exn_printable := fun _ => eq_refl |}.

(** A socket call made after the connection is set up: a transfer or
    the [close]. *)
Definition is_session_call (ev : event) : bool :=
  match ev with
  | Sendall _ | Recv _ | Close => true
  | _ => false
  end.
(** ** Basic facts *)

Lemma str_eqb_eq (a b : str) : str_eqb a b = true <-> a = b.
Proof.
  unfold str_eqb. destruct (list_eq_dec N.eq_dec a b); split; congruence.
Qed.

(** ** Printing *)

Lemma printable_cons (c : N) (s : str) :
  printable (c :: s) =
  match encode_char c with
  | Some _ => printable s
  | None => false
  end.
Proof.
  unfold printable. cbn [encode]. destruct (encode_char c); [| reflexivity].
  destruct (encode s); reflexivity.
Qed.

Lemma printable_app (a b : str) : printable (a ++ b) = printable a && printable b.
Proof.
  induction a as [| c a IH]; cbn [app]; [reflexivity |].
  rewrite !printable_cons. destruct (encode_char c); auto.
Qed.

(** The literals of the source are printable. *)
Lemma printable_lit (s : string) : printable (lit s) = true.
Proof.
  unfold lit. induction (list_ascii_of_string s) as [| a l IH]; [reflexivity |].
  cbn [map]. rewrite printable_cons, IH.
  destruct a as [[|] [|] [|] [|] [|] [|] [|] [|]]; reflexivity.
Qed.

Lemma printable_str_of_int (i : Z) : printable (str_of_int i) = true.
Proof. apply printable_lit. Qed.

Lemma print_ok (line : str) (env : Env) (s : State) :
  printable line = true ->
  print line env s =
    ({| self := self s; trace := trace s; stdout := stdout s ++ [line] |}, Ret tt).
Proof. unfold print. intros ->. reflexivity. Qed.

Lemma print_refused (line : str) (env : Env) (s : State) :
  printable line = false ->
  print line env s = (s, Raise UnicodeEncodeError).
Proof. unfold print. intros ->. reflexivity. Qed.

Lemma printable_cons_intro (c : N) (s : str) :
  match encode_char c with Some _ => true | None => false end = true ->
  printable s = true -> printable (c :: s) = true.
Proof. rewrite printable_cons. destruct (encode_char c); [auto | discriminate]. Qed.

Lemma printable_app_intro (a b : str) :
  printable a = true -> printable b = true -> printable (a ++ b) = true.
Proof. rewrite printable_app. intros -> ->. reflexivity. Qed.

(** Proves that a line made of literals, numbers and texts of the
    interpreter is printable. *)
Ltac solve_printable :=
  repeat first
    [ assumption
    | apply str_of_exn_printable
    | apply platform_system_printable
    | apply printable_lit
    | apply printable_str_of_int
    | apply printable_app_intro
    | apply printable_cons_intro; [reflexivity |]
    | reflexivity ].

(** Replaces by [true] the tests of [print] on such lines. *)
Ltac prints :=
  repeat match goal with
  | |- context [printable ?x] =>
      let H := fresh "Hp" in
      assert (H : printable x = true) by solve_printable;
      rewrite H; clear H
  | H0 : context [printable ?x] |- _ =>
      let H := fresh "Hp" in
      assert (H : printable x = true) by solve_printable;
      rewrite H in H0; clear H
  end.

(** ** The receive loop *)

(** Whatever the peer does, the loop only reads: it leaves the instance
    and the printed lines alone, adds nothing but [recv(1024)] calls to
    the log, and ends normally only with the terminator in [data]. *)
Lemma recv_loop_inv (fuel : nat) (env : Env) :
  forall f f' r,
    recv_loop fuel env f = (f', r) ->
    self (fr_state f') = self (fr_state f) /\
    stdout (fr_state f') = stdout (fr_state f) /\
    (exists n, n <= fuel /\
       trace (fr_state f') = trace (fr_state f) ++ repeat (Recv 1024) n) /\
    (r = Ret tt -> contains CRLF (data f') = true).
Proof.
  induction fuel as [| fuel IH]; intros f f' r H.
  - cbn in H. inversion H; subst. repeat split; try discriminate.
    exists 0. cbn. rewrite app_nil_r. auto.
  - cbn [recv_loop] in H. unfold bind, lift, sock_recv, syscall, eval, modify, gets in H.
    cbn in H.
    destruct (os_recv env (List.length (trace (fr_state f))) 1024) as [bs | e |].
    + destruct (decode bs) as [x | e |].
      * cbn in H.
        destruct (contains CRLF (data f ++ x)) eqn:Hc.
        -- inversion H; subst; cbn. repeat split; auto.
           exists 1. split; [lia | reflexivity].
        -- apply IH in H. cbn in H. destruct H as (Hs & Ho & (n & Hn & Ht) & Hr).
           repeat split; auto.
           exists (S n). split; [lia |]. rewrite Ht, <- app_assoc. reflexivity.
      * inversion H; subst; cbn. repeat split; try discriminate.
        exists 1. split; [lia | reflexivity].
      * inversion H; subst; cbn. repeat split; try discriminate.
        exists 1. split; [lia | reflexivity].
    + inversion H; subst; cbn. repeat split; try discriminate.
      exists 1. split; [lia | reflexivity].
    + inversion H; subst; cbn. repeat split; try discriminate.
      exists 1. split; [lia | reflexivity].
Qed.

(** ** sendCommand, step by step *)

(** Building and encoding a message are computations that end. *)
Lemma encode_ends (s : str) : is_diverge (encode s) = false.
Proof.
  induction s as [| c s IH]; cbn; [reflexivity |].
  destruct (encode_char c); [| reflexivity].
  destruct (encode s); auto.
Qed.

Lemma build_message_ends (cmd : str) (index : Z) :
  is_diverge (build_message cmd index) = false.
Proof. destruct cmd; reflexivity. Qed.

(** [print] inside the frame of [sendCommand]. *)
Lemma lift_print_ok (line : str) (env : Env) (f : Frame) :
  printable line = true ->
  lift (print line) env f =
    ({| fr_state := {| self := self (fr_state f); trace := trace (fr_state f);
                       stdout := stdout (fr_state f) ++ [line] |};
        data := data f |}, Ret tt).
Proof. intro H. unfold lift. rewrite print_ok by exact H. reflexivity. Qed.

Lemma lift_print_refused (line : str) (env : Env) (f : Frame) :
  printable line = false ->
  lift (print line) env f = (f, Raise UnicodeEncodeError).
Proof.
  intro H. unfold lift. rewrite print_refused by exact H. destruct f; reflexivity.
Qed.

(** The verbose line of [sendCommand] is printable exactly when the
    message can be encoded. *)
Lemma printable_shown (msg : str) : printable (lit "# " ++ msg) = printable msg.
Proof. rewrite printable_app, printable_lit. reflexivity. Qed.

(** What the [try] block does to the instance and to the log: nothing at
    all when the message cannot be built or encoded (a verbose client
    fails one step earlier, on printing the message), and otherwise one
    [sendall] of the encoded message followed by reads only. *)
Lemma sendCommand_try_inv (fuel : nat) (cmd : str) (index : Z) (env : Env) :
  forall f f' r,
    sendCommand_try fuel cmd index env f = (f', r) ->
    self (fr_state f') = self (fr_state f) /\
    match build_message cmd index with
    | Ret msg =>
        match encode msg with
        | Ret bs =>
            exists n, n <= fuel /\
              trace (fr_state f') =
              trace (fr_state f) ++ Sendall bs :: repeat (Recv 1024) n
        | _ =>
            trace (fr_state f') = trace (fr_state f) /\ data f' = data f /\
            is_raise r = true
        end
    | _ =>
        trace (fr_state f') = trace (fr_state f) /\ data f' = data f /\
        is_raise r = true
    end.
Proof.
  intros f f' r H. unfold sendCommand_try in H.
  unfold bind at 1 2 in H. unfold lift at 1, gets at 1, eval at 1 in H. cbn in H.
  pose proof (build_message_ends cmd index) as Hb.
  destruct (build_message cmd index) as [msg | e |]; [| | discriminate Hb].
  2: inversion H; subst; cbn; auto.
  unfold bind at 1 in H.
  pose proof (encode_ends msg) as He.
  assert (Hshown : printable (lit "# " ++ msg) = printable msg) by apply printable_shown.
  unfold printable at 2 in Hshown.
  destruct (encode msg) as [bs | e |] eqn:Henc; [| | discriminate He].
  2: { destruct (showVerbose (self (fr_state f))); unfold when in H.
       - rewrite lift_print_refused in H by exact Hshown.
         inversion H; subst; cbn; auto.
       - unfold ret, bind, eval in H.
         inversion H; subst; cbn; auto. }
  assert (Hsend :
    exists g, self (fr_state g) = self (fr_state f) /\
              trace (fr_state g) = trace (fr_state f) /\
              (lift (sock_sendall bs) ;;
               recv_loop fuel ;;
               modify (fun f => set_data (strip (remove_char NUL (data f))) f) ;;
               d <- gets data ;;
               lift (print d)) env g = (f', r)).
  { destruct (showVerbose (self (fr_state f))); unfold when in H.
    - rewrite lift_print_ok in H by exact Hshown.
      unfold bind at 1, eval at 1 in H.
      eexists; split; [| split; [| exact H]]; reflexivity.
    - unfold ret at 1 in H. unfold bind at 1, eval at 1 in H.
      eexists; split; [| split; [| exact H]]; reflexivity. }
  clear H. destruct Hsend as (g & Hg & Htg & H). rewrite <- Hg, <- Htg.
  unfold bind at 1 in H. unfold lift at 1, sock_sendall, syscall in H.
  destruct (os_sendall env (List.length (trace (fr_state g))) bs) as [[] | e |];
    [| inversion H; subst; cbn; (split; [reflexivity |]);
       exists 0; (split; [lia | reflexivity]) ..].
  unfold bind at 1 in H.
  match type of H with
  | context [recv_loop _ _ ?g] =>
      destruct (recv_loop fuel env g) as [f2 r2] eqn:Hloop
  end.
  apply recv_loop_inv in Hloop; cbn in Hloop.
  destruct Hloop as (Hs2 & _ & (n & Hn & Ht2) & _).
  assert (Hgoal : forall f3, self (fr_state f3) = self (fr_state f2) ->
                             trace (fr_state f3) = trace (fr_state f2) ->
    self (fr_state f3) = self (fr_state g) /\
    exists n, n <= fuel /\
      trace (fr_state f3) = trace (fr_state g) ++ Sendall bs :: repeat (Recv 1024) n).
  { intros f3 Hs3 Ht3. split; [congruence |]. exists n. split; [exact Hn |].
    rewrite Ht3, Ht2, <- app_assoc. reflexivity. }
  destruct r2 as [[] | e |]; [| inversion H; subst; apply Hgoal; reflexivity ..].
  unfold bind, modify, gets, lift, print in H. cbn in H.
  destruct (printable (strip (remove_char NUL (data f2))));
    inversion H; subst; apply Hgoal; reflexivity.
Qed.

(** A handler that reports the exception when verbose: the line is
    printable, so the handler ends normally. *)
Lemma report_ok (b : bool) (prefix : string) (e : exn) (env : Env) (f : Frame) :
  (msg <- ask (fun env => str_of_exn env e) ;;
   when b (lift (print (lit prefix ++ msg)))) env f =
  (if b
   then {| fr_state := {| self := self (fr_state f); trace := trace (fr_state f);
                          stdout := stdout (fr_state f)
                                    ++ [lit prefix ++ str_of_exn env e] |};
           data := data f |}
   else f, Ret tt).
Proof.
  unfold bind, ask. destruct b; unfold when; [| reflexivity].
  apply lift_print_ok. solve_printable.
Qed.

(** The same for the whole call.  It never raises; unconnected, or when
    the message cannot be built or encoded, it touches no socket and
    returns the empty string. *)
Lemma sendCommand_inv (fuel : nat) (cmd : str) (index : Z) (env : Env) :
  forall s s' r,
    sendCommand fuel cmd index env s = (s', r) ->
    self s' = self s /\ is_raise r = false /\
    match sock (self s) with
    | None => trace s' = trace s /\ r = Ret []
    | Some _ =>
        match build_message cmd index with
        | Ret msg =>
            match encode msg with
            | Ret bs =>
                exists n, n <= fuel /\
                  trace s' = trace s ++ Sendall bs :: repeat (Recv 1024) n
            | _ => trace s' = trace s /\ r = Ret []
            end
        | _ => trace s' = trace s /\ r = Ret []
        end
    end.
Proof.
  intros s s' r H. unfold sendCommand, locals in H.
  unfold bind at 1 in H. unfold lift at 1, gets at 1 in H. cbn [fr_state data] in H.
  destruct (sock (self s)) as [sk |].
  - unfold bind at 1, try_except in H.
    destruct (sendCommand_try fuel cmd index env {| fr_state := s; data := [] |})
      as [f1 r1] eqn:Htry.
    apply sendCommand_try_inv in Htry. cbn in Htry. destruct Htry as [Hs Hrest].
    destruct r1 as [[] | e |].
    + unfold gets in H. inversion H; subst.
      split; [exact Hs |]. split; [reflexivity |].
      destruct (build_message cmd index) as [msg | |];
        [destruct (encode msg) |..]; try exact Hrest;
        destruct Hrest as (_ & _ & Hr); discriminate Hr.
    + rewrite report_ok in H. unfold gets in H.
      destruct (showVerbose (self s)) eqn:Hv;
        inversion H; subst; cbn; (split; [exact Hs |]);
        (split; [reflexivity |]);
        (destruct (build_message cmd index) as [msg | |];
         [destruct (encode msg) |..]; try exact Hrest;
         destruct Hrest as (Ht & Hd & _);
         (split; [exact Ht | rewrite Hd; reflexivity])).
    + inversion H; subst. split; [exact Hs |]. split; [reflexivity |].
      destruct (build_message cmd index) as [msg | |];
        [destruct (encode msg) |..]; try exact Hrest;
        destruct Hrest as (_ & _ & Hr); discriminate Hr.
  - unfold bind, gets in H.
    destruct (showVerbose (self s)); unfold when in H;
      [rewrite lift_print_ok in H by solve_printable | unfold ret in H];
      inversion H; subst; cbn; auto.
Qed.

Lemma when_lift_print_ok (b : bool) (line : str) (env : Env) (f : Frame) :
  printable line = true ->
  when b (lift (print line)) env f =
    ({| fr_state := {| self := self (fr_state f); trace := trace (fr_state f);
                       stdout := if b then stdout (fr_state f) ++ [line]
                                 else stdout (fr_state f) |};
        data := data f |}, Ret tt).
Proof.
  intro H. destruct b; unfold when; [apply lift_print_ok; exact H |].
  destruct f as [[c t o] d]. reflexivity.
Qed.

(** Once the message is on the wire, the call is decided by the receive
    loop: a terminated reply is cleaned and returned, an exception ends
    the call with the text accumulated so far. *)
Lemma sendCommand_run (fuel : nat) (cmd : str) (index : Z) (env : Env)
    (s : State) (sk : socket) (msg : str) (bs : bytes) (f' : Frame)
    (r : outcome unit) :
  sock (self s) = Some sk ->
  build_message cmd index = Ret msg ->
  encode msg = Ret bs ->
  os_sendall env (List.length (trace s)) bs = Ret tt ->
  recv_loop fuel env {| fr_state := after_send s msg bs; data := [] |} = (f', r) ->
  exists s',
    self s' = self s /\ trace s' = trace (fr_state f') /\
    sendCommand fuel cmd index env s =
    (s', match r with
         | Ret _ => Ret (strip (remove_char NUL (data f')))
         | Raise _ => Ret (data f')
         | Diverge => Diverge
         end).
Proof.
  intros Hsock Hmsg Henc Hsend Hloop.
  pose proof (recv_loop_inv _ _ _ _ _ Hloop) as (Hself & _ & _ & _). cbn in Hself.
  assert (Hshown : printable (lit "# " ++ msg) = true).
  { rewrite printable_shown. unfold printable. rewrite Henc. reflexivity. }
  unfold sendCommand, locals, sendCommand_try.
  unfold bind at 1. unfold lift at 1, gets at 1. cbn [fr_state data]. rewrite Hsock.
  unfold bind at 1, try_except.
  unfold bind at 1 2. unfold lift at 1, gets at 1, eval at 1. cbn [fr_state data].
  rewrite Hmsg. unfold bind at 1.
  rewrite when_lift_print_ok by exact Hshown. cbn [fr_state data self trace stdout].
  unfold bind at 1, eval at 1. rewrite Henc.
  unfold bind at 1. unfold lift at 1, sock_sendall, syscall.
  cbn [fr_state data self trace stdout]. rewrite Hsend.
  unfold bind at 1. unfold after_send in Hloop.
  match goal with
  | |- context [recv_loop _ _ ?g] =>
      let Hl := fresh "Hl" in
      assert (Hl : recv_loop fuel env g = (f', r)) by exact Hloop;
      rewrite Hl
  end.
  destruct r as [[] | e |].
  - unfold bind at 1 2, modify at 1, gets at 1. cbn [fr_state data set_data].
    destruct (printable (strip (remove_char NUL (data f')))) eqn:Hp.
    + rewrite lift_print_ok by exact Hp. unfold gets. cbn [fr_state data].
      eexists; (split; [| split; [| reflexivity]]); cbn; auto.
    + rewrite lift_print_refused by exact Hp. rewrite report_ok. unfold gets.
      destruct (showVerbose (self s));
        eexists; (split; [| split; [| reflexivity]]); cbn; auto.
  - rewrite report_ok. unfold gets.
    destruct (showVerbose (self s));
      eexists; (split; [| split; [| reflexivity]]); cbn; auto.
  - eexists; (split; [| split; [| reflexivity]]); cbn; auto.
Qed.


(** ** The receive loop on a given sequence of reads *)

Lemma reads_reads (n : nat) (s : State) : reads n (reads 1 s) = reads (S n) s.
Proof.
  unfold reads. cbn. rewrite <- app_assoc. reflexivity.
Qed.

Lemma bytes_eqb_eq (a b : bytes) : bytes_eqb a b = true -> a = b.
Proof.
  revert b. induction a as [| x a IH]; destruct b as [| y b]; cbn;
    try discriminate; [reflexivity |].
  intro H. apply andb_prop in H. destruct H as [Hxy Hab].
  apply Byte.byte_dec_bl in Hxy. rewrite Hxy, (IH b Hab). reflexivity.
Qed.

Lemma delivers_tail (env : Env) (t : nat) (c : bytes) (cs : list bytes) :
  delivers env t (c :: cs) = true ->
  os_recv env t 1024 = Ret c /\ delivers env (S t) cs = true.
Proof.
  cbn. intro H. apply andb_prop in H. destruct H as [Hc Hcs].
  split; [| exact Hcs].
  unfold is_chunk in Hc. destruct (os_recv env t 1024) as [c' | |];
    try discriminate.
  apply bytes_eqb_eq in Hc. rewrite Hc. reflexivity.
Qed.

Lemma length_reads_one (s : State) :
  List.length (trace (reads 1 s)) = S (List.length (trace s)).
Proof. cbn. rewrite length_app. cbn. lia. Qed.

(** One iteration, by cases on what the read brings. *)
Lemma recv_loop_step (fuel : nat) (env : Env) (f : Frame) :
  recv_loop (S fuel) env f =
  match os_recv env (List.length (trace (fr_state f))) 1024 with
  | Ret c =>
      match decode c with
      | Ret x =>
          if contains CRLF (data f ++ x)
          then ({| fr_state := reads 1 (fr_state f); data := data f ++ x |}, Ret tt)
          else recv_loop fuel env
                 {| fr_state := reads 1 (fr_state f); data := data f ++ x |}
      | Raise e => ({| fr_state := reads 1 (fr_state f); data := data f |}, Raise e)
      | Diverge => ({| fr_state := reads 1 (fr_state f); data := data f |}, Diverge)
      end
  | Raise e => ({| fr_state := reads 1 (fr_state f); data := data f |}, Raise e)
  | Diverge => ({| fr_state := reads 1 (fr_state f); data := data f |}, Diverge)
  end.
Proof.
  cbn [recv_loop]. run_monad. cbn.
  destruct (os_recv env (List.length (trace (fr_state f))) 1024) as [c | e |];
    try reflexivity.
  destruct (decode c) as [x | e |]; try reflexivity.
  cbn. destruct (contains CRLF (data f ++ x)); reflexivity.
Qed.

(** A reply that arrives in the chunks [cs], decoded as [xs]: the loop
    stops at the first chunk that brings the terminator into [data]. *)
Lemma recv_loop_reply (env : Env) :
  forall (cs : list bytes) (xs : list str) (fuel : nat) (f : Frame),
    Forall2 (fun c x => decode c = Ret x) cs xs ->
    delivers env (List.length (trace (fr_state f))) cs = true ->
    contains CRLF (data f) = false ->
    contains CRLF (data f ++ List.concat xs) = true ->
    List.length cs <= fuel ->
    exists k,
      1 <= k <= List.length cs /\
      recv_loop fuel env f =
        ({| fr_state := reads k (fr_state f);
            data := data f ++ List.concat (firstn k xs) |}, Ret tt) /\
      contains CRLF (data f ++ List.concat (firstn k xs)) = true /\
      (forall j, j < k -> contains CRLF (data f ++ List.concat (firstn j xs)) = false).
Proof.
  induction cs as [| c cs IH]; intros xs fuel f Hdec Hdel Hno Hyes Hfuel.
  - inversion Hdec; subst. cbn in Hyes. rewrite app_nil_r in Hyes. congruence.
  - inversion Hdec as [| c' x cs' xs' Hc Hrest]; subst.
    apply delivers_tail in Hdel. destruct Hdel as [Hrecv Hdel].
    destruct fuel as [| fuel]; [cbn in Hfuel; lia |].
    rewrite recv_loop_step, Hrecv, Hc.
    destruct (contains CRLF (data f ++ x)) eqn:Hx.
    + exists 1. cbn. rewrite app_nil_r. repeat split; auto; try lia.
      intros j Hj. assert (j = 0) by lia. subst j. cbn. rewrite app_nil_r. exact Hno.
    + specialize (IH xs' fuel
                    {| fr_state := reads 1 (fr_state f); data := data f ++ x |}
                    Hrest).
      cbn [fr_state data] in IH. rewrite length_reads_one in IH.
      specialize (IH Hdel Hx).
      cbn [List.concat] in Hyes. rewrite app_assoc in Hyes.
      specialize (IH Hyes). cbn in Hfuel.
      destruct IH as (k & Hk & Hrun & Hend & Hbefore); [lia |].
      exists (S k). cbn [firstn List.concat List.length].
      rewrite Hrun, reads_reads, <- app_assoc.
      repeat split; auto; try lia.
      * rewrite app_assoc. exact Hend.
      * intros j Hj. destruct j as [| j].
        -- cbn. rewrite app_nil_r. exact Hno.
        -- cbn [firstn List.concat]. rewrite app_assoc. apply Hbefore. lia.
Qed.

(** Reads that bring no terminator, followed by one that fails (the read
    itself, or the decoding of what it brought): the loop raises with
    the text of the good chunks in [data]. *)
Lemma recv_loop_partial (env : Env) (e : exn) :
  forall (cs : list bytes) (xs : list str) (fuel : nat) (f : Frame),
    Forall2 (fun c x => decode c = Ret x) cs xs ->
    delivers env (List.length (trace (fr_state f))) cs = true ->
    (forall k, 1 <= k <= List.length xs ->
               contains CRLF (data f ++ List.concat (firstn k xs)) = false) ->
    (os_recv env (List.length (trace (fr_state f)) + List.length cs) 1024 = Raise e \/
     exists c, os_recv env (List.length (trace (fr_state f)) + List.length cs) 1024
               = Ret c /\ decode c = Raise e) ->
    List.length cs < fuel ->
    recv_loop fuel env f =
      ({| fr_state := reads (S (List.length cs)) (fr_state f);
          data := data f ++ List.concat xs |}, Raise e).
Proof.
  induction cs as [| c cs IH]; intros xs fuel f Hdec Hdel Hno Hfail Hfuel.
  - inversion Hdec; subst. cbn. rewrite app_nil_r.
    destruct fuel as [| fuel]; [lia |].
    rewrite recv_loop_step. cbn in Hfail. rewrite Nat.add_0_r in Hfail.
    destruct Hfail as [Hr | (c & Hr & Hd)]; rewrite Hr; [| rewrite Hd]; reflexivity.
  - inversion Hdec as [| c' x cs' xs' Hc Hrest]; subst.
    apply delivers_tail in Hdel. destruct Hdel as [Hrecv Hdel].
    destruct fuel as [| fuel]; [lia |].
    rewrite recv_loop_step, Hrecv, Hc.
    assert (Hx : contains CRLF (data f ++ x) = false).
    { specialize (Hno 1). cbn in Hno. rewrite app_nil_r in Hno. apply Hno. lia. }
    rewrite Hx.
    rewrite (IH xs' fuel {| fr_state := reads 1 (fr_state f); data := data f ++ x |}
               Hrest).
    + cbn [fr_state data List.concat List.length]. rewrite reads_reads, <- app_assoc.
      reflexivity.
    + cbn [fr_state]. rewrite length_reads_one. exact Hdel.
    + intros k Hk. cbn [data]. rewrite <- app_assoc.
      apply (Hno (S k)). cbn. lia.
    + cbn [fr_state]. rewrite length_reads_one. cbn in Hfail.
      rewrite Nat.add_succ_r in Hfail. exact Hfail.
    + cbn in Hfuel. lia.
Qed.

(** A peer that has closed the connection in an orderly way: every read
    from now on returns the empty chunk, nothing is raised, and the loop
    never ends. *)
Lemma recv_loop_closed (env : Env) (fuel : nat) :
  forall f,
    (forall t, List.length (trace (fr_state f)) <= t -> os_recv env t 1024 = Ret []) ->
    contains CRLF (data f) = false ->
    snd (recv_loop fuel env f) = Diverge.
Proof.
  induction fuel as [| fuel IH]; intros f Hclosed Hno; [reflexivity |].
  rewrite recv_loop_step, Hclosed by lia. cbn [decode]. rewrite app_nil_r, Hno.
  apply IH; [| exact Hno].
  intros t Ht. apply Hclosed. cbn [fr_state] in Ht.
  rewrite length_reads_one in Ht. lia.
Qed.

(** The same after the chunks [cs], which bring no terminator. *)
Lemma recv_loop_starved (env : Env) :
  forall (cs : list bytes) (xs : list str) (fuel : nat) (f : Frame),
    Forall2 (fun c x => decode c = Ret x) cs xs ->
    delivers env (List.length (trace (fr_state f))) cs = true ->
    contains CRLF (data f) = false ->
    (forall k, 1 <= k <= List.length xs ->
               contains CRLF (data f ++ List.concat (firstn k xs)) = false) ->
    (forall t, List.length (trace (fr_state f)) + List.length cs <= t ->
               os_recv env t 1024 = Ret []) ->
    snd (recv_loop fuel env f) = Diverge.
Proof.
  induction cs as [| c cs IH]; intros xs fuel f Hdec Hdel Hdata Hno Hclosed.
  - apply recv_loop_closed; [| exact Hdata].
    intros t Ht. apply Hclosed. cbn. lia.
  - inversion Hdec as [| c' x cs' xs' Hc Hrest]; subst.
    apply delivers_tail in Hdel. destruct Hdel as [Hrecv Hdel].
    destruct fuel as [| fuel]; [reflexivity |].
    rewrite recv_loop_step, Hrecv, Hc.
    assert (Hx : contains CRLF (data f ++ x) = false).
    { specialize (Hno 1). cbn in Hno. rewrite app_nil_r in Hno. apply Hno. lia. }
    rewrite Hx.
    apply (IH xs' fuel {| fr_state := reads 1 (fr_state f); data := data f ++ x |}
              Hrest).
    + cbn [fr_state]. rewrite length_reads_one. exact Hdel.
    + exact Hx.
    + intros k Hk. cbn [data]. rewrite <- app_assoc.
      apply (Hno (S k)). cbn. lia.
    + intros t Ht. apply Hclosed. cbn [fr_state] in Ht.
      rewrite length_reads_one in Ht. cbn. lia.
Qed.

(** ** Cleaning the reply *)

Lemma lstrip_incl (s : str) (c : N) : In c (lstrip s) -> In c s.
Proof.
  induction s as [| a s IH]; cbn; [auto |].
  destruct (isspace a); cbn; auto.
Qed.

Lemma strip_incl (s : str) (c : N) : In c (strip s) -> In c s.
Proof.
  unfold strip, rstrip. intro H.
  apply in_rev in H. apply lstrip_incl in H. apply in_rev in H.
  apply lstrip_incl in H. exact H.
Qed.

(** The cleaned text holds no null character. *)
Lemma cleaned_no_nul (x : str) : ~ In NUL (strip (remove_char NUL x)).
Proof.
  intro H. apply strip_incl in H. unfold remove_char in H.
  apply filter_In in H. destruct H as [_ H].
  rewrite N.eqb_refl in H. discriminate H.
Qed.

(** ** ASCII replies, in any chunking *)

Lemma decode_ascii (bs : bytes) :
  all_ascii bs = true -> decode bs = Ret (text_of bs).
Proof.
  induction bs as [| b bs IH]; intro H; [reflexivity |].
  cbn in H. apply andb_prop in H. destruct H as [Hb Hbs].
  cbn [decode]. rewrite Hb, (IH Hbs). reflexivity.
Qed.

Lemma all_ascii_app (a b : bytes) :
  all_ascii (a ++ b) = all_ascii a && all_ascii b.
Proof. unfold all_ascii. apply forallb_app. Qed.

Lemma decode_ascii_chunks (cs : list bytes) :
  all_ascii (List.concat cs) = true ->
  Forall2 (fun c x => decode c = Ret x) cs (map text_of cs).
Proof.
  induction cs as [| c cs IH]; intro H; cbn; constructor.
  - cbn in H. rewrite all_ascii_app in H. apply andb_prop in H.
    apply decode_ascii. tauto.
  - cbn in H. rewrite all_ascii_app in H. apply andb_prop in H.
    apply IH. tauto.
Qed.

Lemma text_of_chunks (cs : list bytes) :
  List.concat (map text_of cs) = text_of (List.concat cs).
Proof. unfold text_of. symmetry. apply concat_map. Qed.

Lemma concat_firstn_prefix {A : Type} (k : nat) (xs : list (list A)) :
  List.concat (firstn k xs) =
  firstn (List.length (List.concat (firstn k xs))) (List.concat xs).
Proof.
  rewrite <- (firstn_skipn k xs) at 3. rewrite concat_app.
  rewrite firstn_app, Nat.sub_diag, firstn_all. cbn. rewrite app_nil_r.
  reflexivity.
Qed.

Lemma terminated_at_end_prefix (x : str) (m : nat) :
  terminated_at_end x = true ->
  contains CRLF (firstn m x) = true ->
  firstn m x = x.
Proof.
  unfold terminated_at_end. intros H Hm.
  apply andb_prop in H. destruct H as [_ H].
  destruct (Nat.lt_ge_cases m (List.length x)) as [Hlt | Hge].
  - rewrite forallb_forall in H. specialize (H m).
    rewrite Hm in H. cbn in H.
    assert (In m (seq 0 (List.length x))) by (apply in_seq; lia).
    specialize (H H0). discriminate H.
  - apply firstn_all2. exact Hge.
Qed.

(** ** Complete and interrupted replies *)

(** The message goes out and a terminated reply arrives in the chunks
    [cs]: the call returns the cleaned text of the chunks read up to the
    first one that brings the terminator. *)
Lemma sendCommand_reply (env : Env) (s : State) (sk : socket) (fuel : nat)
    (cmd : str) (index : Z) (msg : str) (bs : bytes)
    (cs : list bytes) (xs : list str) :
  sock (self s) = Some sk ->
  build_message cmd index = Ret msg ->
  encode msg = Ret bs ->
  os_sendall env (List.length (trace s)) bs = Ret tt ->
  Forall2 (fun c x => decode c = Ret x) cs xs ->
  delivers env (S (List.length (trace s))) cs = true ->
  contains CRLF (List.concat xs) = true ->
  List.length cs <= fuel ->
  exists k s',
    1 <= k <= List.length cs /\
    sendCommand fuel cmd index env s =
      (s', Ret (strip (remove_char NUL (List.concat (firstn k xs))))) /\
    self s' = self s /\
    trace s' = trace s ++ Sendall bs :: repeat (Recv 1024) k /\
    contains CRLF (List.concat (firstn k xs)) = true /\
    (forall j, j < k -> contains CRLF (List.concat (firstn j xs)) = false).
Proof.
  intros Hsock Hmsg Henc Hsend Hdec Hdel Hyes Hfuel.
  destruct (recv_loop_reply env cs xs fuel
              {| fr_state := after_send s msg bs; data := [] |} Hdec)
    as (k & Hk & Hrun & Hend & Hbefore); auto.
  - cbn. rewrite length_app. cbn. rewrite Nat.add_1_r. exact Hdel.
  - cbn [data app] in *.
    destruct (sendCommand_run fuel cmd index env s sk msg bs _ _
                Hsock Hmsg Henc Hsend Hrun) as (s' & Hself & Htr & Hcall).
    exists k, s'. cbn [data] in Hcall.
    repeat split; auto; try lia.
    rewrite Htr. cbn. rewrite <- app_assoc. reflexivity.
Qed.

(** The message goes out, the chunks [cs] arrive without a terminator,
    and the next read fails (or brings bytes that do not decode): the
    call returns the text of the chunks, as accumulated. *)
Lemma sendCommand_partial (env : Env) (s : State) (sk : socket) (fuel : nat)
    (cmd : str) (index : Z) (msg : str) (bs : bytes)
    (cs : list bytes) (xs : list str) (e : exn) :
  sock (self s) = Some sk ->
  build_message cmd index = Ret msg ->
  encode msg = Ret bs ->
  os_sendall env (List.length (trace s)) bs = Ret tt ->
  Forall2 (fun c x => decode c = Ret x) cs xs ->
  delivers env (S (List.length (trace s))) cs = true ->
  (forall k, 1 <= k <= List.length xs ->
             contains CRLF (List.concat (firstn k xs)) = false) ->
  (os_recv env (S (List.length (trace s)) + List.length cs) 1024 = Raise e \/
   exists c, os_recv env (S (List.length (trace s)) + List.length cs) 1024 = Ret c /\
             decode c = Raise e) ->
  List.length cs < fuel ->
  exists s',
    sendCommand fuel cmd index env s = (s', Ret (List.concat xs)) /\
    self s' = self s /\
    trace s' = trace s ++ Sendall bs :: repeat (Recv 1024) (S (List.length cs)).
Proof.
  intros Hsock Hmsg Henc Hsend Hdec Hdel Hno Hfail Hfuel.
  assert (Hlen : List.length (trace (after_send s msg bs)) = S (List.length (trace s))).
  { cbn. rewrite length_app. cbn. lia. }
  pose proof (recv_loop_partial env e cs xs fuel
                {| fr_state := after_send s msg bs; data := [] |} Hdec) as Hrun.
  cbn [fr_state data app] in Hrun. rewrite Hlen in Hrun.
  specialize (Hrun Hdel Hno Hfail Hfuel).
  destruct (sendCommand_run fuel cmd index env s sk msg bs _ _
              Hsock Hmsg Henc Hsend Hrun) as (s' & Hself & Htr & Hcall).
  exists s'. cbn [data] in Hcall. repeat split; auto.
  rewrite Htr. cbn [fr_state reads after_send trace]. rewrite <- app_assoc.
  reflexivity.
Qed.

(** The message goes out, the chunks [cs] arrive without a terminator,
    and the peer closes the connection in an orderly way (every further
    read returns the empty chunk): nothing is raised and the call never
    returns, whatever the number of iterations allowed. *)
Lemma sendCommand_starved (env : Env) (s : State) (sk : socket) (fuel : nat)
    (cmd : str) (index : Z) (msg : str) (bs : bytes)
    (cs : list bytes) (xs : list str) :
  sock (self s) = Some sk ->
  build_message cmd index = Ret msg ->
  encode msg = Ret bs ->
  os_sendall env (List.length (trace s)) bs = Ret tt ->
  Forall2 (fun c x => decode c = Ret x) cs xs ->
  delivers env (S (List.length (trace s))) cs = true ->
  (forall k, 1 <= k <= List.length xs ->
             contains CRLF (List.concat (firstn k xs)) = false) ->
  (forall t, S (List.length (trace s)) + List.length cs <= t ->
             os_recv env t 1024 = Ret []) ->
  snd (sendCommand fuel cmd index env s) = Diverge.
Proof.
  intros Hsock Hmsg Henc Hsend Hdec Hdel Hno Hclosed.
  assert (Hlen : List.length (trace (after_send s msg bs)) = S (List.length (trace s))).
  { cbn. rewrite length_app. cbn. lia. }
  pose proof (recv_loop_starved env cs xs fuel
                {| fr_state := after_send s msg bs; data := [] |} Hdec) as Hrun.
  cbn [fr_state data app] in Hrun. rewrite Hlen in Hrun.
  specialize (Hrun Hdel eq_refl Hno Hclosed).
  destruct (recv_loop fuel env {| fr_state := after_send s msg bs; data := [] |})
    as [f' r] eqn:Hloop.
  cbn [snd] in Hrun. subst r.
  destruct (sendCommand_run fuel cmd index env s sk msg bs _ _
              Hsock Hmsg Henc Hsend Hloop) as (s' & _ & _ & Hcall).
  rewrite Hcall. reflexivity.
Qed.

(** An ASCII reply [raw] whose only terminator is at its end, cut into
    chunks in any way: the call returns the cleaned text of [raw]. *)
Lemma sendCommand_reply_ascii (env : Env) (s : State) (sk : socket) (fuel : nat)
    (cmd : str) (index : Z) (msg : str) (bs : bytes)
    (raw : bytes) (cs : list bytes) :
  sock (self s) = Some sk ->
  build_message cmd index = Ret msg ->
  encode msg = Ret bs ->
  os_sendall env (List.length (trace s)) bs = Ret tt ->
  List.concat cs = raw ->
  all_ascii raw = true ->
  terminated_at_end (text_of raw) = true ->
  delivers env (S (List.length (trace s))) cs = true ->
  List.length cs <= fuel ->
  exists s',
    sendCommand fuel cmd index env s =
      (s', Ret (strip (remove_char NUL (text_of raw)))) /\
    self s' = self s.
Proof.
  intros Hsock Hmsg Henc Hsend Hcat Hascii Hterm Hdel Hfuel. subst raw.
  destruct (sendCommand_reply env s sk fuel cmd index msg bs cs (map text_of cs))
    as (k & s' & Hk & Hcall & Hself & _ & Hend & _); auto.
  - apply decode_ascii_chunks. exact Hascii.
  - rewrite text_of_chunks. unfold terminated_at_end in Hterm.
    apply andb_prop in Hterm. tauto.
  - exists s'. split; [| exact Hself].
    assert (Heq : List.concat (firstn k (map text_of cs)) =
                  text_of (List.concat cs)).
    { rewrite concat_firstn_prefix, text_of_chunks.
      rewrite concat_firstn_prefix, text_of_chunks in Hend.
      apply terminated_at_end_prefix; assumption. }
    rewrite Hcall, Heq. reflexivity.
Qed.

(** ** From computable conditions to the run lemmas *)

Lemma decoded_chunks (cs : list bytes) (xs : list str) :
  map decode cs = map (@Ret str) xs ->
  Forall2 (fun c x => decode c = Ret x) cs xs.
Proof.
  revert xs. induction cs as [| c cs IH]; destruct xs as [| x xs]; cbn;
    intro H; try discriminate; constructor.
  - congruence.
  - apply IH. congruence.
Qed.

Lemma unterminated_spec (xs : list str) (k : nat) :
  unterminated xs = true ->
  1 <= k <= List.length xs ->
  contains CRLF (List.concat (firstn k xs)) = false.
Proof.
  unfold unterminated. intros H Hk. rewrite forallb_forall in H.
  apply negb_true_iff. apply H. apply in_seq. lia.
Qed.

Lemma read_text_fails (r : outcome bytes) (e : exn) :
  read_text r = Raise e ->
  r = Raise e \/ exists c, r = Ret c /\ decode c = Raise e.
Proof.
  destruct r as [c | e' |]; cbn; intro H.
  - right. exists c. auto.
  - left. injection H as ->. reflexivity.
  - discriminate H.
Qed.

(** The send fails: the call returns the empty string. *)
Lemma sendCommand_send_fails (env : Env) (s : State) (sk : socket)
    (fuel : nat) (cmd : str) (index : Z) (e : exn) :
  sock (self s) = Some sk ->
  send_phase env (List.length (trace s)) cmd index = Raise e ->
  snd (sendCommand fuel cmd index env s) = Ret [].
Proof.
  intros Hsock Hphase. unfold send_phase in Hphase.
  destruct (sendCommand fuel cmd index env s) as [s' r] eqn:Hrun. cbn [snd].
  pose proof (sendCommand_inv _ _ _ _ _ _ _ Hrun) as (_ & _ & Hcases).
  rewrite Hsock in Hcases.
  destruct (build_message cmd index) as [msg | e1 |] eqn:Hmsg; try tauto.
  destruct (encode msg) as [bs | e1 |] eqn:Henc; try tauto.
  clear Hcases. revert Hrun.
  assert (Hshown : printable (lit "# " ++ msg) = true).
  { rewrite printable_shown. unfold printable. rewrite Henc. reflexivity. }
  unfold sendCommand, locals, sendCommand_try.
  unfold bind at 1. unfold lift at 1, gets at 1. cbn [fr_state data]. rewrite Hsock.
  unfold bind at 1, try_except.
  unfold bind at 1 2. unfold lift at 1, gets at 1, eval at 1. cbn [fr_state data].
  rewrite Hmsg. unfold bind at 1.
  rewrite when_lift_print_ok by exact Hshown. cbn [fr_state data self trace stdout].
  unfold bind at 1, eval at 1. rewrite Henc.
  unfold bind at 1. unfold lift at 1, sock_sendall, syscall.
  cbn [fr_state data self trace stdout]. rewrite Hphase.
  rewrite report_ok. unfold gets.
  destruct (showVerbose (self s)); intro H; inversion H; reflexivity.
Qed.

(** ** Calls that touch no socket *)

(** C6.  Called while the handle is absent, [sendCommand] returns the
    empty string whatever the command and the index, and performs no
    socket call: the log of socket calls (sends and reads alike) and the
    instance are as they were. *)
Theorem sendCommand_unconnected (env : Env) (s : State) (fuel : nat)
    (cmd : str) (index : Z) :
  sock (self s) = None ->
  exists s',
    sendCommand fuel cmd index env s = (s', Ret []) /\
    trace s' = trace s /\ self s' = self s.
Proof.
  intro Hnone.
  destruct (sendCommand fuel cmd index env s) as [s' r] eqn:Hrun.
  apply sendCommand_inv in Hrun. rewrite Hnone in Hrun.
  destruct Hrun as (Hself & _ & Htrace & ->).
  exists s'. auto.
Qed.

Lemma sendCommand_unconnected_witness :
  exists s',
    sendCommand 3 (lit "read 0x1018 1") default_index (replying [])
                (fresh tcp_client) = (s', Ret []) /\
    trace s' = trace (fresh tcp_client) /\ self s' = self (fresh tcp_client).
Proof.
  apply (sendCommand_unconnected (replying []) (fresh tcp_client) 3
           (lit "read 0x1018 1") default_index).
  reflexivity.
Defined.

(** C10.  For a connected client, [sendCommand] with the empty command
    returns the empty string and sends nothing: [cmd[0]] raises
    [IndexError] inside the [try] block before any socket call, and the
    handler only reports it (when verbose). *)
Theorem sendCommand_empty_command (env : Env) (s : State) (sk : socket)
    (fuel : nat) (index : Z) :
  sock (self s) = Some sk ->
  build_message [] index = Raise IndexError /\
  exists s',
    sendCommand fuel [] index env s = (s', Ret []) /\
    trace s' = trace s /\ self s' = self s /\
    stdout s' =
      if showVerbose (self s)
      then stdout s ++ [lit "ERROR: TX failed: " ++ str_of_exn env IndexError]
      else stdout s.
Proof.
  intro Hsock. split; [reflexivity |].
  unfold sendCommand, locals, sendCommand_try.
  unfold bind at 1. unfold lift at 1, gets at 1. cbn [fr_state data]. rewrite Hsock.
  unfold bind at 1, try_except.
  unfold bind at 1 2. unfold lift at 1, gets at 1, eval at 1.
  cbn [build_message getitem0 fr_state data].
  rewrite report_ok. unfold gets.
  destruct (showVerbose (self s)); cbn; eexists; repeat split.
Qed.

Lemma sendCommand_empty_command_witness :
  build_message [] default_index = Raise IndexError /\
  exists s',
    sendCommand 3 [] default_index (replying [bytes_of "[1] OK"])
                (connected tcp_client) = (s', Ret []) /\
    trace s' = trace (connected tcp_client) /\
    self s' = self (connected tcp_client) /\
    stdout s' = stdout (connected tcp_client).
Proof.
  apply (sendCommand_empty_command (replying [bytes_of "[1] OK"])
           (connected tcp_client) {| family := AF_INET; is_connected := true |}
           3 default_index).
  reflexivity.
Defined.

(** ** What is sent *)

Lemma sent_app (a b : list event) : sent (a ++ b) = sent a ++ sent b.
Proof.
  induction a as [| ev a IH]; cbn; [reflexivity |].
  destruct ev; cbn; rewrite IH; reflexivity.
Qed.

Lemma sent_reads (n : nat) : sent (repeat (Recv 1024) n) = [].
Proof. induction n; cbn; auto. Qed.

Lemma sent_one_send (tr : list event) (bs : bytes) (n : nat) :
  sent (tr ++ Sendall bs :: repeat (Recv 1024) n) = sent tr ++ [bs].
Proof. rewrite sent_app. cbn. rewrite sent_reads. reflexivity. Qed.

(** C5.  For a connected client and a command that begins with ['['],
    [sendCommand] hands to [sendall] exactly the strict UTF-8 bytes of
    the command itself, whatever the index: the call adds to the log
    that one send, followed by reads only. *)
Theorem sendCommand_tagged_verbatim (env : Env) (s : State) (sk : socket)
    (fuel : nat) (rest : str) (index : Z) (bs : bytes) :
  sock (self s) = Some sk ->
  encode (lit "[" ++ rest) = Ret bs ->
  let s' := fst (sendCommand fuel (lit "[" ++ rest) index env s) in
  (exists n, n <= fuel /\
     trace s' = trace s ++ Sendall bs :: repeat (Recv 1024) n) /\
  sent (trace s') = sent (trace s) ++ [bs].
Proof.
  intros Hsock Henc s'. subst s'.
  destruct (sendCommand fuel (lit "[" ++ rest) index env s) as [s' r] eqn:Hrun.
  apply sendCommand_inv in Hrun. rewrite Hsock in Hrun.
  change (build_message (lit "[" ++ rest) index) with (Ret (lit "[" ++ rest)) in Hrun.
  cbn match in Hrun. rewrite Henc in Hrun.
  destruct Hrun as (_ & _ & n & Hn & Htrace). cbn [fst].
  split; [exists n; auto |]. rewrite Htrace. apply sent_one_send.
Qed.

Lemma sendCommand_tagged_verbatim_witness :
  let s' := fst (sendCommand 3 (lit "[" ++ lit "3] read 0x1018 1") 7
                   (replying [bytes_of "[3] 0x00000000"; [x0d; x0a]])
                   (connected tcp_client)) in
  (exists n, n <= 3 /\
     trace s' = trace (connected tcp_client) ++
                Sendall (bytes_of "[3] read 0x1018 1") :: repeat (Recv 1024) n) /\
  sent (trace s') = sent (trace (connected tcp_client)) ++
                    [bytes_of "[3] read 0x1018 1"].
Proof.
  apply (sendCommand_tagged_verbatim
           (replying [bytes_of "[3] 0x00000000"; [x0d; x0a]])
           (connected tcp_client) {| family := AF_INET; is_connected := true |}
           3 (lit "3] read 0x1018 1") 7 (bytes_of "[3] read 0x1018 1")).
  - reflexivity.
  - vm_compute. reflexivity.
Defined.

(** C2, as the code has it.  For a connected client and a non-empty
    command whose first character is not ['['], [sendCommand] hands to
    [sendall] exactly the strict UTF-8 bytes of
    ["[" + str(index) + "] " + cmd], with nothing appended: the call
    adds to the log that one send, followed by reads only. *)
Theorem sendCommand_untagged_framed (env : Env) (s : State) (sk : socket)
    (fuel : nat) (cmd : str) (index : Z) (bs : bytes) :
  sock (self s) = Some sk ->
  cmd <> [] ->
  startswith (lit "[") cmd = false ->
  encode (lit "[" ++ str_of_int index ++ lit "] " ++ cmd) = Ret bs ->
  let s' := fst (sendCommand fuel cmd index env s) in
  (exists n, n <= fuel /\
     trace s' = trace s ++ Sendall bs :: repeat (Recv 1024) n) /\
  sent (trace s') = sent (trace s) ++ [bs].
Proof.
  intros Hsock Hne Hstart Henc s'. subst s'.
  destruct (sendCommand fuel cmd index env s) as [s' r] eqn:Hrun.
  apply sendCommand_inv in Hrun. rewrite Hsock in Hrun.
  destruct cmd as [| c0 rest]; [congruence |].
  assert (Hmsg : build_message (c0 :: rest) index =
                 Ret (lit "[" ++ str_of_int index ++ lit "] " ++ c0 :: rest)).
  { unfold build_message, getitem0.
    destruct (str_eqb [c0] (lit "[")) eqn:Heq; [| reflexivity].
    apply str_eqb_eq in Heq. injection Heq as ->.
    cbn in Hstart. discriminate Hstart. }
  rewrite Hmsg, Henc in Hrun.
  destruct Hrun as (_ & _ & n & Hn & Htrace). cbn [fst].
  split; [exists n; auto |]. rewrite Htrace. apply sent_one_send.
Qed.

Lemma sendCommand_untagged_framed_witness :
  let s' := fst (sendCommand 3 (lit "read 0x1018 1") default_index
                   (replying [bytes_of "[1] OK"; [x0d; x0a]])
                   (connected tcp_client)) in
  (exists n, n <= 3 /\
     trace s' = trace (connected tcp_client) ++
                Sendall (bytes_of "[1] read 0x1018 1") :: repeat (Recv 1024) n) /\
  sent (trace s') = sent (trace (connected tcp_client)) ++
                    [bytes_of "[1] read 0x1018 1"].
Proof.
  apply (sendCommand_untagged_framed
           (replying [bytes_of "[1] OK"; [x0d; x0a]])
           (connected tcp_client) {| family := AF_INET; is_connected := true |}
           3 (lit "read 0x1018 1") default_index (bytes_of "[1] read 0x1018 1")).
  - reflexivity.
  - discriminate.
  - reflexivity.
  - vm_compute. reflexivity.
Defined.

(** C2 as stated fails on the empty command, which does not start with
    ['[']: the bytes of ["[1] "] are not sent; nothing is. *)
Lemma sendCommand_empty_not_framed :
  sock (self (connected tcp_client)) <> None /\
  startswith (lit "[") [] = false /\
  encode (lit "[" ++ str_of_int 1 ++ lit "] " ++ []) = Ret (bytes_of "[1] ") /\
  sent (trace (fst (sendCommand 3 [] 1
                      (replying [bytes_of "[1] OK"; [x0d; x0a]])
                      (connected tcp_client)))) = [] /\
  sent (trace (fst (sendCommand 3 [] 1
                      (replying [bytes_of "[1] OK"; [x0d; x0a]])
                      (connected tcp_client)))) <>
  sent (trace (connected tcp_client)) ++ [bytes_of "[1] "].
Proof.
  repeat split; try discriminate; vm_compute; reflexivity.
Qed.

(** ** connect and disconnect *)

(** Every run of [connect], by cases on the instance and on the answers
    of the operating system. *)
Lemma connect_inv (env : Env) (s s' : State) (r : outcome bool) :
  connect env s = (s', r) ->
  match sock (self s) with
  | Some _ => r = Ret true /\ self s' = self s /\ trace s' = trace s
  | None =>
      match sock_type (self s) with
      | None => r = Ret false /\ self s' = self s /\ trace s' = trace s
      | Some TCP =>
          if on_tcp_platform env then
            if announces (self s) then
              trace s' = trace s ++
                [CreateConnection (server_address (self s)) (server_port (self s))] /\
              match os_create_connection env (List.length (trace s))
                      (server_address (self s)) (server_port (self s)) with
              | Ret fam =>
                  r = Ret true /\
                  self s' = set_sock (Some {| family := fam; is_connected := true |})
                                     (self s)
              | Raise _ => r = Ret false /\ self s' = self s
              | Diverge => r = Diverge /\ self s' = self s
              end
            else r = Ret false /\ self s' = self s /\ trace s' = trace s
          else r = Ret false /\ self s' = self s /\ trace s' = trace s
      | Some UNIX =>
          if on_linux env then
            match os_socket env (List.length (trace s)) AF_UNIX with
            | Ret _ =>
                if announces (self s) then
                  trace s' = trace s ++
                    [Socket AF_UNIX; Connect (server_address (self s))] /\
                  match os_connect env (List.length (trace s ++ [Socket AF_UNIX]))
                          (server_address (self s)) with
                  | Ret _ =>
                      r = Ret true /\
                      self s' = set_sock
                        (Some {| family := AF_UNIX; is_connected := true |}) (self s)
                  | Raise _ =>
                      r = Ret false /\
                      self s' = set_sock
                        (Some {| family := AF_UNIX; is_connected := false |}) (self s)
                  | Diverge =>
                      r = Diverge /\
                      self s' = set_sock
                        (Some {| family := AF_UNIX; is_connected := false |}) (self s)
                  end
                else
                  r = Raise UnicodeEncodeError /\
                  self s' = set_sock
                    (Some {| family := AF_UNIX; is_connected := false |}) (self s) /\
                  trace s' = trace s ++ [Socket AF_UNIX]
            | Raise e =>
                r = Raise e /\ self s' = self s /\
                trace s' = trace s ++ [Socket AF_UNIX]
            | Diverge =>
                r = Diverge /\ self s' = self s /\
                trace s' = trace s ++ [Socket AF_UNIX]
            end
          else r = Ret false /\ self s' = self s /\ trace s' = trace s
      end
  end.
Proof.
  intro H. unfold connect in H. unfold bind at 1, gets at 1 in H.
  assert (Hunix : printable (lit "Connecting to: " ++ server_address (self s))
                  = printable (server_address (self s))).
  { rewrite printable_app, printable_lit. reflexivity. }
  assert (Htcp : printable (lit "Connecting to: " ++ server_address (self s) ++ lit ":"
                            ++ str_of_int (server_port (self s)))
                 = printable (server_address (self s))).
  { rewrite !printable_app, !printable_lit, printable_str_of_int.
    destruct (printable (server_address (self s))); reflexivity. }
  unfold announces.
  destruct (sock (self s)) as [sk |] eqn:Hsock.
  - run_monad. destruct (showVerbose (self s)); prints; inversion H; auto.
  - destruct (sock_type (self s)) as [[|] |] eqn:Htype.
    + unfold connectUnixSocket, on_linux in *.
      unfold bind at 1 2 in H. unfold ask at 1, gets at 1 in H.
      destruct (str_eqb (platform_system env) (lit "Linux")).
      * run_monad. cbn -[lit app] in H.
        destruct (os_socket env (List.length (trace s)) AF_UNIX) as [[] | e |].
        -- destruct (showVerbose (self s)); cbn -[lit app] in H |- *;
             [rewrite Hunix in H;
              destruct (printable (server_address (self s))) |];
             cbn -[lit app] in H;
             try (destruct (os_connect env _ (server_address (self s))) as [[] | e |];
                  cbn -[lit app] in H; prints);
             inversion H; subst; cbn; rewrite <- ?app_assoc; auto.
        -- inversion H; subst; cbn; auto.
        -- inversion H; subst; cbn; auto.
      * run_monad. destruct (showVerbose (self s)); prints; inversion H; auto.
    + unfold connectTcpSocket, on_tcp_platform in *.
      unfold bind at 1 2 in H. unfold ask at 1, gets at 1 in H.
      destruct (str_eqb (platform_system env) (lit "Linux")
                || str_eqb (platform_system env) (lit "Windows")).
      * run_monad. cbn -[lit app] in H.
        destruct (showVerbose (self s)); cbn -[lit app] in H |- *;
          [rewrite Htcp in H;
           destruct (printable (server_address (self s))) |];
          cbn -[lit app] in H;
          try (destruct (os_create_connection env _ _ _) as [fam | e |];
               cbn -[lit app] in H);
          prints; inversion H; subst; cbn; auto.
      * run_monad. destruct (showVerbose (self s)); prints; inversion H; auto.
    + run_monad. destruct (showVerbose (self s)); prints; inversion H; auto.
Qed.

(** A [connect] that returns true leaves a socket in the handle; when
    the handle was absent, nothing else of the instance has changed. *)
Lemma connect_true_inv (env : Env) (s s' : State) :
  connect env s = (s', Ret true) ->
  exists sk,
    sock (self s') = Some sk /\
    (sock (self s) = None -> self s' = set_sock (Some sk) (self s)).
Proof.
  intro Hc. apply connect_inv in Hc.
  destruct (sock (self s)) as [sk |] eqn:Hsock.
  - destruct Hc as (_ & Hself & _). exists sk. rewrite Hself.
    split; [exact Hsock | discriminate].
  - destruct (sock_type (self s)) as [[|] |].
    + destruct (on_linux env); [| destruct Hc; discriminate].
      destruct (os_socket env _ AF_UNIX); [| destruct Hc; discriminate ..].
      destruct (announces (self s)); [| destruct Hc; discriminate].
      destruct Hc as [_ Hc].
      destruct (os_connect env _ _); destruct Hc as [Hr Hself];
        try discriminate. rewrite Hself. cbn. eauto.
    + destruct (on_tcp_platform env); [| destruct Hc; discriminate].
      destruct (announces (self s)); [| destruct Hc; discriminate].
      destruct Hc as [_ Hc].
      destruct (os_create_connection env _ _ _); destruct Hc as [Hr Hself];
        try discriminate. rewrite Hself. cbn. eauto.
    + destruct Hc; discriminate.
Qed.

(** ** Receiving the reply *)

(** C3, as the code has it.  The receive loop ends normally only with
    the terminator in the accumulated text; and when the reply
    ["[1] OK\r\n"] arrives cut into chunks at any points, the call
    returns ["[1] OK"]: the sequence tag of the reply is kept. *)
Theorem reply_complete_before_return :
  (forall (fuel : nat) (env : Env) (f : Frame),
     snd (recv_loop fuel env f) = Ret tt ->
     contains CRLF (data (fst (recv_loop fuel env f))) = true) /\
  (forall (env : Env) (s : State) (sk : socket) (fuel : nat) (cmd : str)
          (index : Z) (cs : list bytes),
     sock (self s) = Some sk ->
     send_phase env (List.length (trace s)) cmd index = Ret tt ->
     List.concat cs = reply_ok ->
     delivers env (S (List.length (trace s))) cs = true ->
     List.length cs <= fuel ->
     snd (sendCommand fuel cmd index env s) = Ret (lit "[1] OK")).
Proof.
  split.
  - intros fuel env f Hr.
    destruct (recv_loop fuel env f) as [f' r] eqn:Hrun. cbn [fst snd] in *.
    apply recv_loop_inv in Hrun. tauto.
  - intros env s sk fuel cmd index cs Hsock Hphase Hcat Hdel Hfuel.
    unfold send_phase in Hphase.
    destruct (build_message cmd index) as [msg | |] eqn:Hmsg; try discriminate.
    destruct (encode msg) as [bs | |] eqn:Henc; try discriminate.
    destruct (sendCommand_reply_ascii env s sk fuel cmd index msg bs reply_ok cs)
      as (s' & Hcall & _); auto.
    rewrite Hcall. reflexivity.
Qed.

Lemma reply_complete_before_return_witness :
  contains CRLF
    (data (fst (recv_loop 3 (replying [bytes_of "[1] O"; bytes_of "K" ++ [x0d; x0a]])
                  {| fr_state := reads 1 (connected tcp_client); data := [] |})))
  = true /\
  snd (sendCommand 3 (lit "read 0x1018 1") default_index
         (replying [bytes_of "[1] O"; bytes_of "K" ++ [x0d; x0a]])
         (connected tcp_client)) = Ret (lit "[1] OK").
Proof.
  split.
  - apply (proj1 reply_complete_before_return 3
             (replying [bytes_of "[1] O"; bytes_of "K" ++ [x0d; x0a]])
             {| fr_state := reads 1 (connected tcp_client); data := [] |}).
    reflexivity.
  - apply (proj2 reply_complete_before_return
             (replying [bytes_of "[1] O"; bytes_of "K" ++ [x0d; x0a]])
             (connected tcp_client) a_socket 3 (lit "read 0x1018 1")
             default_index [bytes_of "[1] O"; bytes_of "K" ++ [x0d; x0a]]).
    + reflexivity.
    + reflexivity.
    + reflexivity.
    + reflexivity.
    + simpl. lia.
Defined.

(** C3 as stated fails: for the chunks ["[1] O"] and ["K\r\n"] the call
    returns ["[1] OK"], not ["OK"]. *)
Lemma split_reply_keeps_tag :
  snd (sendCommand 3 (lit "read 0x1018 1") default_index
         (replying [bytes_of "[1] O"; bytes_of "K" ++ [x0d; x0a]])
         (connected tcp_client)) = Ret (lit "[1] OK") /\
  snd (sendCommand 3 (lit "read 0x1018 1") default_index
         (replying [bytes_of "[1] O"; bytes_of "K" ++ [x0d; x0a]])
         (connected tcp_client)) <> Ret (lit "OK").
Proof.
  split; [vm_compute; reflexivity | vm_compute; discriminate].
Qed.

(** C4, as the code has it.  When a terminated reply arrives, the value
    returned is the accumulated text with every null character removed
    and then stripped, so it holds no null character; for the raw reply
    ["[1] OK\x00\x00\r\n"], in any chunking, the call returns
    ["[1] OK"]. *)
Theorem reply_cleaned_of_nulls :
  (forall (env : Env) (s : State) (sk : socket) (fuel : nat) (cmd : str)
          (index : Z) (cs : list bytes) (xs : list str),
     sock (self s) = Some sk ->
     send_phase env (List.length (trace s)) cmd index = Ret tt ->
     map decode cs = map (@Ret str) xs ->
     delivers env (S (List.length (trace s))) cs = true ->
     contains CRLF (List.concat xs) = true ->
     List.length cs <= fuel ->
     exists k,
       1 <= k <= List.length cs /\
       snd (sendCommand fuel cmd index env s) =
         Ret (strip (remove_char NUL (List.concat (firstn k xs)))) /\
       ~ In NUL (strip (remove_char NUL (List.concat (firstn k xs))))) /\
  (forall (env : Env) (s : State) (sk : socket) (fuel : nat) (cmd : str)
          (index : Z) (cs : list bytes),
     sock (self s) = Some sk ->
     send_phase env (List.length (trace s)) cmd index = Ret tt ->
     List.concat cs = reply_ok_padded ->
     delivers env (S (List.length (trace s))) cs = true ->
     List.length cs <= fuel ->
     snd (sendCommand fuel cmd index env s) = Ret (lit "[1] OK")).
Proof.
  split.
  - intros env s sk fuel cmd index cs xs Hsock Hphase Hdec Hdel Hyes Hfuel.
    unfold send_phase in Hphase.
    destruct (build_message cmd index) as [msg | |] eqn:Hmsg; try discriminate.
    destruct (encode msg) as [bs | |] eqn:Henc; try discriminate.
    destruct (sendCommand_reply env s sk fuel cmd index msg bs cs xs)
      as (k & s' & Hk & Hcall & _); auto using decoded_chunks.
    exists k. rewrite Hcall. cbn [snd].
    split; [exact Hk |]. split; [reflexivity | apply cleaned_no_nul].
  - intros env s sk fuel cmd index cs Hsock Hphase Hcat Hdel Hfuel.
    unfold send_phase in Hphase.
    destruct (build_message cmd index) as [msg | |] eqn:Hmsg; try discriminate.
    destruct (encode msg) as [bs | |] eqn:Henc; try discriminate.
    destruct (sendCommand_reply_ascii env s sk fuel cmd index msg bs
                reply_ok_padded cs) as (s' & Hcall & _); auto.
    rewrite Hcall. reflexivity.
Qed.

Lemma reply_cleaned_of_nulls_witness :
  (exists k,
     1 <= k <= 2 /\
     snd (sendCommand 3 (lit "read 0x1018 1") default_index
            (replying [[x00; x5b; x31; x5d]; [x20; x00; x4f; x4b; x0d; x0a; x00]])
            (connected tcp_client)) =
       Ret (strip (remove_char NUL (List.concat
              (firstn k [[0; 91; 49; 93]; [32; 0; 79; 75; 13; 10; 0]]%N)))) /\
     ~ In NUL (strip (remove_char NUL (List.concat
              (firstn k [[0; 91; 49; 93]; [32; 0; 79; 75; 13; 10; 0]]%N))))) /\
  snd (sendCommand 3 (lit "read 0x1018 1") default_index
         (replying [reply_ok_padded]) (connected tcp_client))
  = Ret (lit "[1] OK").
Proof.
  split.
  - apply (proj1 reply_cleaned_of_nulls
             (replying [[x00; x5b; x31; x5d]; [x20; x00; x4f; x4b; x0d; x0a; x00]])
             (connected tcp_client) a_socket 3 (lit "read 0x1018 1") default_index
             [[x00; x5b; x31; x5d]; [x20; x00; x4f; x4b; x0d; x0a; x00]]
             [[0; 91; 49; 93]; [32; 0; 79; 75; 13; 10; 0]]%N).
    + reflexivity.
    + reflexivity.
    + reflexivity.
    + reflexivity.
    + reflexivity.
    + simpl. lia.
  - apply (proj2 reply_cleaned_of_nulls (replying [reply_ok_padded])
             (connected tcp_client) a_socket 3 (lit "read 0x1018 1")
             default_index [reply_ok_padded]).
    + reflexivity.
    + reflexivity.
    + reflexivity.
    + reflexivity.
    + simpl. lia.
Defined.

(** C4 as stated fails on its own example: for the raw reply
    ["[1] OK\x00\x00\r\n"] the call returns ["[1] OK"], not ["OK"]. *)
Lemma padded_reply_keeps_tag :
  snd (sendCommand 3 (lit "read 0x1018 1") default_index
         (replying [reply_ok_padded]) (connected tcp_client))
  = Ret (lit "[1] OK") /\
  snd (sendCommand 3 (lit "read 0x1018 1") default_index
         (replying [reply_ok_padded]) (connected tcp_client))
  <> Ret (lit "OK").
Proof.
  split; [vm_compute; reflexivity | vm_compute; discriminate].
Qed.

(** Every run of [disconnect]. *)
Lemma disconnect_inv (env : Env) (s s' : State) (r : outcome unit) :
  disconnect env s = (s', r) ->
  match sock (self s) with
  | None => r = Ret tt /\ self s' = self s /\ trace s' = trace s
  | Some _ =>
      trace s' = trace s ++ [Close] /\
      match os_close env (List.length (trace s)) with
      | Ret _ => r = Ret tt /\ self s' = set_sock None (self s)
      | Raise e => r = Raise e /\ self s' = self s
      | Diverge => r = Diverge /\ self s' = self s
      end
  end.
Proof.
  intro H. unfold disconnect in H. unfold bind at 1, gets at 1 in H.
  destruct (sock (self s)) as [sk |].
  - run_monad.
    destruct (showVerbose (self s)); prints; cbn in H;
      destruct (os_close env (List.length (trace s))) as [[] | e |];
      cbn in H; inversion H; subst; cbn; auto.
  - run_monad. destruct (showVerbose (self s)); prints; inversion H; auto.
Qed.

(** ** The session across calls *)

(** C8, as the code has it.  [sendCommand] leaves the connection as it
    found it, in every run: the handle, the socket type, the address,
    the port and the verbose flag are unchanged, and nothing is raised.
    When a step raises before the first read the call returns the empty
    string; when a read (or the decoding of what it brought) raises
    after some chunks, the call returns the text of those chunks as
    accumulated.  When the peer closes the connection in an orderly way
    before a terminator has arrived, no step raises (every further read
    returns the empty chunk) and the call does not return. *)
Theorem sendCommand_keeps_session :
  (forall (env : Env) (s : State) (fuel : nat) (cmd : str) (index : Z),
     let s' := fst (sendCommand fuel cmd index env s) in
     sock (self s') = sock (self s) /\
     sock_type (self s') = sock_type (self s) /\
     server_address (self s') = server_address (self s) /\
     server_port (self s') = server_port (self s) /\
     showVerbose (self s') = showVerbose (self s) /\
     is_raise (snd (sendCommand fuel cmd index env s)) = false) /\
  (forall (env : Env) (s : State) (sk : socket) (fuel : nat) (cmd : str)
          (index : Z) (e : exn),
     sock (self s) = Some sk ->
     send_phase env (List.length (trace s)) cmd index = Raise e ->
     snd (sendCommand fuel cmd index env s) = Ret []) /\
  (forall (env : Env) (s : State) (sk : socket) (fuel : nat) (cmd : str)
          (index : Z) (cs : list bytes) (xs : list str) (e : exn),
     sock (self s) = Some sk ->
     send_phase env (List.length (trace s)) cmd index = Ret tt ->
     map decode cs = map (@Ret str) xs ->
     delivers env (S (List.length (trace s))) cs = true ->
     unterminated xs = true ->
     read_text (os_recv env (S (List.length (trace s)) + List.length cs) 1024)
       = Raise e ->
     List.length cs < fuel ->
     snd (sendCommand fuel cmd index env s) = Ret (List.concat xs)) /\
  (forall (env : Env) (s : State) (sk : socket) (fuel : nat) (cmd : str)
          (index : Z) (cs : list bytes) (xs : list str),
     sock (self s) = Some sk ->
     send_phase env (List.length (trace s)) cmd index = Ret tt ->
     map decode cs = map (@Ret str) xs ->
     delivers env (S (List.length (trace s))) cs = true ->
     unterminated xs = true ->
     (forall t, S (List.length (trace s)) + List.length cs <= t ->
                os_recv env t 1024 = Ret []) ->
     snd (sendCommand fuel cmd index env s) = Diverge).
Proof.
  repeat split.
  1-6: destruct (sendCommand fuel cmd index env s) as [s' r] eqn:Hrun;
       apply sendCommand_inv in Hrun; destruct Hrun as (Hself & Hr & _);
       cbn [fst snd]; try rewrite Hself; auto.
  - intros env s sk fuel cmd index e. apply sendCommand_send_fails.
  - intros env s sk fuel cmd index cs xs e Hsock Hphase Hdec Hdel Hno Hfail Hfuel.
    unfold send_phase in Hphase.
    destruct (build_message cmd index) as [msg | |] eqn:Hmsg; try discriminate.
    destruct (encode msg) as [bs | |] eqn:Henc; try discriminate.
    destruct (sendCommand_partial env s sk fuel cmd index msg bs cs xs e)
      as (s' & Hcall & _); auto using decoded_chunks, read_text_fails.
    + intros k Hk. apply unterminated_spec; assumption.
    + rewrite Hcall. reflexivity.
  - intros env s sk fuel cmd index cs xs Hsock Hphase Hdec Hdel Hno Hclosed.
    unfold send_phase in Hphase.
    destruct (build_message cmd index) as [msg | |] eqn:Hmsg; try discriminate.
    destruct (encode msg) as [bs | |] eqn:Henc; try discriminate.
    apply (sendCommand_starved env s sk fuel cmd index msg bs cs xs);
      auto using decoded_chunks.
    intros k Hk. apply unterminated_spec; assumption.
Qed.

Lemma sendCommand_keeps_session_witness :
  snd (sendCommand 3 [0xD800%N] default_index (replying [])
         (connected tcp_client)) = Ret [] /\
  snd (sendCommand 3 (lit "read 0x1018 1") default_index reset_midway
         (connected tcp_client)) = Ret (lit "[1] O") /\
  snd (sendCommand 3 (lit "read 0x1018 1") default_index
         (replying [bytes_of "[1] O"]) (connected tcp_client)) = Diverge.
Proof.
  split; [| split].
  - apply (proj1 (proj2 sendCommand_keeps_session) (replying [])
             (connected tcp_client) a_socket 3 [0xD800%N] default_index
             UnicodeEncodeError).
    + reflexivity.
    + reflexivity.
  - apply (proj1 (proj2 (proj2 sendCommand_keeps_session)) reset_midway
             (connected tcp_client) a_socket 3 (lit "read 0x1018 1")
             default_index [bytes_of "[1] O"] [lit "[1] O"] (OSError 104)).
    + reflexivity.
    + reflexivity.
    + reflexivity.
    + reflexivity.
    + reflexivity.
    + reflexivity.
    + simpl. lia.
  - apply (proj2 (proj2 (proj2 sendCommand_keeps_session))
             (replying [bytes_of "[1] O"])
             (connected tcp_client) a_socket 3 (lit "read 0x1018 1")
             default_index [bytes_of "[1] O"] [lit "[1] O"]).
    + reflexivity.
    + reflexivity.
    + reflexivity.
    + reflexivity.
    + reflexivity.
    + intros t Ht. simpl in Ht.
      destruct t as [| [| t]]; [lia | lia |]. simpl. destruct t; reflexivity.
Defined.

(** C8 as stated fails when the peer closes the connection in the middle
    of a reply without a reset: after the chunk ["[1] O"] every read
    returns the empty chunk, nothing is raised, and the call does not
    return the accumulated text: it does not return at all, whatever the
    number of iterations allowed. *)
Lemma orderly_close_never_returns :
  sock (self (connected tcp_client)) <> None /\
  (forall t, 2 <= t -> os_recv (replying [bytes_of "[1] O"]) t 1024 = Ret []) /\
  (forall fuel,
     snd (sendCommand fuel (lit "read 0x1018 1") default_index
            (replying [bytes_of "[1] O"]) (connected tcp_client)) = Diverge) /\
  (forall fuel,
     snd (sendCommand fuel (lit "read 0x1018 1") default_index
            (replying [bytes_of "[1] O"]) (connected tcp_client))
     <> Ret (lit "[1] O")).
Proof.
  assert (Hclosed : forall t, 2 <= t ->
            os_recv (replying [bytes_of "[1] O"]) t 1024 = Ret []).
  { intros t Ht. destruct t as [| [| t]]; [lia | lia |]. simpl.
    destruct t; reflexivity. }
  assert (Hrun : forall fuel,
            snd (sendCommand fuel (lit "read 0x1018 1") default_index
                   (replying [bytes_of "[1] O"]) (connected tcp_client)) = Diverge).
  { intro fuel.
    apply (sendCommand_starved (replying [bytes_of "[1] O"]) (connected tcp_client)
             a_socket fuel (lit "read 0x1018 1") default_index
             (lit "[1] read 0x1018 1") (bytes_of "[1] read 0x1018 1")
             [bytes_of "[1] O"] [lit "[1] O"]); try reflexivity.
    - repeat constructor.
    - intros k Hk. apply unterminated_spec; [reflexivity | exact Hk].
    - exact Hclosed. }
  split; [discriminate |]. split; [exact Hclosed |]. split; [exact Hrun |].
  intro fuel. rewrite Hrun. discriminate.
Qed.

(** C7.  When a call of [connect] returns true, a second call right
    after it returns true as well, and opens nothing: it adds no socket
    call to the log and leaves the instance as the first call left
    it. *)
Theorem connect_twice (env : Env) (s : State) :
  snd (connect env s) = Ret true ->
  let s1 := fst (connect env s) in
  snd (connect env s1) = Ret true /\
  trace (fst (connect env s1)) = trace s1 /\
  self (fst (connect env s1)) = self s1.
Proof.
  intros Hfirst s1. subst s1.
  destruct (connect env s) as [s1 r1] eqn:Hc1. cbn [fst snd] in *. subst r1.
  assert (Hopen : exists sk, sock (self s1) = Some sk).
  { destruct (connect_true_inv env s s1 Hc1) as (sk & Hsk & _). eauto. }
  destruct Hopen as [sk Hsk].
  destruct (connect env s1) as [s2 r2] eqn:Hc2. cbn [fst snd].
  apply connect_inv in Hc2. rewrite Hsk in Hc2. tauto.
Qed.

Lemma connect_twice_witness :
  let s1 := fst (connect (replying []) (fresh tcp_client)) in
  snd (connect (replying []) s1) = Ret true /\
  trace (fst (connect (replying []) s1)) = trace s1 /\
  self (fst (connect (replying []) s1)) = self s1.
Proof.
  apply (connect_twice (replying []) (fresh tcp_client)).
  reflexivity.
Defined.

(** ** The handle after connect *)

(** On the TCP path a failed [connect] leaves the handle absent. *)
Lemma connect_tcp_failure_keeps_absent (env : Env) (s : State) :
  sock (self s) = None ->
  sock_type (self s) = Some TCP ->
  snd (connect env s) = Ret false ->
  sock (self (fst (connect env s))) = None.
Proof.
  intros Hsock Htype Hr.
  destruct (connect env s) as [s' r] eqn:Hc. cbn [fst snd] in *. subst r.
  apply connect_inv in Hc. rewrite Hsock, Htype in Hc.
  destruct (on_tcp_platform env);
    [destruct (announces (self s)) |].
  - destruct Hc as [_ Hc].
    destruct (os_create_connection env _ _ _); destruct Hc as [Hr Hself];
      try discriminate. rewrite Hself. exact Hsock.
  - destruct Hc as (_ & Hself & _). rewrite Hself. exact Hsock.
  - destruct Hc as (_ & Hself & _). rewrite Hself. exact Hsock.
Qed.

(** On the Unix-domain path the socket object is stored in the handle
    before the connection attempt, and stays there when the attempt
    fails. *)
Lemma connect_unix_failure_keeps_socket (env : Env) (s : State) (e : exn) :
  sock (self s) = None ->
  sock_type (self s) = Some UNIX ->
  on_linux env = true ->
  os_socket env (List.length (trace s)) AF_UNIX = Ret tt ->
  announces (self s) = true ->
  os_connect env (S (List.length (trace s))) (server_address (self s)) = Raise e ->
  snd (connect env s) = Ret false /\
  sock (self (fst (connect env s))) =
    Some {| family := AF_UNIX; is_connected := false |}.
Proof.
  intros Hsock Htype Hlinux Hcreate Hann Hconn.
  destruct (connect env s) as [s' r] eqn:Hc. cbn [fst snd].
  apply connect_inv in Hc.
  rewrite Hsock, Htype, Hlinux, Hcreate, Hann in Hc. destruct Hc as [_ Hc].
  rewrite length_app, Nat.add_1_r in Hc. cbn [List.length] in Hc.
  rewrite Hconn in Hc. destruct Hc as [Hr Hself].
  rewrite Hself. auto.
Qed.

(** Everywhere else the handle stays absent or connected: a fresh
    instance has no handle, a successful [connect] leaves a connected
    one, [disconnect] and [sendCommand] keep the property. *)
Lemma init_handle_ok (t : option SocketType) (a : str) (p : Z) (v : bool) :
  handle_ok (init t a p v) = true.
Proof. reflexivity. Qed.

Lemma connect_success_handle_ok (env : Env) (s : State) :
  handle_ok (self s) = true ->
  snd (connect env s) = Ret true ->
  handle_ok (self (fst (connect env s))) = true.
Proof.
  intros Hok Hr.
  destruct (connect env s) as [s' r] eqn:Hc. cbn [fst snd] in *. subst r.
  apply connect_inv in Hc.
  destruct (sock (self s)) as [sk |] eqn:Hsock.
  - destruct Hc as (_ & Hself & _). rewrite Hself. exact Hok.
  - destruct (sock_type (self s)) as [[|] |].
    + destruct (on_linux env); [| destruct Hc; discriminate].
      destruct (os_socket env _ AF_UNIX); [| destruct Hc; discriminate ..].
      destruct (announces (self s)); [| destruct Hc; discriminate].
      destruct Hc as [_ Hc].
      destruct (os_connect env _ _); destruct Hc as [Hr Hself];
        try discriminate. rewrite Hself. reflexivity.
    + destruct (on_tcp_platform env); [| destruct Hc; discriminate].
      destruct (announces (self s)); [| destruct Hc; discriminate].
      destruct Hc as [_ Hc].
      destruct (os_create_connection env _ _ _); destruct Hc as [Hr Hself];
        try discriminate. rewrite Hself. reflexivity.
    + destruct Hc; discriminate.
Qed.

Lemma disconnect_handle_ok (env : Env) (s : State) :
  handle_ok (self s) = true ->
  handle_ok (self (fst (disconnect env s))) = true.
Proof.
  intro Hok. destruct (disconnect env s) as [s' r] eqn:Hd. cbn [fst].
  apply disconnect_inv in Hd.
  destruct (sock (self s)) as [sk |] eqn:Hsock.
  - destruct Hd as [_ Hd].
    destruct (os_close env _); destruct Hd as [_ Hself]; rewrite Hself;
      auto.
  - destruct Hd as (_ & Hself & _). rewrite Hself. exact Hok.
Qed.

Lemma sendCommand_handle_ok (env : Env) (s : State) (fuel : nat) (cmd : str)
    (index : Z) :
  handle_ok (self s) = true ->
  handle_ok (self (fst (sendCommand fuel cmd index env s))) = true.
Proof.
  intro Hok. destruct (sendCommand fuel cmd index env s) as [s' r] eqn:Hrun.
  apply sendCommand_inv in Hrun. destruct Hrun as [Hself _].
  cbn [fst]. rewrite Hself. exact Hok.
Qed.

(** C1.  With a Unix-domain client on Linux and nothing listening at the
    address, [connect] returns false and yet leaves in the handle the
    socket object it created, unconnected: the handle is neither absent
    nor a connected socket, and a second [connect] returns true without
    making any socket call. *)
Theorem unix_connect_failure_leaves_handle :
  let s1 := fst (connect no_daemon (fresh unix_client)) in
  snd (connect no_daemon (fresh unix_client)) = Ret false /\
  sock (self s1) = Some {| family := AF_UNIX; is_connected := false |} /\
  handle_ok (self s1) = false /\
  snd (connect no_daemon s1) = Ret true /\
  trace (fst (connect no_daemon s1)) = trace s1.
Proof.
  cbv zeta.
  destruct (connect_unix_failure_keeps_socket no_daemon (fresh unix_client)
              (OSError 2) eq_refl eq_refl eq_refl eq_refl eq_refl eq_refl)
    as [Hr Hsock].
  split; [exact Hr |]. split; [exact Hsock |].
  split; [unfold handle_ok; rewrite Hsock; reflexivity |].
  destruct (connect no_daemon (fst (connect no_daemon (fresh unix_client))))
    as [s2 r2] eqn:Hc2.
  apply connect_inv in Hc2. rewrite Hsock in Hc2. cbn [fst snd]. tauto.
Qed.

(** ** Exceptions at the boundary *)





(** * Further properties of the client *)

(** ** connect and disconnect together *)

Lemma set_sock_absent (c : CANopenClient) (v : option socket) :
  sock c = None -> set_sock None (set_sock v c) = c.
Proof. destruct c; cbn; intros ->; reflexivity. Qed.

(** X1.  With an absent handle and a socket type that is not supported on
    the platform (Unix-domain anywhere but on Linux, TCP anywhere but on
    Linux and Windows, or a type that is no member of [SocketType]),
    [connect] answers [False] without any socket call and leaves the
    instance alone. *)
Theorem connect_refuses_unsupported (env : Env) (s : State) :
  sock (self s) = None ->
  dispatchable env (self s) = false ->
  snd (connect env s) = Ret false /\
  trace (fst (connect env s)) = trace s /\
  self (fst (connect env s)) = self s.
Proof.
  intros Hsock Hdisp. destruct (connect env s) as [s' r] eqn:Hc. cbn [fst snd].
  apply connect_inv in Hc. rewrite Hsock in Hc. unfold dispatchable in Hdisp.
  destruct (sock_type (self s)) as [[|] |]; try rewrite Hdisp in Hc; tauto.
Qed.

Lemma connect_refuses_unsupported_witness :
  snd (connect (replying []) (fresh (init None (lit "/tmp/s") 0 false))) = Ret false /\
  trace (fst (connect (replying []) (fresh (init None (lit "/tmp/s") 0 false)))) =
    trace (fresh (init None (lit "/tmp/s") 0 false)) /\
  self (fst (connect (replying []) (fresh (init None (lit "/tmp/s") 0 false)))) =
    self (fresh (init None (lit "/tmp/s") 0 false)).
Proof.
  apply (connect_refuses_unsupported (replying [])
           (fresh (init None (lit "/tmp/s") 0 false))); reflexivity.
Defined.

(** When the type is supported and the handle absent, [connect] makes
    its first socket call at once, [socket.socket(AF_UNIX, ...)], on the
    Unix-domain path.  On the TCP path the call is
    [create_connection((address, port))], which a verbose client makes
    only after it has printed the address: when that fails, [connect]
    answers [False] without any socket call. *)
Theorem connect_dials (env : Env) (s : State) :
  sock (self s) = None ->
  dispatchable env (self s) = true ->
  match sock_type (self s) with
  | Some TCP =>
      if announces (self s)
      then trace (fst (connect env s)) =
             trace s ++
             [CreateConnection (server_address (self s)) (server_port (self s))]
      else snd (connect env s) = Ret false /\
           trace (fst (connect env s)) = trace s
  | _ =>
      exists evs,
        trace (fst (connect env s)) = trace s ++ Socket AF_UNIX :: evs
  end.
Proof.
  intros Hsock Hdisp. destruct (connect env s) as [s' r] eqn:Hc. cbn [fst snd].
  apply connect_inv in Hc. rewrite Hsock in Hc. unfold dispatchable in Hdisp.
  destruct (sock_type (self s)) as [[|] |]; try discriminate; rewrite Hdisp in Hc.
  - destruct (os_socket env (List.length (trace s)) AF_UNIX).
    + destruct (announces (self s)).
      * destruct Hc as [-> _]. eauto.
      * destruct Hc as (_ & _ & ->). eauto.
    + destruct Hc as (_ & _ & ->). eauto.
    + destruct Hc as (_ & _ & ->). eauto.
  - destruct (announces (self s)); tauto.
Qed.

Lemma connect_dials_witness :
  trace (fst (connect no_daemon (fresh tcp_client))) =
    trace (fresh tcp_client) ++
    [CreateConnection (server_address (self (fresh tcp_client)))
                      (server_port (self (fresh tcp_client)))].
Proof.
  apply (connect_dials no_daemon (fresh tcp_client)); reflexivity.
Defined.

(** X2.  A [connect] that succeeds from an absent handle, followed by a
    [disconnect] whose [close] succeeds, gives back the instance as it
    was; the only socket call of the [disconnect] is that [close]. *)
Theorem connect_disconnect_round_trip (env : Env) (s : State) :
  sock (self s) = None ->
  snd (connect env s) = Ret true ->
  is_ret (os_close env (List.length (trace (fst (connect env s))))) = true ->
  let s1 := fst (connect env s) in
  snd (disconnect env s1) = Ret tt /\
  self (fst (disconnect env s1)) = self s /\
  trace (fst (disconnect env s1)) = trace s1 ++ [Close].
Proof.
  intros Hsock Hr Hclose s1. subst s1.
  destruct (connect env s) as [s1 r1] eqn:Hc. cbn [fst snd] in *. subst r1.
  assert (Hself : exists sk, self s1 = set_sock (Some sk) (self s)).
  { destruct (connect_true_inv env s s1 Hc) as (sk & _ & Hself). eauto. }
  destruct Hself as [sk Hself].
  destruct (disconnect env s1) as [s2 r2] eqn:Hd. cbn [fst snd].
  apply disconnect_inv in Hd. rewrite Hself in Hd. cbn [sock set_sock] in Hd.
  destruct Hd as [Htr Hd].
  destruct (os_close env (List.length (trace s1))); try discriminate.
  destruct Hd as [-> Hs2]. rewrite Hs2, set_sock_absent by exact Hsock. auto.
Qed.

Lemma connect_disconnect_round_trip_witness :
  let s1 := fst (connect (replying []) (fresh tcp_client)) in
  snd (disconnect (replying []) s1) = Ret tt /\
  self (fst (disconnect (replying []) s1)) = self (fresh tcp_client) /\
  trace (fst (disconnect (replying []) s1)) = trace s1 ++ [Close].
Proof.
  apply (connect_disconnect_round_trip (replying []) (fresh tcp_client));
    reflexivity.
Defined.

(** X3.  After a [disconnect] that returned, a second [disconnect] is a
    no-op: the handle is absent, no socket call is made (in particular
    no second [close]) and the instance is unchanged. *)
Theorem disconnect_twice (env : Env) (s : State) :
  snd (disconnect env s) = Ret tt ->
  let s1 := fst (disconnect env s) in
  sock (self s1) = None /\
  snd (disconnect env s1) = Ret tt /\
  trace (fst (disconnect env s1)) = trace s1 /\
  self (fst (disconnect env s1)) = self s1.
Proof.
  intros Hr s1. subst s1.
  destruct (disconnect env s) as [s1 r1] eqn:Hd1. cbn [fst snd] in *. subst r1.
  assert (Hnone : sock (self s1) = None).
  { apply disconnect_inv in Hd1.
    destruct (sock (self s)) eqn:Hsock.
    - destruct Hd1 as [_ Hd1].
      destruct (os_close env _); destruct Hd1 as [Hr Hself]; try discriminate.
      rewrite Hself. reflexivity.
    - destruct Hd1 as (_ & Hself & _). rewrite Hself. exact Hsock. }
  split; [exact Hnone |].
  destruct (disconnect env s1) as [s2 r2] eqn:Hd2. cbn [fst snd].
  apply disconnect_inv in Hd2. rewrite Hnone in Hd2. tauto.
Qed.

Lemma disconnect_twice_witness :
  let s1 := fst (disconnect (replying []) (connected tcp_client)) in
  sock (self s1) = None /\
  snd (disconnect (replying []) s1) = Ret tt /\
  trace (fst (disconnect (replying []) s1)) = trace s1 /\
  self (fst (disconnect (replying []) s1)) = self s1.
Proof.
  apply (disconnect_twice (replying []) (connected tcp_client)). reflexivity.
Defined.

(** X4.  When [close] raises, [disconnect] raises the same exception and the
    handle is not cleared: the instance still holds the socket, so the
    next [connect] answers "already opened" (it returns true, makes no
    socket call and leaves the instance alone) and the next
    [disconnect] calls [close] again. *)
Theorem disconnect_failure_keeps_handle (env : Env) (s : State) (sk : socket)
    (e : exn) :
  sock (self s) = Some sk ->
  os_close env (List.length (trace s)) = Raise e ->
  let s1 := fst (disconnect env s) in
  snd (disconnect env s) = Raise e /\
  self s1 = self s /\
  trace s1 = trace s ++ [Close] /\
  snd (connect env s1) = Ret true /\
  trace (fst (connect env s1)) = trace s1 /\
  self (fst (connect env s1)) = self s1 /\
  trace (fst (disconnect env s1)) = trace s1 ++ [Close].
Proof.
  intros Hsock Hclose s1. subst s1.
  destruct (disconnect env s) as [s1 r1] eqn:Hd. cbn [fst snd].
  apply disconnect_inv in Hd. rewrite Hsock, Hclose in Hd.
  destruct Hd as (Htr & -> & Hself).
  assert (Hc : snd (connect env s1) = Ret true /\
               trace (fst (connect env s1)) = trace s1 /\
               self (fst (connect env s1)) = self s1).
  { destruct (connect env s1) as [s2 r2] eqn:Hc. cbn [fst snd].
    apply connect_inv in Hc. rewrite Hself, Hsock in Hc.
    rewrite Hself. tauto. }
  destruct Hc as (Hc1 & Hc2 & Hc3).
  repeat split; auto.
  destruct (disconnect env s1) as [s2 r2] eqn:Hd2. cbn [fst].
  apply disconnect_inv in Hd2. rewrite Hself, Hsock in Hd2. tauto.
Qed.

Lemma disconnect_failure_keeps_handle_witness :
  let s1 := fst (disconnect close_fails (connected tcp_client)) in
  snd (disconnect close_fails (connected tcp_client)) = Raise (OSError 5) /\
  self s1 = self (connected tcp_client) /\
  trace s1 = trace (connected tcp_client) ++ [Close] /\
  snd (connect close_fails s1) = Ret true /\
  trace (fst (connect close_fails s1)) = trace s1 /\
  self (fst (connect close_fails s1)) = self s1 /\
  trace (fst (disconnect close_fails s1)) = trace s1 ++ [Close].
Proof.
  apply (disconnect_failure_keeps_handle close_fails (connected tcp_client)
           a_socket (OSError 5)); reflexivity.
Defined.

(** After a [disconnect] that returned, the handle is absent and the
    rest of the instance is as it was. *)
Lemma disconnect_returned (env : Env) (s s1 : State) :
  disconnect env s = (s1, Ret tt) ->
  sock (self s1) = None /\
  sock_type (self s1) = sock_type (self s) /\
  server_address (self s1) = server_address (self s) /\
  server_port (self s1) = server_port (self s) /\
  showVerbose (self s1) = showVerbose (self s).
Proof.
  intro Hd. apply disconnect_inv in Hd. destruct (sock (self s)) eqn:Hsock.
  - destruct Hd as [_ Hd].
    destruct (os_close env _); destruct Hd as [Hr ->]; try discriminate.
    cbn. auto.
  - destruct Hd as (_ & -> & _). auto.
Qed.

(** X5.  The same instance can be connected again after a [disconnect]
    that returned: the handle being absent, the next [connect] dials
    anew, with [socket.socket(AF_UNIX, ...)] for a Unix-domain client and
    with [create_connection((address, port))] for a TCP client.  The
    one exception is a verbose TCP client whose address cannot be
    printed: its [connect] fails on the "Connecting to:" line, answers
    [False] and makes no socket call. *)
Theorem reconnect_after_disconnect (env : Env) (s : State) :
  snd (disconnect env s) = Ret tt ->
  dispatchable env (self s) = true ->
  let s1 := fst (disconnect env s) in
  match sock_type (self s) with
  | Some TCP =>
      if announces (self s)
      then trace (fst (connect env s1)) =
             trace s1 ++
             [CreateConnection (server_address (self s)) (server_port (self s))]
      else snd (connect env s1) = Ret false /\
           trace (fst (connect env s1)) = trace s1
  | _ =>
      exists evs,
        trace (fst (connect env s1)) = trace s1 ++ Socket AF_UNIX :: evs
  end.
Proof.
  intros Hr Hdisp s1. subst s1.
  destruct (disconnect env s) as [s1 r1] eqn:Hd. cbn [fst snd] in *. subst r1.
  destruct (disconnect_returned env s s1 Hd) as (Hnone & Ht & Ha & Hp & Hv).
  assert (Hann : announces (self s1) = announces (self s)).
  { unfold announces. rewrite Ha, Hv. reflexivity. }
  pose proof (connect_dials env s1 Hnone) as Hdial.
  rewrite Ht, Ha, Hp, Hann in Hdial. apply Hdial.
  unfold dispatchable in *. rewrite Ht. exact Hdisp.
Qed.

Lemma reconnect_after_disconnect_witness :
  let s1 := fst (disconnect (replying []) (connected tcp_client)) in
  trace (fst (connect (replying []) s1)) =
    trace s1 ++
    [CreateConnection (server_address (self (connected tcp_client)))
                      (server_port (self (connected tcp_client)))].
Proof.
  apply (reconnect_after_disconnect (replying []) (connected tcp_client));
    reflexivity.
Defined.

(** ** What is printed *)

(** A client that is not verbose prints nothing in [connect] and
    [disconnect], whatever happens. *)
Lemma connect_quiet (env : Env) (s : State) :
  showVerbose (self s) = false ->
  stdout (fst (connect env s)) = stdout s.
Proof.
  intro Hv. unfold connect. unfold bind at 1, gets at 1.
  destruct (sock (self s)); [run_monad; rewrite Hv; reflexivity |].
  destruct (sock_type (self s)) as [[|] |].
  - unfold connectUnixSocket. unfold bind at 1 2, ask at 1, gets at 1.
    destruct (str_eqb (platform_system env) (lit "Linux")).
    + run_monad. cbn. rewrite Hv.
      destruct (os_socket env (List.length (trace s)) AF_UNIX) as [[] | |];
        cbn; try reflexivity.
      match goal with
      | |- context [os_connect ?a ?b ?c] =>
          destruct (os_connect a b c) as [[] | |]; reflexivity
      end.
    + run_monad. rewrite Hv. reflexivity.
  - unfold connectTcpSocket. unfold bind at 1 2, ask at 1, gets at 1.
    destruct (str_eqb (platform_system env) (lit "Linux")
              || str_eqb (platform_system env) (lit "Windows")).
    + run_monad. cbn. rewrite Hv. cbn.
      match goal with
      | |- context [os_create_connection ?a ?b ?c ?d] =>
          destruct (os_create_connection a b c d); reflexivity
      end.
    + run_monad. rewrite Hv. reflexivity.
  - run_monad. rewrite Hv. reflexivity.
Qed.

Lemma disconnect_quiet (env : Env) (s : State) :
  showVerbose (self s) = false ->
  stdout (fst (disconnect env s)) = stdout s.
Proof.
  intro Hv. unfold disconnect. unfold bind at 1, gets at 1. cbn.
  destruct (sock (self s)); run_monad; rewrite Hv; cbn; [| reflexivity].
  match goal with
  | |- context [os_close ?a ?b] =>
      destruct (os_close a b) as [[] | |]; reflexivity
  end.
Qed.

(** The receive loop prints nothing. *)
Lemma recv_loop_stdout (fuel : nat) (env : Env) (f : Frame) :
  stdout (fr_state (fst (recv_loop fuel env f))) = stdout (fr_state f).
Proof.
  destruct (recv_loop fuel env f) as [f' r] eqn:Hrun.
  apply recv_loop_inv in Hrun. cbn [fst]. tauto.
Qed.

Lemma sendCommand_try_stdout (fuel : nat) (cmd : str) (index : Z) (env : Env) :
  forall f f' r,
    showVerbose (self (fr_state f)) = false ->
    sendCommand_try fuel cmd index env f = (f', r) ->
    (r = Ret tt /\ stdout (fr_state f') = stdout (fr_state f) ++ [data f']) \/
    (is_ret r = false /\ stdout (fr_state f') = stdout (fr_state f)).
Proof.
  intros f f' r Hv H. unfold sendCommand_try in H.
  unfold bind at 1 2 in H. unfold lift at 1, gets at 1, eval at 1 in H. cbn in H.
  destruct (build_message cmd index) as [msg | e |];
    [| inversion H; subst; cbn; auto ..].
  unfold bind at 1 2 in H. unfold eval at 1 in H.
  rewrite Hv in H. cbn in H.
  destruct (encode msg) as [bs | e |]; [| inversion H; subst; cbn; auto ..].
  unfold bind at 1 in H. cbn in H.
  destruct (os_sendall env (List.length (trace (fr_state f))) bs) as [[] | e |];
    [| inversion H; subst; cbn; auto ..].
  match type of H with
  | context [recv_loop _ _ ?g] =>
      pose proof (recv_loop_stdout fuel env g) as Hout;
      destruct (recv_loop fuel env g) as [f2 r2]
  end.
  cbn in Hout.
  destruct r2 as [[] | e |]; [| inversion H; subst; cbn; auto ..].
  unfold print in H.
  destruct (printable (strip (remove_char NUL (data f2))));
    inversion H; subst; cbn; rewrite Hout; auto.
Qed.

(** In a [sendCommand] of a client that is not verbose, the only line
    ever printed is the reply that the call returns: a call that fails
    at any step, or is made unconnected, prints nothing. *)
Lemma sendCommand_quiet (env : Env) (s : State) (fuel : nat) (cmd : str)
    (index : Z) :
  showVerbose (self s) = false ->
  stdout (fst (sendCommand fuel cmd index env s)) = stdout s \/
  exists reply,
    snd (sendCommand fuel cmd index env s) = Ret reply /\
    stdout (fst (sendCommand fuel cmd index env s)) = stdout s ++ [reply].
Proof.
  intro Hv.
  destruct (sendCommand fuel cmd index env s) as [s' r] eqn:H. cbn [fst snd].
  unfold sendCommand, locals in H.
  unfold bind at 1 in H. unfold lift at 1, gets at 1 in H. cbn in H.
  destruct (sock (self s)) as [sk |].
  - unfold bind at 1, try_except in H.
    destruct (sendCommand_try fuel cmd index env {| fr_state := s; data := [] |})
      as [f1 r1] eqn:Htry.
    apply sendCommand_try_stdout in Htry; [| exact Hv]. cbn in Htry.
    destruct Htry as [[-> Hout] | [Hr Hout]].
    + run_monad. cbn in H. inversion H; subst. right. eauto.
    + destruct r1 as [[] | e |]; [discriminate Hr | |].
      * run_monad. rewrite Hv in H. cbn in H. inversion H; subst. left. exact Hout.
      * inversion H; subst. left. exact Hout.
  - run_monad. rewrite Hv in H. cbn in H. inversion H; subst. left. reflexivity.
Qed.

(** X6.  A client that is not verbose prints nothing but replies:
    [connect] and [disconnect] print nothing, whether they succeed or
    not, and [sendCommand] either prints nothing or returns a reply and
    prints that reply, as one line, after what was printed before. *)
Theorem quiet_client_prints_replies_only (env : Env) (s : State) :
  showVerbose (self s) = false ->
  stdout (fst (connect env s)) = stdout s /\
  stdout (fst (disconnect env s)) = stdout s /\
  (forall (fuel : nat) (cmd : str) (index : Z),
     stdout (fst (sendCommand fuel cmd index env s)) = stdout s \/
     exists reply,
       snd (sendCommand fuel cmd index env s) = Ret reply /\
       stdout (fst (sendCommand fuel cmd index env s)) = stdout s ++ [reply]).
Proof.
  intro Hv. split; [apply connect_quiet; exact Hv |].
  split; [apply disconnect_quiet; exact Hv |].
  intros fuel cmd index. apply sendCommand_quiet. exact Hv.
Qed.

Lemma quiet_client_prints_replies_only_witness :
  stdout (fst (connect no_daemon (fresh unix_client))) = stdout (fresh unix_client) /\
  stdout (fst (disconnect no_daemon (fresh unix_client))) = stdout (fresh unix_client) /\
  (forall (fuel : nat) (cmd : str) (index : Z),
     stdout (fst (sendCommand fuel cmd index no_daemon (fresh unix_client))) =
       stdout (fresh unix_client) \/
     exists reply,
       snd (sendCommand fuel cmd index no_daemon (fresh unix_client)) = Ret reply /\
       stdout (fst (sendCommand fuel cmd index no_daemon (fresh unix_client))) =
         stdout (fresh unix_client) ++ [reply]).
Proof.
  apply (quiet_client_prints_replies_only no_daemon (fresh unix_client)).
  reflexivity.
Defined.

(** ** The shape of the cleaned reply *)

Lemma lstrip_split (s : str) :
  exists pre, s = pre ++ lstrip s /\ all_space pre = true.
Proof.
  induction s as [| c s IH]; cbn.
  - exists []. auto.
  - destruct (isspace c) eqn:Hc.
    + destruct IH as (pre & Hs & Hpre). exists (c :: pre).
      split; [cbn; rewrite <- Hs; reflexivity |].
      unfold all_space in *. cbn. rewrite Hc, Hpre. reflexivity.
    + exists []. auto.
Qed.

Lemma lstrip_head (s : str) :
  match lstrip s with
  | [] => True
  | c :: _ => isspace c = false
  end.
Proof.
  induction s as [| c s IH]; cbn; [exact I |].
  destruct (isspace c) eqn:Hc; [exact IH | exact Hc].
Qed.

Lemma all_space_rev (s : str) : all_space (rev s) = all_space s.
Proof.
  unfold all_space. induction s as [| c s IH]; [reflexivity |].
  cbn. rewrite forallb_app, IH. cbn. rewrite andb_true_r. apply andb_comm.
Qed.

(** [strip] removes whitespace at both ends and nothing else. *)
Lemma strip_split (s : str) :
  exists pre post,
    s = pre ++ strip s ++ post /\
    all_space pre = true /\ all_space post = true /\
    trimmed (strip s) = true.
Proof.
  unfold strip, rstrip.
  destruct (lstrip_split s) as (pre & Hs & Hpre).
  pose proof (lstrip_head s) as Hhead.
  destruct (lstrip_split (rev (lstrip s))) as (post' & Hrev & Hpost).
  pose proof (lstrip_head (rev (lstrip s))) as Hlast.
  set (l := lstrip s) in *. set (m := lstrip (rev l)) in *.
  clearbody m. clearbody l.
  assert (Hl : l = rev m ++ rev post').
  { rewrite <- rev_app_distr, <- Hrev, rev_involutive. reflexivity. }
  exists pre, (rev post'). split; [rewrite <- Hl; exact Hs |].
  split; [exact Hpre |]. split; [rewrite all_space_rev; exact Hpost |].
  unfold trimmed. destruct (rev m) as [| c r] eqn:Hm; [reflexivity |].
  rewrite Hl in Hhead. cbn in Hhead. rewrite Hhead. cbn [negb andb].
  destruct m as [| d m']; [cbn in Hm; discriminate Hm |].
  cbn in Hlast. rewrite <- Hm. cbn [rev]. rewrite last_last, Hlast. reflexivity.
Qed.

(** X7.  When a terminated reply arrives, the text returned is the
    accumulated text without its null characters, less the whitespace
    at its two ends: it neither begins nor ends with whitespace, and
    nothing else is removed (the interior, a sequence tag included, is
    kept as received). *)
Theorem reply_trimmed (env : Env) (s : State) (sk : socket) (fuel : nat)
    (cmd : str) (index : Z) (cs : list bytes) (xs : list str) :
  sock (self s) = Some sk ->
  send_phase env (List.length (trace s)) cmd index = Ret tt ->
  map decode cs = map (@Ret str) xs ->
  delivers env (S (List.length (trace s))) cs = true ->
  contains CRLF (List.concat xs) = true ->
  List.length cs <= fuel ->
  exists k reply pre post,
    1 <= k <= List.length cs /\
    snd (sendCommand fuel cmd index env s) = Ret reply /\
    remove_char NUL (List.concat (firstn k xs)) = pre ++ reply ++ post /\
    all_space pre = true /\ all_space post = true /\
    trimmed reply = true.
Proof.
  intros Hsock Hphase Hdec Hdel Hyes Hfuel.
  unfold send_phase in Hphase.
  destruct (build_message cmd index) as [msg | |] eqn:Hmsg; try discriminate.
  destruct (encode msg) as [bs | |] eqn:Henc; try discriminate.
  destruct (sendCommand_reply env s sk fuel cmd index msg bs cs xs)
    as (k & s' & Hk & Hcall & _); auto using decoded_chunks.
  destruct (strip_split (remove_char NUL (List.concat (firstn k xs))))
    as (pre & post & Hsplit & Hpre & Hpost & Htrim).
  exists k, (strip (remove_char NUL (List.concat (firstn k xs)))), pre, post.
  rewrite Hcall. cbn [snd]. auto 6.
Qed.

Lemma reply_trimmed_witness :
  exists k reply pre post,
    1 <= k <= 1 /\
    snd (sendCommand 3 (lit "read 0x1018 1") default_index
           (replying [bytes_of "   [1] ERROR: 101  " ++ [x0d; x0a]])
           (connected tcp_client)) = Ret reply /\
    remove_char NUL (List.concat
      (firstn k [lit "   [1] ERROR: 101  " ++ CRLF])) = pre ++ reply ++ post /\
    all_space pre = true /\ all_space post = true /\
    trimmed reply = true.
Proof.
  apply (reply_trimmed (replying [bytes_of "   [1] ERROR: 101  " ++ [x0d; x0a]])
           (connected tcp_client) a_socket 3 (lit "read 0x1018 1") default_index
           [bytes_of "   [1] ERROR: 101  " ++ [x0d; x0a]]
           [lit "   [1] ERROR: 101  " ++ CRLF]).
  - reflexivity.
  - reflexivity.
  - reflexivity.
  - reflexivity.
  - reflexivity.
  - simpl. lia.
Defined.

(** X8.  [sendCommand] sends once and reads no further than the first chunk
    that brings the terminator: whatever that chunk holds after the
    terminator is part of the reply, and chunks that the peer has sent
    after it are left unread for the next call. *)
Theorem reads_stop_at_terminator (env : Env) (s : State) (sk : socket)
    (fuel : nat) (cmd : str) (index : Z) (msg : str) (bs : bytes)
    (cs : list bytes) (xs : list str) :
  sock (self s) = Some sk ->
  build_message cmd index = Ret msg ->
  encode msg = Ret bs ->
  os_sendall env (List.length (trace s)) bs = Ret tt ->
  map decode cs = map (@Ret str) xs ->
  delivers env (S (List.length (trace s))) cs = true ->
  contains CRLF (List.concat xs) = true ->
  List.length cs <= fuel ->
  exists k,
    1 <= k <= List.length cs /\
    trace (fst (sendCommand fuel cmd index env s)) =
      trace s ++ Sendall bs :: repeat (Recv 1024) k /\
    snd (sendCommand fuel cmd index env s) =
      Ret (strip (remove_char NUL (List.concat (firstn k xs)))) /\
    contains CRLF (List.concat (firstn k xs)) = true /\
    (forall j, j < k -> contains CRLF (List.concat (firstn j xs)) = false).
Proof.
  intros Hsock Hmsg Henc Hsend Hdec Hdel Hyes Hfuel.
  destruct (sendCommand_reply env s sk fuel cmd index msg bs cs xs)
    as (k & s' & Hk & Hcall & _ & Htr & Hend & Hbefore);
    auto using decoded_chunks.
  exists k. rewrite Hcall. cbn [fst snd]. auto.
Qed.

Lemma reads_stop_at_terminator_witness :
  exists k,
    1 <= k <= List.length queued_chunks /\
    trace (fst (sendCommand 5 (lit "r") default_index (replying queued_chunks)
                  (connected tcp_client))) =
      trace (connected tcp_client) ++
      Sendall (bytes_of "[1] r") :: repeat (Recv 1024) k /\
    snd (sendCommand 5 (lit "r") default_index (replying queued_chunks)
           (connected tcp_client)) =
      Ret (strip (remove_char NUL (List.concat (firstn k queued_texts)))) /\
    contains CRLF (List.concat (firstn k queued_texts)) = true /\
    (forall j, j < k ->
       contains CRLF (List.concat (firstn j queued_texts)) = false).
Proof.
  apply (reads_stop_at_terminator (replying queued_chunks)
           (connected tcp_client) a_socket 5 (lit "r") default_index
           (lit "[1] r") (bytes_of "[1] r") queued_chunks queued_texts).
  - reflexivity.
  - reflexivity.
  - reflexivity.
  - reflexivity.
  - reflexivity.
  - reflexivity.
  - reflexivity.
  - simpl. lia.
Defined.

(** ** UTF-8 on the wire *)

(** The decoder, one character at a time. *)
Lemma decode_cons (b0 : byte) (r0 : bytes) :
  decode (b0 :: r0) =
  let continue (c : N) (rest : outcome str) : outcome str :=
    match rest with
    | Ret r => Ret (c :: r)
    | other => other
    end in
  let n0 := Byte.to_N b0 in
  if (n0 <? 0x80)%N then continue n0 (decode r0)
  else if (n0 <? 0xC0)%N then Raise UnicodeDecodeError
  else if (n0 <? 0xE0)%N then
    match r0 with
    | b1 :: r1 =>
        let n1 := Byte.to_N b1 in
        let c := ((n0 - 0xC0) * 64 + (n1 - 0x80))%N in
        if is_cont n1 && scalar_ok 0x80 c
        then continue c (decode r1)
        else Raise UnicodeDecodeError
    | _ => Raise UnicodeDecodeError
    end
  else if (n0 <? 0xF0)%N then
    match r0 with
    | b1 :: b2 :: r2 =>
        let n1 := Byte.to_N b1 in
        let n2 := Byte.to_N b2 in
        let c := ((n0 - 0xE0) * 4096 + (n1 - 0x80) * 64 + (n2 - 0x80))%N in
        if is_cont n1 && is_cont n2 && scalar_ok 0x800 c
        then continue c (decode r2)
        else Raise UnicodeDecodeError
    | _ => Raise UnicodeDecodeError
    end
  else if (n0 <? 0xF8)%N then
    match r0 with
    | b1 :: b2 :: b3 :: r3 =>
        let n1 := Byte.to_N b1 in
        let n2 := Byte.to_N b2 in
        let n3 := Byte.to_N b3 in
        let c := ((n0 - 0xF0) * 262144 + (n1 - 0x80) * 4096
                  + (n2 - 0x80) * 64 + (n3 - 0x80))%N in
        if is_cont n1 && is_cont n2 && is_cont n3 && scalar_ok 0x10000 c
        then continue c (decode r3)
        else Raise UnicodeDecodeError
    | _ => Raise UnicodeDecodeError
    end
  else Raise UnicodeDecodeError.
Proof. reflexivity. Qed.

Lemma is_cont_lead (b : N) : (0xC0 <= b)%N -> is_cont b = false.
Proof.
  intro H. unfold is_cont. apply andb_false_iff. right.
  apply N.leb_gt. lia.
Qed.

(** A first byte followed by fewer bytes than it announces does not
    decode. *)
Lemma decode_short (h : byte) (t : bytes) :
  (0xC0 <= Byte.to_N h)%N ->
  List.length t < awaited (Byte.to_N h) ->
  decode (h :: t) = Raise UnicodeDecodeError.
Proof.
  intros Hlead Hlen. rewrite decode_cons. cbv zeta. unfold awaited in Hlen.
  destruct (Byte.to_N h <? 128)%N eqn:H1; [apply N.ltb_lt in H1; lia |].
  destruct (Byte.to_N h <? 192)%N; [reflexivity |].
  destruct (Byte.to_N h <? 224)%N.
  { destruct t; [reflexivity | cbn in Hlen; lia]. }
  destruct (Byte.to_N h <? 240)%N.
  { destruct t as [| b1 [| b2 r]]; try reflexivity. cbn in Hlen; lia. }
  destruct (Byte.to_N h <? 248)%N; [| reflexivity].
  destruct t as [| b1 [| b2 [| b3 r]]]; try reflexivity. cbn in Hlen; lia.
Qed.

(** Bytes that end with a sequence which does not decode, and whose
    first byte is not a continuation byte, do not decode either:
    whatever stands before cannot absorb that first byte. *)
Lemma decode_cut_len (h : byte) (t : bytes) (n : nat) :
  is_cont (Byte.to_N h) = false ->
  decode (h :: t) = Raise UnicodeDecodeError ->
  forall a : bytes,
    List.length a <= n ->
    decode (a ++ h :: t) = Raise UnicodeDecodeError.
Proof.
  intros Hnc Hbase.
  induction n as [| n IH]; intros a Hlen.
  - destruct a; [exact Hbase | cbn in Hlen; lia].
  - destruct a as [| b0 r0]; [exact Hbase |].
    cbn [app]. rewrite decode_cons. cbv zeta.
    destruct (Byte.to_N b0 <? 128)%N.
    { rewrite (IH r0) by (cbn in Hlen; lia). reflexivity. }
    destruct (Byte.to_N b0 <? 192)%N; [reflexivity |].
    destruct (Byte.to_N b0 <? 224)%N.
    { destruct r0 as [| b1 r1]; cbn [app].
      - rewrite Hnc. reflexivity.
      - destruct (is_cont (Byte.to_N b1) && _); [| reflexivity].
        rewrite (IH r1) by (cbn in Hlen; lia). reflexivity. }
    destruct (Byte.to_N b0 <? 240)%N.
    { destruct r0 as [| b1 [| b2 r2]]; cbn [app].
      - destruct t; [reflexivity |]. rewrite Hnc. reflexivity.
      - rewrite Hnc, andb_false_r. reflexivity.
      - destruct (is_cont (Byte.to_N b1) && _ && _); [| reflexivity].
        rewrite (IH r2) by (cbn in Hlen; lia). reflexivity. }
    destruct (Byte.to_N b0 <? 248)%N; [| reflexivity].
    destruct r0 as [| b1 [| b2 [| b3 r3]]]; cbn [app].
    + destruct t as [| c2 [| c3 t]]; try reflexivity. rewrite Hnc. reflexivity.
    + destruct t as [| c3 t]; [reflexivity |].
      rewrite Hnc, andb_false_r. reflexivity.
    + rewrite Hnc, andb_false_r. reflexivity.
    + destruct (is_cont (Byte.to_N b1) && _ && _ && _); [| reflexivity].
      rewrite (IH r3) by (cbn in Hlen; lia). reflexivity.
Qed.

Lemma to_N_byte_of_N (n : N) : (n < 256)%N -> Byte.to_N (byte_of_N n) = n.
Proof.
  intro H. unfold byte_of_N. destruct (Byte.of_N n) as [b |] eqn:Hb.
  - apply Byte.to_of_N. exact Hb.
  - apply Byte.of_N_None_iff in Hb. lia.
Qed.

Lemma some_inj {A : Type} (x y : A) : Some x = Some y -> x = y.
Proof. congruence. Qed.

Lemma decode_encode_char (c : N) (bs rest : bytes) :
  encode_char c = Some bs ->
  decode (bs ++ rest) =
  match decode rest with
  | Ret r => Ret (c :: r)
  | Raise e => Raise e
  | Diverge => Diverge
  end.
Proof.
  unfold encode_char. intro H.
  destruct (N.ltb_spec c 0x80) as [H1 | H1].
  { apply some_inj in H. rewrite <- H. clear H.
    change ((?a :: ?l) ++ rest) with (a :: l ++ rest).
    rewrite decode_cons. cbv zeta. cbn [app].
    rewrite to_N_byte_of_N by lia.
    destruct (N.ltb_spec c 128); [destruct (decode rest); reflexivity | lia]. }
  destruct (N.ltb_spec c 0x800) as [H2 | H2].
  { apply some_inj in H. rewrite <- H. clear H.
    change ((?a :: ?l) ++ rest) with (a :: l ++ rest).
    rewrite decode_cons. cbv zeta. cbn [app].
    pose proof (N.div_mod c 64 ltac:(lia)) as Hdm.
    pose proof (N.mod_lt c 64 ltac:(lia)) as Hm.
    hide (c mod 64)%N. hide (c / 64)%N.
    rewrite !to_N_byte_of_N by lia.
    unfold is_cont, scalar_ok.
    replace ((192 + x0 - 192) * 64 + (128 + x - 128))%N with c by lia.
    ltb_cases; try lia; destruct (decode rest); reflexivity. }
  destruct ((0xD800 <=? c) && (c <=? 0xDFFF))%N eqn:Hsur; [discriminate H |].
  assert (Hns : (c < 0xD800 \/ 0xDFFF < c)%N).
  { apply andb_false_iff in Hsur. destruct Hsur as [Hs | Hs];
      apply N.leb_gt in Hs; lia. }
  destruct (N.ltb_spec c 0x10000) as [H3 | H3].
  { apply some_inj in H. rewrite <- H. clear H.
    change ((?a :: ?l) ++ rest) with (a :: l ++ rest).
    rewrite decode_cons. cbv zeta. cbn [app].
    pose proof (N.div_mod c 64 ltac:(lia)) as Hdm.
    pose proof (N.mod_lt c 64 ltac:(lia)) as Hm.
    pose proof (N.div_mod (c / 64) 64 ltac:(lia)) as Hdm2.
    pose proof (N.mod_lt (c / 64) 64 ltac:(lia)) as Hm2.
    assert (Hdd : (c / 4096 = c / 64 / 64)%N)
      by (rewrite N.Div0.div_div; reflexivity).
    rewrite Hdd.
    hide (c mod 64)%N. hide ((c / 64) mod 64)%N.
    hide (c / 64 / 64)%N. hide (c / 64)%N.
    rewrite !to_N_byte_of_N by lia.
    unfold is_cont, scalar_ok.
    replace ((224 + x1 - 224) * 4096 + (128 + x0 - 128) * 64 + (128 + x - 128))%N
      with c by lia.
    rewrite Hsur.
    ltb_cases; try lia; destruct (decode rest); reflexivity. }
  destruct (N.leb_spec c 0x10FFFF) as [H4 | H4]; [| discriminate H].
  apply some_inj in H. rewrite <- H. clear H.
  change ((?a :: ?l) ++ rest) with (a :: l ++ rest).
  rewrite decode_cons. cbv zeta. cbn [app].
  pose proof (N.div_mod c 64 ltac:(lia)) as Hdm.
  pose proof (N.mod_lt c 64 ltac:(lia)) as Hm.
  pose proof (N.div_mod (c / 64) 64 ltac:(lia)) as Hdm2.
  pose proof (N.mod_lt (c / 64) 64 ltac:(lia)) as Hm2.
  pose proof (N.div_mod (c / 64 / 64) 64 ltac:(lia)) as Hdm3.
  pose proof (N.mod_lt (c / 64 / 64) 64 ltac:(lia)) as Hm3.
  assert (Hdd : (c / 4096 = c / 64 / 64)%N)
    by (rewrite N.Div0.div_div; reflexivity).
  assert (Hddd : (c / 262144 = c / 64 / 64 / 64)%N)
    by (rewrite !N.Div0.div_div; reflexivity).
  rewrite Hdd, Hddd.
  hide (c mod 64)%N. hide ((c / 64) mod 64)%N. hide ((c / 64 / 64) mod 64)%N.
  hide (c / 64 / 64 / 64)%N. hide (c / 64 / 64)%N. hide (c / 64)%N.
  rewrite !to_N_byte_of_N by lia.
  unfold is_cont, scalar_ok.
  replace ((240 + x2 - 240) * 262144 + (128 + x1 - 128) * 4096
           + (128 + x0 - 128) * 64 + (128 + x - 128))%N
    with c by lia.
  rewrite Hsur.
  ltb_cases; try lia; destruct (decode rest); reflexivity.
Qed.


Lemma decode_encode_app (s : str) (bs rest : bytes) :
  encode s = Ret bs ->
  decode (bs ++ rest) =
  match decode rest with
  | Ret r => Ret (s ++ r)
  | Raise e => Raise e
  | Diverge => Diverge
  end.
Proof.
  revert bs. induction s as [| c s IH]; intros bs H.
  - cbn in H. apply (f_equal (fun o => match o with Ret x => x | _ => [] end)) in H.
    subst bs. cbn [app]. destruct (decode rest); reflexivity.
  - cbn [encode] in H.
    destruct (encode_char c) as [cb |] eqn:Hc; [| discriminate H].
    destruct (encode s) as [r | |]; try discriminate H.
    apply (f_equal (fun o => match o with Ret x => x | _ => [] end)) in H.
    subst bs. rewrite <- app_assoc.
    rewrite (decode_encode_char c cb (r ++ rest) Hc), (IH r eq_refl).
    destruct (decode rest); reflexivity.
Qed.

(** Decoding what [encode] produced gives the text back. *)
Lemma decode_encode (s : str) (bs : bytes) :
  encode s = Ret bs -> decode bs = Ret s.
Proof.
  intro H. rewrite <- (app_nil_r bs), (decode_encode_app s bs [] H).
  cbn. rewrite app_nil_r. reflexivity.
Qed.

(** The encoding of a character of more than one byte begins with a
    first byte (not a continuation byte) that announces the bytes which
    follow it. *)
Lemma encode_char_shape (c : N) (h : byte) (t : bytes) :
  encode_char c = Some (h :: t) ->
  t <> [] ->
  (0xC0 <= Byte.to_N h)%N /\ List.length t = awaited (Byte.to_N h).
Proof.
  unfold encode_char. intros H Ht.
  pose proof (N.div_mod c 64 ltac:(lia)) as Hdm.
  pose proof (N.mod_lt c 64 ltac:(lia)) as Hm.
  pose proof (N.div_mod (c / 64) 64 ltac:(lia)) as Hdm2.
  pose proof (N.mod_lt (c / 64) 64 ltac:(lia)) as Hm2.
  pose proof (N.div_mod (c / 64 / 64) 64 ltac:(lia)) as Hdm3.
  pose proof (N.mod_lt (c / 64 / 64) 64 ltac:(lia)) as Hm3.
  assert (Hdd : (c / 4096 = c / 64 / 64)%N)
    by (rewrite N.Div0.div_div; reflexivity).
  assert (Hddd : (c / 262144 = c / 64 / 64 / 64)%N)
    by (rewrite !N.Div0.div_div; reflexivity).
  rewrite Hdd, Hddd in H.
  hide (c mod 64)%N. hide ((c / 64) mod 64)%N. hide ((c / 64 / 64) mod 64)%N.
  hide (c / 64 / 64 / 64)%N. hide (c / 64 / 64)%N. hide (c / 64)%N.
  destruct (N.ltb_spec c 0x80) as [H1 | H1].
  { apply some_inj in H. inversion H; subst. congruence. }
  destruct (N.ltb_spec c 0x800) as [H2 | H2].
  { remember (0xC0 + x4)%N as n0 eqn:Hn0.
    apply some_inj in H. inversion H; subst h t.
    rewrite to_N_byte_of_N by lia. unfold awaited.
    split; [lia |]. ltb_cases; try lia; reflexivity. }
  destruct ((0xD800 <=? c) && (c <=? 0xDFFF))%N; [discriminate H |].
  destruct (N.ltb_spec c 0x10000) as [H3 | H3].
  { remember (0xE0 + x3)%N as n0 eqn:Hn0.
    apply some_inj in H. inversion H; subst h t.
    rewrite to_N_byte_of_N by lia. unfold awaited.
    split; [lia |]. ltb_cases; try lia; reflexivity. }
  destruct (N.leb_spec c 0x10FFFF) as [H4 | H4]; [| discriminate H].
  remember (0xF0 + x2)%N as n0 eqn:Hn0.
  apply some_inj in H. inversion H; subst h t.
  rewrite to_N_byte_of_N by lia. unfold awaited.
  split; [lia |]. ltb_cases; try lia; reflexivity.
Qed.

(** A buffer that ends inside a character, after one or more but not
    all of its bytes, does not decode, whatever stands before. *)
Lemma decode_cut (a p q : bytes) (c : N) :
  encode_char c = Some (p ++ q) ->
  0 < List.length p ->
  0 < List.length q ->
  decode (a ++ p) = Raise UnicodeDecodeError.
Proof.
  intros Henc Hp Hq. destruct p as [| h t]; [cbn in Hp; lia |].
  cbn [app] in Henc.
  destruct (encode_char_shape c h (t ++ q) Henc) as [Hlead Hlen].
  { destruct t; [destruct q; [cbn in Hq; lia | discriminate] | discriminate]. }
  apply (decode_cut_len h t (List.length a)); [| | lia].
  - apply is_cont_lead. exact Hlead.
  - apply decode_short; [exact Hlead |].
    rewrite <- Hlen, length_app. lia.
Qed.

Lemma encoded_chunks (ts : list str) (cs : list bytes) :
  map encode ts = map (@Ret bytes) cs ->
  Forall2 (fun c x => decode c = Ret x) cs ts.
Proof.
  revert cs. induction ts as [| t ts IH]; destruct cs as [| c cs]; cbn;
    intro H; try discriminate; constructor.
  - apply decode_encode. congruence.
  - apply IH. congruence.
Qed.

(** X9.  A reply that the peer has encoded in UTF-8 and that arrives cut on
    character boundaries (every chunk is the encoding of a piece of the
    text) is recovered whatever its characters are: the call reads up to
    the first piece that brings the terminator, no further, and returns
    the cleaned text of the pieces read. *)
Theorem reply_cut_between_characters (env : Env) (s : State) (sk : socket)
    (fuel : nat) (cmd : str) (index : Z) (ts : list str) (cs : list bytes) :
  sock (self s) = Some sk ->
  send_phase env (List.length (trace s)) cmd index = Ret tt ->
  map encode ts = map (@Ret bytes) cs ->
  delivers env (S (List.length (trace s))) cs = true ->
  contains CRLF (List.concat ts) = true ->
  List.length cs <= fuel ->
  exists k,
    1 <= k <= List.length cs /\
    snd (sendCommand fuel cmd index env s) =
      Ret (strip (remove_char NUL (List.concat (firstn k ts)))) /\
    contains CRLF (List.concat (firstn k ts)) = true /\
    (forall j, j < k -> contains CRLF (List.concat (firstn j ts)) = false) /\
    exists bs,
      trace (fst (sendCommand fuel cmd index env s)) =
        trace s ++ Sendall bs :: repeat (Recv 1024) k.
Proof.
  intros Hsock Hphase Henc Hdel Hyes Hfuel.
  unfold send_phase in Hphase.
  destruct (build_message cmd index) as [msg | |] eqn:Hmsg; try discriminate.
  destruct (encode msg) as [bs | |] eqn:Hbs; try discriminate.
  destruct (sendCommand_reply env s sk fuel cmd index msg bs cs ts)
    as (k & s' & Hk & Hcall & _ & Htr & Hend & Hbefore);
    auto using encoded_chunks.
  exists k. rewrite Hcall. cbn [fst snd]. eauto 10.
Qed.

Lemma reply_cut_between_characters_witness :
  exists k,
    1 <= k <= 2 /\
    snd (sendCommand 3 (lit "r") default_index
           (replying [[x5b; x31; x5d; x20; xc3; xa9];
                      [xe2; x82; xac; x0d; x0a]])
           (connected tcp_client)) =
      Ret (strip (remove_char NUL (List.concat
             (firstn k [[91; 49; 93; 32; 233]; [8364; 13; 10]]%N)))) /\
    contains CRLF (List.concat
      (firstn k [[91; 49; 93; 32; 233]; [8364; 13; 10]]%N)) = true /\
    (forall j, j < k ->
       contains CRLF (List.concat
         (firstn j [[91; 49; 93; 32; 233]; [8364; 13; 10]]%N)) = false) /\
    exists bs,
      trace (fst (sendCommand 3 (lit "r") default_index
                    (replying [[x5b; x31; x5d; x20; xc3; xa9];
                               [xe2; x82; xac; x0d; x0a]])
                    (connected tcp_client))) =
        trace (connected tcp_client) ++ Sendall bs :: repeat (Recv 1024) k.
Proof.
  apply (reply_cut_between_characters
           (replying [[x5b; x31; x5d; x20; xc3; xa9];
                      [xe2; x82; xac; x0d; x0a]])
           (connected tcp_client) a_socket 3 (lit "r") default_index
           [[91; 49; 93; 32; 233]; [8364; 13; 10]]%N
           [[x5b; x31; x5d; x20; xc3; xa9]; [xe2; x82; xac; x0d; x0a]]).
  - reflexivity.
  - reflexivity.
  - reflexivity.
  - reflexivity.
  - reflexivity.
  - simpl. lia.
Defined.

(** X10.  A read that ends inside a character, after one or more but not
    all of the bytes of its encoding, cannot be decoded on its own,
    whatever stands before in the chunk: the call gives up there,
    without another read, and returns the text of the chunks before
    it. *)
Theorem reply_cut_inside_character (env : Env) (s : State) (sk : socket)
    (fuel : nat) (cmd : str) (index : Z) (cs : list bytes) (xs : list str)
    (a : bytes) (c : N) (p q : bytes) :
  sock (self s) = Some sk ->
  send_phase env (List.length (trace s)) cmd index = Ret tt ->
  map decode cs = map (@Ret str) xs ->
  delivers env (S (List.length (trace s))) cs = true ->
  unterminated xs = true ->
  encode_char c = Some (p ++ q) ->
  0 < List.length p ->
  0 < List.length q ->
  os_recv env (S (List.length (trace s)) + List.length cs) 1024 = Ret (a ++ p) ->
  List.length cs < fuel ->
  decode (a ++ p) = Raise UnicodeDecodeError /\
  snd (sendCommand fuel cmd index env s) = Ret (List.concat xs) /\
  exists bs,
    trace (fst (sendCommand fuel cmd index env s)) =
      trace s ++ Sendall bs :: repeat (Recv 1024) (S (List.length cs)).
Proof.
  intros Hsock Hphase Hdec Hdel Hno Henc Hp Hq Hrecv Hfuel.
  pose proof (decode_cut a p q c Henc Hp Hq) as Hcut.
  split; [exact Hcut |].
  unfold send_phase in Hphase.
  destruct (build_message cmd index) as [msg | |] eqn:Hmsg; try discriminate.
  destruct (encode msg) as [bs | |] eqn:Hbs; try discriminate.
  destruct (sendCommand_partial env s sk fuel cmd index msg bs cs xs
              UnicodeDecodeError) as (s' & Hcall & _ & Htr);
    auto using decoded_chunks.
  - intros k Hk. apply unterminated_spec; assumption.
  - right. exists (a ++ p). split; [exact Hrecv | exact Hcut].
  - rewrite Hcall. cbn [fst snd]. eauto.
Qed.

Lemma reply_cut_inside_character_witness :
  decode ([x4f] ++ [xe2; x82]) = Raise UnicodeDecodeError /\
  snd (sendCommand 3 (lit "r") default_index
         (replying [[x5b; x31; x5d; x20]; [x4f; xe2; x82]; [xac; x0d; x0a]])
         (connected tcp_client)) = Ret (List.concat [[91; 49; 93; 32]%N]) /\
  exists bs,
    trace (fst (sendCommand 3 (lit "r") default_index
                  (replying [[x5b; x31; x5d; x20]; [x4f; xe2; x82];
                             [xac; x0d; x0a]])
                  (connected tcp_client))) =
      trace (connected tcp_client) ++
      Sendall bs :: repeat (Recv 1024) (S (List.length [[x5b; x31; x5d; x20]])).
Proof.
  apply (reply_cut_inside_character
           (replying [[x5b; x31; x5d; x20]; [x4f; xe2; x82]; [xac; x0d; x0a]])
           (connected tcp_client) a_socket 3 (lit "r") default_index
           [[x5b; x31; x5d; x20]] [[91; 49; 93; 32]%N]
           [x4f] 8364%N [xe2; x82] [xac]).
  - reflexivity.
  - reflexivity.
  - reflexivity.
  - reflexivity.
  - reflexivity.
  - reflexivity.
  - simpl. lia.
  - simpl. lia.
  - reflexivity.
  - simpl. lia.
Defined.

(** * The command-line program *)

(** ** Parsing *)

Lemma spell_fold (a acc : str) :
  fold_left (fun acc cmd => acc ++ [cmd] ++ lit " ") a acc =
  acc ++ List.concat (map (fun c => [c; 32%N]) a).
Proof.
  revert acc. induction a as [| c a IH]; intro acc; cbn [fold_left map List.concat].
  - rewrite app_nil_r. reflexivity.
  - rewrite IH, <- app_assoc. reflexivity.
Qed.

Lemma padded_spaced_out (a : str) :
  a <> [] ->
  List.concat (map (fun c => [c; 32%N]) a) = Cli.spaced_out a ++ [32%N].
Proof.
  induction a as [| c a IH]; intro Hne; [congruence |].
  destruct a as [| c' a']; [reflexivity |].
  change (List.concat (map (fun c => [c; 32%N]) (c :: c' :: a')))
    with (c :: 32%N :: List.concat (map (fun c => [c; 32%N]) (c' :: a'))).
  rewrite IH by discriminate. reflexivity.
Qed.

Lemma last_spaced_out (a : str) (d : N) :
  last (Cli.spaced_out a) d = last a d.
Proof.
  induction a as [| c a IH]; [reflexivity |].
  destruct a as [| c' a']; [reflexivity |].
  change (Cli.spaced_out (c :: c' :: a'))
    with (c :: 32%N :: Cli.spaced_out (c' :: a')).
  change (last (c :: c' :: a') d) with (last (c' :: a') d).
  rewrite <- IH.
  destruct (Cli.spaced_out (c' :: a')) eqn:Hs; [| reflexivity].
  destruct a'; discriminate Hs.
Qed.

Lemma lstrip_id (s : str) :
  match s with [] => True | c :: _ => isspace c = false end ->
  lstrip s = s.
Proof. destruct s as [| c s]; cbn; [auto | intros ->; reflexivity]. Qed.

Lemma length_spaced_out (a : str) :
  List.length (Cli.spaced_out a) = 2 * List.length a - 1.
Proof.
  induction a as [| c a IH]; [reflexivity |].
  destruct a as [| c' a']; [reflexivity |].
  change (Cli.spaced_out (c :: c' :: a'))
    with (c :: 32%N :: Cli.spaced_out (c' :: a')).
  cbn [List.length] in *. rewrite IH. lia.
Qed.

(** What becomes of the argument in [self.command]. *)
Lemma spell_spaced_out (a : str) :
  a <> [] -> trimmed a = true -> Cli.spell a = Cli.spaced_out a.
Proof.
  intros Hne Htrim. unfold Cli.spell. rewrite spell_fold. cbn [app].
  rewrite padded_spaced_out by exact Hne.
  destruct a as [| c a]; [congruence |].
  unfold trimmed in Htrim. apply andb_prop in Htrim.
  destruct Htrim as [Hfirst Hlast].
  apply negb_true_iff in Hfirst. apply negb_true_iff in Hlast.
  unfold strip, rstrip.
  assert (Hhead : exists r, Cli.spaced_out (c :: a) = c :: r).
  { destruct a; cbn; eauto. }
  destruct Hhead as [r Hr].
  rewrite (lstrip_id (Cli.spaced_out (c :: a) ++ [32%N]))
    by (rewrite Hr; exact Hfirst).
  rewrite rev_app_distr. cbn [rev app lstrip].
  change (isspace 32) with true. cbv iota.
  rewrite lstrip_id; [apply rev_involutive |].
  rewrite Hr. cbn [rev].
  destruct (rev r ++ [c]) as [| x l] eqn:Hrev; [exact I |].
  assert (Hx : x = last (c :: r) c).
  { rewrite <- (rev_involutive (c :: r)). cbn [rev]. rewrite Hrev.
    cbn [rev]. rewrite last_last. reflexivity. }
  rewrite Hx, <- Hr, last_spaced_out. exact Hlast.
Qed.

(** X11.  The positional argument is one string, and the loop that was meant
    to join several words runs over its characters: an argument that
    neither begins nor ends with whitespace is stored with a space put
    between every two of its characters (so with [2n - 1] characters for
    [n]). *)
Theorem parse_spells_command (prog : Cli.Program) (ns : Namespace.ns)
    (self : Cli.AppArgs) (a : str) :
  Namespace.command ns = Some a ->
  a <> [] ->
  trimmed a = true ->
  Cli.command (fst (fst (Cli.parse prog ns self))) = Some (Cli.spaced_out a) /\
  List.length (Cli.spaced_out a) = 2 * List.length a - 1.
Proof.
  intros Hcmd Hne Htrim. split; [| apply length_spaced_out].
  unfold Cli.parse. rewrite Hcmd.
  destruct a as [| c r]; [congruence |].
  rewrite (spell_spaced_out (c :: r) Hne Htrim).
  destruct (Cli.truthy (Namespace.f ns));
    destruct (Namespace.s ns) as [[| ? ?] |];
    destruct (Cli.truthy (Namespace.t ns));
    destruct (Namespace.p ns) as [port |];
    try destruct (port =? 0)%Z;
    destruct (Namespace.d ns) as [[|] |];
    destruct (Namespace.verbose ns);
    destruct (Namespace.version ns);
    destruct (Namespace.listErrors ns); reflexivity.
Qed.

Lemma parse_spells_command_witness :
  Cli.command (fst (fst (Cli.parse Cli.cocomm
     {| Namespace.command := Some (lit "read 0x1018 1"); Namespace.f := None;
        Namespace.s := None; Namespace.t := None; Namespace.p := None;
        Namespace.d := Some false; Namespace.version := false;
        Namespace.verbose := false; Namespace.listErrors := false |}
     (Cli.init_args Cli.cocomm)))) = Some (Cli.spaced_out (lit "read 0x1018 1")) /\
  List.length (Cli.spaced_out (lit "read 0x1018 1")) =
    2 * List.length (lit "read 0x1018 1") - 1.
Proof.
  apply (parse_spells_command Cli.cocomm
     {| Namespace.command := Some (lit "read 0x1018 1"); Namespace.f := None;
        Namespace.s := None; Namespace.t := None; Namespace.p := None;
        Namespace.d := Some false; Namespace.version := false;
        Namespace.verbose := false; Namespace.listErrors := false |}
     (Cli.init_args Cli.cocomm) (lit "read 0x1018 1")).
  - reflexivity.
  - discriminate.
  - reflexivity.
Defined.

(** X12.  [appargs.py] declares no [-d], yet [parse] reads [args.d]: with the
    options of [cli.py] every call of [parse] ends in [AttributeError],
    so [main] never creates a client: it makes no socket call, prints
    nothing and ends with that exception, whatever the command line,
    the console and the network. *)
Theorem cli_main_never_starts (version : str) (table : list (Z * str))
    (ns : Namespace.ns) (console : Cli.Console) (env : Env) (fuel : nat) :
  Cli.from_parser (Cli.cli version table) ns = true ->
  snd (Cli.parse (Cli.cli version table) ns
         (Cli.init_args (Cli.cli version table)))
    = Some (Cli.AttributeError "d") /\
  Cli.main fuel (Cli.cli version table) ns console env =
    {| Cli.log := []; Cli.output := [];
       Cli.exit := Cli.Uncaught (Cli.AttributeError "d") |}.
Proof.
  intro Hp. unfold Cli.from_parser in Hp. cbn [Cli.declares_d Cli.cli] in Hp.
  destruct (Namespace.d ns) as [flag |] eqn:Hd; [discriminate Hp |].
  unfold Cli.main, Cli.parse. rewrite Hd. split; reflexivity.
Qed.

Lemma cli_main_never_starts_witness :
  snd (Cli.parse (Cli.cli (lit "1.2.01") Cli.cocomm_errorLst) (Cli.no_options false)
         (Cli.init_args (Cli.cli (lit "1.2.01") Cli.cocomm_errorLst)))
    = Some (Cli.AttributeError "d") /\
  Cli.main 3 (Cli.cli (lit "1.2.01") Cli.cocomm_errorLst) (Cli.no_options false)
    (Cli.typing [lit "exit"]) (daemon reply_ok) =
    {| Cli.log := []; Cli.output := [];
       Cli.exit := Cli.Uncaught (Cli.AttributeError "d") |}.
Proof.
  apply (cli_main_never_starts (lit "1.2.01") Cli.cocomm_errorLst
           (Cli.no_options false) (Cli.typing [lit "exit"]) (daemon reply_ok) 3).
  reflexivity.
Defined.

(** X13.  With [--version] or [--listErrors] the program prints and leaves
    through [exit(1)] inside [parse]: no socket call is made.  The other
    options are applied first and change nothing to that; [--version]
    wins over [--listErrors]. *)
Theorem info_options_exit (prog : Cli.Program) (ns : Namespace.ns)
    (console : Cli.Console) (env : Env) (fuel : nat) :
  Cli.from_parser prog ns = true ->
  Cli.declares_d prog = true ->
  Namespace.version ns || Namespace.listErrors ns = true ->
  Cli.main fuel prog ns console env =
    {| Cli.log := [];
       Cli.output := if Namespace.version ns then Cli.showVersion prog
                     else Cli.printErrorCodes prog;
       Cli.exit := Cli.Uncaught (Cli.SystemExit 1) |}.
Proof.
  intros Hp Hd Hinfo. unfold Cli.from_parser in Hp. rewrite Hd in Hp.
  destruct (Namespace.d ns) as [flag |] eqn:Hflag; [| discriminate Hp].
  unfold Cli.main, Cli.parse. rewrite Hflag.
  destruct (Namespace.version ns); [reflexivity |].
  cbn in Hinfo. rewrite Hinfo. reflexivity.
Qed.

Lemma info_options_exit_witness :
  Cli.main 3 Cli.cocomm
    {| Namespace.command := Some (lit "r"); Namespace.f := None;
       Namespace.s := None; Namespace.t := Some (lit "host"); Namespace.p := None;
       Namespace.d := Some false; Namespace.version := true;
       Namespace.verbose := true; Namespace.listErrors := true |}
    (Cli.typing []) (daemon reply_ok) =
    {| Cli.log := [];
       Cli.output := Cli.showVersion Cli.cocomm;
       Cli.exit := Cli.Uncaught (Cli.SystemExit 1) |}.
Proof.
  apply (info_options_exit Cli.cocomm
    {| Namespace.command := Some (lit "r"); Namespace.f := None;
       Namespace.s := None; Namespace.t := Some (lit "host"); Namespace.p := None;
       Namespace.d := Some false; Namespace.version := true;
       Namespace.verbose := true; Namespace.listErrors := true |}
    (Cli.typing []) (daemon reply_ok) 3); reflexivity.
Defined.

(** ** The table of error codes *)

Lemma error_lines_internal (items : list (Z * str)) :
  forallb (fun kv => negb (fst kv =? 0)%Z) items = true ->
  Cli.error_lines true items =
  map (fun kv => lit "  - " ++ str_of_int (fst kv) ++ lit " - " ++ snd kv) items.
Proof.
  induction items as [| [key val] items IH]; intro H; [reflexivity |].
  cbn [forallb fst] in H. apply andb_prop in H. destruct H as [Hk Hrest].
  apply negb_true_iff in Hk. cbn [Cli.error_lines map fst snd].
  rewrite Hk. cbn [app]. rewrite (IH Hrest). reflexivity.
Qed.

Lemma error_lines_abort (items : list (Z * str)) :
  forallb (fun kv => negb (fst kv =? 0)%Z) items = true ->
  Cli.error_lines false items =
  map (fun kv => lit "  - 0x" ++ Cli.format_08x (fst kv) ++ lit " - " ++ snd kv)
      items.
Proof.
  induction items as [| [key val] items IH]; intro H; [reflexivity |].
  cbn [forallb fst] in H. apply andb_prop in H. destruct H as [Hk Hrest].
  apply negb_true_iff in Hk. cbn [Cli.error_lines map fst snd].
  rewrite Hk. cbn [app]. rewrite (IH Hrest). reflexivity.
Qed.

(** X14.  [printErrorCodes] tells the two kinds of codes apart by position
    only: the entries before the key [0] are listed in decimal under
    "Internal error codes:", the entry of key [0] and all that follow in
    [0x%08x] form under "SDO abort codes:".  A table without the key [0]
    is listed in decimal throughout, and the second heading is never
    printed. *)
Theorem error_codes_split_at_zero (prog : Cli.Program) :
  (forall (internal abort : list (Z * str)) (val : str),
     Cli.errorLst prog = internal ++ (0%Z, val) :: abort ->
     forallb (fun kv => negb (fst kv =? 0)%Z) (internal ++ abort) = true ->
     Cli.printErrorCodes prog =
       lit "Internal error codes:"
       :: map (fun kv => lit "  - " ++ str_of_int (fst kv) ++ lit " - " ++ snd kv)
              internal
       ++ lit "SDO abort codes:"
       :: map (fun kv => lit "  - 0x" ++ Cli.format_08x (fst kv) ++ lit " - "
                         ++ snd kv)
              ((0%Z, val) :: abort)) /\
  (forallb (fun kv => negb (fst kv =? 0)%Z) (Cli.errorLst prog) = true ->
   Cli.printErrorCodes prog =
     lit "Internal error codes:"
     :: map (fun kv => lit "  - " ++ str_of_int (fst kv) ++ lit " - " ++ snd kv)
            (Cli.errorLst prog)).
Proof.
  split.
  - intros internal abort val Htable Hnz. unfold Cli.printErrorCodes.
    rewrite Htable. f_equal. rewrite forallb_app in Hnz.
    apply andb_prop in Hnz. destruct Hnz as [Hint Hab].
    clear Htable. induction internal as [| [key v] internal IH].
    + cbn [app map Cli.error_lines]. cbn [Z.eqb app].
      rewrite (error_lines_abort abort Hab). reflexivity.
    + cbn [forallb fst] in Hint. apply andb_prop in Hint.
      destruct Hint as [Hk Hint]. apply negb_true_iff in Hk.
      cbn [app map Cli.error_lines fst snd]. rewrite Hk. cbn [app].
      rewrite (IH Hint). reflexivity.
  - intro Hnz. unfold Cli.printErrorCodes. f_equal.
    apply error_lines_internal. exact Hnz.
Qed.

Lemma error_codes_split_at_zero_witness :
  Cli.printErrorCodes Cli.cocomm =
    lit "Internal error codes:"
    :: map (fun kv => lit "  - " ++ str_of_int (fst kv) ++ lit " - " ++ snd kv)
           (firstn 27 Cli.cocomm_errorLst)
    ++ lit "SDO abort codes:"
    :: map (fun kv => lit "  - 0x" ++ Cli.format_08x (fst kv) ++ lit " - "
                      ++ snd kv)
           ((0%Z, lit "No abort.") :: skipn 28 Cli.cocomm_errorLst).
Proof.
  apply (proj1 (error_codes_split_at_zero Cli.cocomm)
           (firstn 27 Cli.cocomm_errorLst) (skipn 28 Cli.cocomm_errorLst)
           (lit "No abort.")).
  - reflexivity.
  - reflexivity.
Defined.

(** ** The session that [main] runs *)

Lemma transfers_reads (n : nat) : forallb is_transfer (repeat (Recv 1024) n) = true.
Proof. induction n; cbn; auto. Qed.

(** A call of [sendCommand] adds only sends and reads to the log, keeps
    the instance and does not raise. *)
Lemma sendCommand_transfers (env : Env) (s s' : State) (fuel : nat) (cmd : str)
    (index : Z) (r : outcome str) :
  sendCommand fuel cmd index env s = (s', r) ->
  self s' = self s /\ is_raise r = false /\
  exists evs, trace s' = trace s ++ evs /\ forallb is_transfer evs = true.
Proof.
  intro H. apply sendCommand_inv in H. destruct H as (Hself & Hr & Hcases).
  split; [exact Hself |]. split; [exact Hr |].
  assert (Hnil : trace s' = trace s -> exists evs,
                   trace s' = trace s ++ evs /\ forallb is_transfer evs = true).
  { intro Ht. exists []. rewrite app_nil_r. auto. }
  destruct (sock (self s)); [| apply Hnil; tauto].
  destruct (build_message cmd index) as [msg | |]; try (apply Hnil; tauto).
  destruct (encode msg) as [bs | |]; try (apply Hnil; tauto).
  destruct Hcases as (n & _ & Ht). eexists. split; [exact Ht |].
  cbn. apply transfers_reads.
Qed.

Lemma send_lines_transfers (env : Env) (fuel : nat) (lines : list str) :
  forall s s' r,
    Cli.send_lines fuel lines env s = (s', r) ->
    self s' = self s /\ is_raise r = false /\
    exists evs, trace s' = trace s ++ evs /\ forallb is_transfer evs = true.
Proof.
  induction lines as [| line rest IH]; intros s s' r H.
  - cbn in H. inversion H; subst. repeat split; auto.
    exists []. rewrite app_nil_r. auto.
  - cbn [Cli.send_lines] in H. unfold bind in H.
    destruct (sendCommand fuel line default_index env s) as [s1 r1] eqn:H1.
    apply sendCommand_transfers in H1. destruct H1 as (Hs1 & Hr1 & evs1 & Ht1 & He1).
    destruct r1 as [x | e |]; [| discriminate Hr1 |].
    + apply IH in H. destruct H as (Hs2 & Hr2 & evs2 & Ht2 & He2).
      split; [congruence |]. split; [exact Hr2 |].
      exists (evs1 ++ evs2). rewrite Ht2, Ht1, <- app_assoc, forallb_app, He1, He2.
      auto.
    + inversion H; subst. repeat split; auto. eauto.
Qed.

Lemma from_file_transfers (env : Env) (fuel : nat) (console : Cli.Console)
    (path : str) (s s' : State) (r : outcome unit) :
  Cli.from_file fuel console path env s = (s', r) ->
  self s' = self s /\ is_raise r = false /\
  exists evs, trace s' = trace s ++ evs /\ forallb is_transfer evs = true.
Proof.
  unfold Cli.from_file, try_except, bind, eval. intro H.
  destruct (Cli.open_file console path) as [[lines failure] | e |].
  - cbn [fst snd] in H.
    destruct (Cli.send_lines fuel lines env s) as [s1 r1] eqn:H1.
    apply send_lines_transfers in H1. destruct H1 as (Hs1 & Hr1 & evs & Ht & Hev).
    destruct r1 as [[] | e |]; [| discriminate Hr1 |].
    + destruct failure as [e |]; run_monad; cbn in H; inversion H; subst; cbn;
        repeat split; eauto.
    + inversion H; subst; repeat split; eauto.
  - run_monad. cbn in H. inversion H; subst. cbn. repeat split; auto.
    exists []. rewrite app_nil_r. auto.
  - inversion H; subst. repeat split; auto.
    exists []. rewrite app_nil_r. auto.
Qed.

Lemma from_stdin_transfers (env : Env) (fuel : nat) (lines : list str) :
  forall s s' st,
    Cli.from_stdin fuel lines env s = (s', st) ->
    self s' = self s /\
    (forall e, st <> Cli.Uncaught (Cli.ClientError e)) /\
    exists evs, trace s' = trace s ++ evs /\ forallb is_transfer evs = true.
Proof.
  induction lines as [| cmd rest IH]; intros s s' st H.
  - cbn in H. inversion H; subst. repeat split; try discriminate.
    exists []. rewrite app_nil_r. auto.
  - cbn [Cli.from_stdin] in H.
    destruct (contains (lit "exit") cmd).
    + inversion H; subst. repeat split; try discriminate.
      exists []. rewrite app_nil_r. auto.
    + destruct (sendCommand fuel cmd default_index env s) as [s1 r1] eqn:H1.
      apply sendCommand_transfers in H1.
      destruct H1 as (Hs1 & Hr1 & evs1 & Ht1 & He1).
      destruct r1 as [x | e |]; [| discriminate Hr1 |].
      * apply IH in H. destruct H as (Hs2 & Hst & evs2 & Ht2 & He2).
        split; [congruence |]. split; [exact Hst |].
        exists (evs1 ++ evs2).
        rewrite Ht2, Ht1, <- app_assoc, forallb_app, He1, He2. auto.
      * inversion H; subst. repeat split; try discriminate; eauto.
Qed.

(** Feeding the commands, from whichever source, adds only sends and
    reads to the log, keeps the instance, and lets no exception of the
    client out. *)
Lemma feed_transfers (env : Env) (fuel : nat) (args : Cli.AppArgs)
    (console : Cli.Console) (s s' : State) (st : Cli.status) :
  Cli.feed fuel args console env s = (s', st) ->
  self s' = self s /\
  (forall e, st <> Cli.Uncaught (Cli.ClientError e)) /\
  exists evs, trace s' = trace s ++ evs /\ forallb is_transfer evs = true.
Proof.
  unfold Cli.feed. intro H.
  destruct (Cli.inputFile args) as [path |].
  - destruct (Cli.from_file fuel console path env s) as [s1 r1] eqn:H1.
    apply from_file_transfers in H1. destruct H1 as (Hs & Hr & Hev).
    destruct r1 as [[] | e |]; [| discriminate Hr |];
      cbn in H; inversion H; subst; repeat split; auto; discriminate.
  - destruct (Cli.command args) as [cmd |].
    + destruct (sendCommand fuel cmd default_index env s) as [s1 r1] eqn:H1.
      apply sendCommand_transfers in H1. destruct H1 as (Hs & Hr & Hev).
      destruct r1 as [x | e |]; [| discriminate Hr |];
        cbn in H; inversion H; subst; repeat split; auto; discriminate.
    + apply from_stdin_transfers in H. exact H.
Qed.

(** A [connect] that returned [True] left a socket in the handle. *)
Lemma connect_true_opens (env : Env) (s : State) :
  snd (connect env s) = Ret true ->
  exists sk, sock (self (fst (connect env s))) = Some sk.
Proof.
  intro Hr. destruct (connect env s) as [s1 r1] eqn:Hc. cbn [fst snd] in *.
  subst r1. destruct (connect_true_inv env s s1 Hc) as (sk & Hsk & _). eauto.
Qed.

(** The socket calls of [connect] are those that set a connection up:
    none of them moves data or closes. *)
Lemma connect_setup_only (env : Env) (s : State) :
  exists evs,
    trace (fst (connect env s)) = trace s ++ evs /\
    forallb (fun ev => negb (is_transfer ev)) evs = true /\
    ~ In Close evs.
Proof.
  destruct (connect env s) as [s1 r1] eqn:Hc. cbn [fst].
  apply connect_inv in Hc.
  assert (Hnil : trace s1 = trace s -> exists evs,
            trace s1 = trace s ++ evs /\
            forallb (fun ev => negb (is_transfer ev)) evs = true /\
            ~ In Close evs).
  { intro Ht. exists []. rewrite app_nil_r. auto. }
  destruct (sock (self s)); [apply Hnil; tauto |].
  destruct (sock_type (self s)) as [[|] |]; [| | apply Hnil; tauto].
  - destruct (on_linux env); [| apply Hnil; tauto].
    destruct (os_socket env _ AF_UNIX); [destruct (announces (self s)) | |].
    + destruct Hc as [Ht _]. eexists. split; [exact Ht |].
      split; [reflexivity |]. cbn. intros [H | [H | []]]; discriminate.
    + destruct Hc as (_ & _ & Ht). eexists. split; [exact Ht |].
      split; [reflexivity |]. cbn. intros [H | []]; discriminate.
    + destruct Hc as (_ & _ & Ht). eexists. split; [exact Ht |].
      split; [reflexivity |]. cbn. intros [H | []]; discriminate.
    + destruct Hc as (_ & _ & Ht). eexists. split; [exact Ht |].
      split; [reflexivity |]. cbn. intros [H | []]; discriminate.
  - destruct (on_tcp_platform env); [| apply Hnil; tauto].
    destruct (announces (self s)); [| apply Hnil; tauto].
    destruct Hc as [Ht _]. eexists. split; [exact Ht |].
    split; [reflexivity |]. cbn. intros [H | []]; discriminate.
Qed.

Lemma sent_setup (evs : list event) :
  forallb (fun ev => negb (is_transfer ev)) evs = true -> sent evs = [].
Proof.
  induction evs as [| ev evs IH]; [reflexivity |].
  cbn [forallb]. intro H. apply andb_prop in H. destruct H as [He Hrest].
  destruct ev; cbn in He; try discriminate; cbn; auto.
Qed.

Lemma transfers_no_close (evs : list event) :
  forallb is_transfer evs = true -> ~ In Close evs.
Proof.
  intros H Hin. rewrite forallb_forall in H. apply H in Hin. discriminate Hin.
Qed.

(** X15.  When [connect] fails, [main] returns at once: the log holds the
    calls of the connection attempt and nothing else (nothing is sent,
    read or closed, so the socket object that a failed Unix-domain
    attempt leaves in the handle is never closed), whatever the file,
    the argument and the standard input hold. *)
Theorem main_stops_when_connect_fails (fuel : nat) (args : Cli.AppArgs)
    (console : Cli.Console) (env : Env) (printed : list str) :
  snd (connect env {| self := Cli.make_client args; trace := [];
                      stdout := printed |}) = Ret false ->
  let run := Cli.main_with fuel args console env printed in
  Cli.exit run = Cli.Returned /\
  Cli.log run = trace (fst (connect env {| self := Cli.make_client args;
                                           trace := []; stdout := printed |})) /\
  sent (Cli.log run) = [] /\
  ~ In Close (Cli.log run).
Proof.
  intros Hr run. subst run. unfold Cli.main_with.
  destruct (connect_setup_only env
              {| self := Cli.make_client args; trace := []; stdout := printed |})
    as (evs & Ht & Hsetup & Hclose).
  destruct (connect env {| self := Cli.make_client args; trace := [];
                           stdout := printed |}) as [s1 r1].
  cbn [fst snd] in *. subst r1. cbn [negb Cli.finish Cli.exit Cli.log].
  cbn [trace app] in Ht. rewrite Ht.
  repeat split; auto using sent_setup.
Qed.

Lemma main_stops_when_connect_fails_witness :
  let run := Cli.main_with 3 (Cli.init_args Cli.cocomm) (Cli.typing [lit "r"])
               no_daemon [] in
  Cli.exit run = Cli.Returned /\
  Cli.log run = trace (fst (connect no_daemon
                  {| self := Cli.make_client (Cli.init_args Cli.cocomm);
                     trace := []; stdout := [] |})) /\
  sent (Cli.log run) = [] /\
  ~ In Close (Cli.log run).
Proof.
  apply (main_stops_when_connect_fails 3 (Cli.init_args Cli.cocomm)
           (Cli.typing [lit "r"]) no_daemon []).
  reflexivity.
Defined.

(** After a successful [connect], [main] feeds the commands and, when
    the feeding returns, disconnects: the log is the calls of [connect],
    then sends and reads, then one [close]; when the feeding does not
    return, there is no [close]. *)
Lemma main_with_connected (fuel : nat) (args : Cli.AppArgs)
    (console : Cli.Console) (env : Env) (printed : list str) (s1 : State) :
  connect env {| self := Cli.make_client args; trace := []; stdout := printed |}
    = (s1, Ret true) ->
  exists s2 st evs,
    Cli.feed fuel args console env s1 = (s2, st) /\
    self s2 = self s1 /\
    trace s2 = trace s1 ++ evs /\ forallb is_transfer evs = true /\
    (st = Cli.Returned ->
     Cli.main_with fuel args console env printed =
       Cli.finish (fst (disconnect env s2))
                  (snd (Cli.lift_status (disconnect env s2))) /\
     trace (fst (disconnect env s2)) = trace s2 ++ [Close]) /\
    (st <> Cli.Returned ->
     Cli.main_with fuel args console env printed = Cli.finish s2 st).
Proof.
  intro Hc.
  pose proof (connect_true_opens env
                {| self := Cli.make_client args; trace := []; stdout := printed |})
    as Hopen.
  rewrite Hc in Hopen. cbn [fst snd] in Hopen. destruct (Hopen eq_refl) as [sk Hsk].
  destruct (Cli.feed fuel args console env s1) as [s2 st] eqn:Hfeed.
  pose proof (feed_transfers _ _ _ _ _ _ _ Hfeed) as (Hself & _ & evs & Ht & Hev).
  exists s2, st, evs. repeat split; auto.
  - unfold Cli.main_with. rewrite Hc. cbn [negb]. rewrite Hfeed. subst st.
    destruct (disconnect env s2) as [s3 r3]. destruct r3; reflexivity.
  - destruct (disconnect env s2) as [s3 r3] eqn:Hd. cbn [fst].
    apply disconnect_inv in Hd. rewrite Hself, Hsk in Hd. tauto.
  - intro Hst. unfold Cli.main_with. rewrite Hc. cbn [negb]. rewrite Hfeed.
    destruct st; [congruence | reflexivity | reflexivity].
Qed.

Lemma transfers_session (evs : list event) :
  forallb is_transfer evs = true -> forallb is_session_call evs = true.
Proof.
  induction evs as [| ev evs IH]; [reflexivity |].
  cbn [forallb]. intro H. apply andb_prop in H. destruct H as [He Hrest].
  rewrite (IH Hrest). destruct ev; cbn in He; try discriminate; reflexivity.
Qed.

(** In every run, what [main] adds to the calls of [connect] are
    transfers and at most the final [close]. *)
Lemma main_with_log (fuel : nat) (args : Cli.AppArgs) (console : Cli.Console)
    (env : Env) (printed : list str) :
  exists evs,
    Cli.log (Cli.main_with fuel args console env printed) =
      trace (fst (connect env {| self := Cli.make_client args; trace := [];
                                 stdout := printed |})) ++ evs /\
    forallb is_session_call evs = true.
Proof.
  destruct (connect env {| self := Cli.make_client args; trace := [];
                           stdout := printed |}) as [s1 r1] eqn:Hc.
  cbn [fst].
  assert (Hnil : Cli.log (Cli.main_with fuel args console env printed) = trace s1 ->
                 exists evs,
                   Cli.log (Cli.main_with fuel args console env printed) =
                     trace s1 ++ evs /\ forallb is_session_call evs = true).
  { intro H. exists []. rewrite app_nil_r. auto. }
  destruct r1 as [[|] | e |];
    [| apply Hnil; unfold Cli.main_with; rewrite Hc; reflexivity ..].
  destruct (main_with_connected fuel args console env printed s1 Hc)
    as (s2 & st & evs & _ & _ & Ht & Hev & Hret & Hnot).
  destruct st.
  - destruct (Hret eq_refl) as [Hrun Htr]. rewrite Hrun.
    cbn [Cli.finish Cli.log]. exists (evs ++ [Close]).
    rewrite Htr, Ht, <- app_assoc, forallb_app, (transfers_session evs Hev).
    auto.
  - rewrite Hnot by discriminate. cbn [Cli.finish Cli.log].
    exists evs. auto using transfers_session.
  - rewrite Hnot by discriminate. cbn [Cli.finish Cli.log].
    exists evs. auto using transfers_session.
Qed.

(** A Unix-domain client never calls [socket.create_connection]. *)
Lemma connect_unix_never_dials (env : Env) (s : State) (host : str) (port : Z) :
  sock_type (self s) = Some UNIX ->
  In (CreateConnection host port) (trace (fst (connect env s))) ->
  In (CreateConnection host port) (trace s).
Proof.
  intros Hty Hin.
  destruct (connect env s) as [s1 r1] eqn:Hc. cbn [fst] in Hin.
  apply connect_inv in Hc. rewrite Hty in Hc.
  destruct (sock (self s)); [destruct Hc as (_ & _ & Ht); congruence |].
  destruct (on_linux env); [| destruct Hc as (_ & _ & Ht); congruence].
  destruct (os_socket env (List.length (trace s)) AF_UNIX);
    [destruct (announces (self s)) | |].
  - destruct Hc as [Ht _]. rewrite Ht in Hin. apply in_app_or in Hin.
    destruct Hin as [Hin | [H | [H | []]]]; [exact Hin | discriminate H ..].
  - destruct Hc as (_ & _ & Ht). rewrite Ht in Hin. apply in_app_or in Hin.
    destruct Hin as [Hin | [H | []]]; [exact Hin | discriminate H].
  - destruct Hc as (_ & _ & Ht). rewrite Ht in Hin. apply in_app_or in Hin.
    destruct Hin as [Hin | [H | []]]; [exact Hin | discriminate H].
  - destruct Hc as (_ & _ & Ht). rewrite Ht in Hin. apply in_app_or in Hin.
    destruct Hin as [Hin | [H | []]]; [exact Hin | discriminate H].
Qed.

(** [main] looks at its arguments only through the client they select,
    the input file and the command. *)
Lemma main_with_ext (fuel : nat) (a a' : Cli.AppArgs) (console : Cli.Console)
    (env : Env) (printed : list str) :
  Cli.make_client a = Cli.make_client a' ->
  Cli.inputFile a = Cli.inputFile a' ->
  Cli.command a = Cli.command a' ->
  Cli.main_with fuel a console env printed =
  Cli.main_with fuel a' console env printed.
Proof.
  intros Hclient Hfile Hcmd. unfold Cli.main_with, Cli.feed.
  rewrite Hclient, Hfile, Hcmd. reflexivity.
Qed.

(** Out of range, a port given with [-p] makes [parse] return the same
    as without [-t], up to the attribute [tcpSocket], which [main] then
    ignores. *)
Lemma parse_without_t (prog : Cli.Program) (ns : Namespace.ns) (self : Cli.AppArgs)
    (port : Z) :
  Namespace.p ns = Some port ->
  ((port <? 0) || (65535 <=? port))%Z = true ->
  let r := Cli.parse prog ns self in
  let r' := Cli.parse prog (Namespace.without_t ns) self in
  snd r = snd r' /\ snd (fst r) = snd (fst r') /\
  Cli.make_client (fst (fst r)) = Cli.make_client (fst (fst r')) /\
  Cli.inputFile (fst (fst r)) = Cli.inputFile (fst (fst r')) /\
  Cli.command (fst (fst r)) = Cli.command (fst (fst r')) /\
  sock_type (Cli.make_client (fst (fst r))) = Some UNIX.
Proof.
  intros Hp Hrange.
  assert (Hnz : (port =? 0)%Z = false).
  { destruct (Z.eqb_spec port 0) as [-> |]; [discriminate Hrange | reflexivity]. }
  assert (Hout : ((0 <? port) && (port <? 65535))%Z = false).
  { apply orb_true_iff in Hrange. destruct Hrange as [H | H].
    - apply Z.ltb_lt in H. apply andb_false_iff. left. apply Z.ltb_ge. lia.
    - apply Z.leb_le in H. apply andb_false_iff. right. apply Z.ltb_ge. lia. }
  destruct ns as [cmd f s t p d ver vb le]. cbn in Hp. subst p.
  unfold Cli.parse, Namespace.without_t. cbn -[Cli.spell Cli.showVersion Cli.printErrorCodes].
  rewrite Hnz.
  destruct cmd as [[| c0 cr] |]; destruct f as [[| f0 fr] |];
    destruct s as [[| s0 sr] |]; destruct t as [[| t0 tr] |];
    destruct d as [[|] |]; destruct vb; destruct ver; destruct le;
    cbn -[Cli.spell Cli.showVersion Cli.printErrorCodes];
    unfold Cli.make_client; cbn -[Cli.spell]; rewrite ?Hout;
    repeat split; try reflexivity;
    destruct (Cli.tcpSocket self); reflexivity.
Qed.

(** [-p 0] counts as no [-p] at all. *)
Lemma parse_without_p (prog : Cli.Program) (ns : Namespace.ns) (self : Cli.AppArgs) :
  Namespace.p ns = Some 0%Z ->
  Cli.parse prog ns self = Cli.parse prog (Namespace.without_p ns) self.
Proof.
  intro Hp. destruct ns as [cmd f s t p d ver vb le]. cbn in Hp. subst p.
  reflexivity.
Qed.

(** X16.  [-t host] is honoured only with a port strictly between 0 and
    65535.  With [-p] negative, or 65535 and above, the program runs
    exactly as if [-t] had not been given, and no TCP connection is ever
    attempted.  [-p 0] is different: it counts as no [-p] at all, the
    default port is kept, and with a default port in range the client
    is a TCP client for the host on that port. *)
Theorem port_out_of_range_ignores_host (fuel : nat) (prog : Cli.Program)
    (ns : Namespace.ns) (console : Cli.Console) (env : Env) :
  (forall port,
     Namespace.p ns = Some port ->
     ((port <? 0) || (65535 <=? port))%Z = true ->
     Cli.main fuel prog ns console env =
       Cli.main fuel prog (Namespace.without_t ns) console env /\
     forall host p,
       ~ In (CreateConnection host p) (Cli.log (Cli.main fuel prog ns console env))) /\
  (Namespace.p ns = Some 0%Z ->
   Cli.main fuel prog ns console env =
     Cli.main fuel prog (Namespace.without_p ns) console env) /\
  (forall host,
     Namespace.t ns = Some host ->
     Cli.truthy (Some host) = true ->
     Namespace.p ns = Some 0%Z \/ Namespace.p ns = None ->
     ((0 <? Cli.default_port prog) && (Cli.default_port prog <? 65535))%Z = true ->
     let client :=
       Cli.make_client (fst (fst (Cli.parse prog ns (Cli.init_args prog)))) in
     sock_type client = Some TCP /\
     server_address client = host /\
     server_port client = Cli.default_port prog).
Proof.
  split; [| split].
  - intros port Hp Hrange.
    pose proof (parse_without_t prog ns (Cli.init_args prog) port Hp Hrange)
      as (He & Hpr & Hclient & Hfile & Hcmd & Hunix).
    cbv zeta in *. unfold Cli.main.
    destruct (Cli.parse prog ns (Cli.init_args prog)) as [[a pr] e].
    destruct (Cli.parse prog (Namespace.without_t ns) (Cli.init_args prog))
      as [[a' pr'] e'].
    cbn [fst snd] in *. subst e' pr'.
    destruct e as [e |].
    + split; [reflexivity |]. intros host p [].
    + split; [apply main_with_ext; assumption |].
      intros host p Hin.
      destruct (main_with_log fuel a console env pr) as (evs & Hlog & Hev).
      rewrite Hlog in Hin. apply in_app_or in Hin. destruct Hin as [Hin | Hin].
      * apply connect_unix_never_dials in Hin; [exact Hin | exact Hunix].
      * rewrite forallb_forall in Hev. apply Hev in Hin. discriminate Hin.
  - intro Hp. unfold Cli.main. rewrite (parse_without_p prog ns _ Hp). reflexivity.
  - intros host Ht Htruthy Hp Hdefault client. subst client.
    destruct ns as [cmd f s t p d ver vb le]. cbn in Ht, Hp. subst t.
    destruct host as [| h0 hr]; [discriminate Htruthy |].
    unfold Cli.parse. cbn -[Cli.spell Cli.showVersion Cli.printErrorCodes].
    destruct Hp as [-> | ->];
      destruct cmd as [[| c0 cr] |]; destruct f as [[| f0 fr] |];
      destruct s as [[| s0 sr] |]; destruct d as [[|] |]; destruct vb;
      destruct ver; destruct le;
      cbn -[Cli.spell Cli.showVersion Cli.printErrorCodes];
      unfold Cli.make_client; cbn -[Cli.spell]; rewrite Hdefault;
      repeat split; reflexivity.
Qed.

Lemma port_out_of_range_ignores_host_witness :
  (Cli.main 3 Cli.cocomm
     {| Namespace.command := None; Namespace.f := None; Namespace.s := None;
        Namespace.t := Some (lit "host"); Namespace.p := Some 65535%Z;
        Namespace.d := Some false; Namespace.version := false;
        Namespace.verbose := false; Namespace.listErrors := false |}
     (Cli.typing [lit "exit"]) (daemon reply_ok) =
   Cli.main 3 Cli.cocomm
     (Namespace.without_t
        {| Namespace.command := None; Namespace.f := None; Namespace.s := None;
           Namespace.t := Some (lit "host"); Namespace.p := Some 65535%Z;
           Namespace.d := Some false; Namespace.version := false;
           Namespace.verbose := false; Namespace.listErrors := false |})
     (Cli.typing [lit "exit"]) (daemon reply_ok) /\
   forall host p,
     ~ In (CreateConnection host p)
          (Cli.log (Cli.main 3 Cli.cocomm
             {| Namespace.command := None; Namespace.f := None; Namespace.s := None;
                Namespace.t := Some (lit "host"); Namespace.p := Some 65535%Z;
                Namespace.d := Some false; Namespace.version := false;
                Namespace.verbose := false; Namespace.listErrors := false |}
             (Cli.typing [lit "exit"]) (daemon reply_ok)))) /\
  (let client :=
     Cli.make_client (fst (fst (Cli.parse Cli.cocomm
        {| Namespace.command := None; Namespace.f := None; Namespace.s := None;
           Namespace.t := Some (lit "host"); Namespace.p := Some 0%Z;
           Namespace.d := Some false; Namespace.version := false;
           Namespace.verbose := false; Namespace.listErrors := false |}
        (Cli.init_args Cli.cocomm)))) in
   sock_type client = Some TCP /\
   server_address client = lit "host" /\
   server_port client = Cli.default_port Cli.cocomm).
Proof.
  split.
  - apply (proj1 (port_out_of_range_ignores_host 3 Cli.cocomm
             {| Namespace.command := None; Namespace.f := None; Namespace.s := None;
                Namespace.t := Some (lit "host"); Namespace.p := Some 65535%Z;
                Namespace.d := Some false; Namespace.version := false;
                Namespace.verbose := false; Namespace.listErrors := false |}
             (Cli.typing [lit "exit"]) (daemon reply_ok)) 65535%Z);
      reflexivity.
  - apply (proj2 (proj2 (port_out_of_range_ignores_host 3 Cli.cocomm
             {| Namespace.command := None; Namespace.f := None; Namespace.s := None;
                Namespace.t := Some (lit "host"); Namespace.p := Some 0%Z;
                Namespace.d := Some false; Namespace.version := false;
                Namespace.verbose := false; Namespace.listErrors := false |}
             (Cli.typing [lit "exit"]) (daemon reply_ok))) (lit "host"));
      [reflexivity | reflexivity | left; reflexivity | reflexivity].
Defined.

Lemma from_stdin_cut (env : Env) (fuel : nat) (before : list str) (line : str)
    (after : list str) :
  contains (lit "exit") line = true ->
  forall s,
    Cli.from_stdin fuel (before ++ line :: after) env s =
    Cli.from_stdin fuel (before ++ [line]) env s.
Proof.
  intro Hexit. induction before as [| cmd before IH]; intro s.
  - cbn [app Cli.from_stdin]. rewrite Hexit. reflexivity.
  - cbn [app Cli.from_stdin]. destruct (contains (lit "exit") cmd); [reflexivity |].
    destruct (sendCommand fuel cmd default_index env s) as [s1 [x | e |]];
      auto.
Qed.

Lemma from_stdin_no_exit (env : Env) (fuel : nat) (lines : list str) :
  forallb (fun l => negb (contains (lit "exit") l)) lines = true ->
  forall s,
    snd (Cli.from_stdin fuel lines env s) = Cli.Uncaught Cli.EOFError \/
    snd (Cli.from_stdin fuel lines env s) = Cli.Hung.
Proof.
  induction lines as [| cmd rest IH]; intros Hno s; [left; reflexivity |].
  cbn [forallb] in Hno. apply andb_prop in Hno. destruct Hno as [Hcmd Hrest].
  apply negb_true_iff in Hcmd. cbn [Cli.from_stdin]. rewrite Hcmd.
  destruct (sendCommand fuel cmd default_index env s) as [s1 r1] eqn:H1.
  apply sendCommand_transfers in H1. destruct H1 as (_ & Hr1 & _).
  destruct r1 as [x | e |]; [apply IH; exact Hrest | discriminate Hr1 |].
  right. reflexivity.
Qed.

(** X18.  Without a line that contains ["exit"], the interactive session does
    not end normally: when the standard input runs out, [input()]
    raises [EOFError] out of [main] (unless a reply never comes and the
    program stays in a read), and in either case [disconnect] is not
    called: the socket is never closed. *)
Theorem end_of_input_skips_disconnect (fuel : nat) (args : Cli.AppArgs)
    (console : Cli.Console) (env : Env) (printed : list str) :
  Cli.inputFile args = None ->
  Cli.command args = None ->
  forallb (fun l => negb (contains (lit "exit") l)) (Cli.stdin console) = true ->
  snd (connect env {| self := Cli.make_client args; trace := [];
                      stdout := printed |}) = Ret true ->
  let run := Cli.main_with fuel args console env printed in
  (Cli.exit run = Cli.Uncaught Cli.EOFError \/ Cli.exit run = Cli.Hung) /\
  ~ In Close (Cli.log run).
Proof.
  intros Hfile Hcmd Hno Hr run. subst run.
  destruct (connect_setup_only env
              {| self := Cli.make_client args; trace := []; stdout := printed |})
    as (setup & Hsetup & _ & Hnoclose).
  destruct (connect env {| self := Cli.make_client args; trace := [];
                           stdout := printed |}) as [s1 r1] eqn:Hc.
  cbn [fst snd trace app] in *. subst r1.
  destruct (main_with_connected fuel args console env printed s1 Hc)
    as (s2 & st & evs & Hfeed & _ & Ht & Hev & _ & Hhung).
  assert (Hst : st = Cli.Uncaught Cli.EOFError \/ st = Cli.Hung).
  { unfold Cli.feed in Hfeed. rewrite Hfile, Hcmd in Hfeed.
    pose proof (from_stdin_no_exit env fuel (Cli.stdin console) Hno s1) as H.
    rewrite Hfeed in H. exact H. }
  rewrite Hhung by (destruct Hst as [-> | ->]; discriminate).
  cbn [Cli.finish Cli.exit Cli.log]. split; [exact Hst |].
  rewrite Ht, Hsetup. intro Hin. apply in_app_or in Hin.
  destruct Hin as [Hin | Hin]; [exact (Hnoclose Hin) |].
  exact (transfers_no_close evs Hev Hin).
Qed.

Lemma end_of_input_skips_disconnect_witness :
  let run := Cli.main_with 3 (Cli.init_args Cli.cocomm)
               (Cli.typing [lit "r"; lit "w"]) (daemon reply_ok) [] in
  (Cli.exit run = Cli.Uncaught Cli.EOFError \/ Cli.exit run = Cli.Hung) /\
  ~ In Close (Cli.log run).
Proof.
  apply (end_of_input_skips_disconnect 3 (Cli.init_args Cli.cocomm)
           (Cli.typing [lit "r"; lit "w"]) (daemon reply_ok) []); reflexivity.
Defined.

Lemma disconnect_stdout_extends (env : Env) (s : State) :
  exists lines, stdout (fst (disconnect env s)) = stdout s ++ lines.
Proof.
  unfold disconnect. unfold bind at 1, gets at 1.
  destruct (sock (self s)); run_monad; destruct (showVerbose (self s)); prints;
    cbn;
    repeat match goal with
    | |- context [os_close ?a ?b] => destruct (os_close a b) as [[] | |]
    end; cbn;
    try (eexists; reflexivity); exists []; rewrite app_nil_r; reflexivity.
Qed.

(** X19.  When the input file cannot be opened, whatever the reason, [main]
    prints "ERROR: input file not found", sends nothing, and still
    disconnects; a command given as argument beside [-f] is ignored. *)
Theorem unreadable_file_is_reported (fuel : nat) (args : Cli.AppArgs)
    (console : Cli.Console) (env : Env) (printed : list str) (path : str)
    (e : exn) :
  Cli.inputFile args = Some path ->
  Cli.open_file console path = Raise e ->
  snd (connect env {| self := Cli.make_client args; trace := [];
                      stdout := printed |}) = Ret true ->
  let run := Cli.main_with fuel args console env printed in
  Cli.log run =
    trace (fst (connect env {| self := Cli.make_client args; trace := [];
                               stdout := printed |})) ++ [Close] /\
  sent (Cli.log run) = [] /\
  In (lit "ERROR: input file not found") (Cli.output run).
Proof.
  intros Hfile Hopen Hr run. subst run.
  destruct (connect_setup_only env
              {| self := Cli.make_client args; trace := []; stdout := printed |})
    as (setup & Hsetup & Hnotransfer & _).
  destruct (connect env {| self := Cli.make_client args; trace := [];
                           stdout := printed |}) as [s1 r1] eqn:Hc.
  cbn [fst snd trace app] in *. subst r1.
  destruct (main_with_connected fuel args console env printed s1 Hc)
    as (s2 & st & evs & Hfeed & _ & _ & _ & Hret & _).
  unfold Cli.feed in Hfeed. rewrite Hfile in Hfeed.
  unfold Cli.from_file, try_except, bind, eval in Hfeed. rewrite Hopen in Hfeed.
  rewrite print_ok in Hfeed by solve_printable. cbn [Cli.lift_status] in Hfeed.
  inversion Hfeed; subst s2 st. clear Hfeed.
  destruct (Hret eq_refl) as [Hrun Htr]. rewrite Hrun.
  cbn [Cli.finish Cli.log Cli.output]. cbn [trace] in Htr.
  split; [exact Htr |]. split.
  - rewrite Htr, Hsetup, sent_app, (sent_setup setup Hnotransfer). reflexivity.
  - match goal with
    | |- In _ (stdout (fst (disconnect env ?s))) =>
        destruct (disconnect_stdout_extends env s) as [lines Hout]
    end.
    rewrite Hout. cbn [stdout]. apply in_or_app. left.
    apply in_or_app. right. left. reflexivity.
Qed.

Lemma unreadable_file_is_reported_witness :
  let run := Cli.main_with 3
               (Cli.set_command (Some (lit "r"))
                  (Cli.set_inputFile (Some (lit "cmds.txt"))
                     (Cli.init_args Cli.cocomm)))
               (Cli.typing []) (daemon reply_ok) [] in
  Cli.log run =
    trace (fst (connect (daemon reply_ok)
             {| self := Cli.make_client
                          (Cli.set_command (Some (lit "r"))
                             (Cli.set_inputFile (Some (lit "cmds.txt"))
                                (Cli.init_args Cli.cocomm)));
                trace := []; stdout := [] |})) ++ [Close] /\
  sent (Cli.log run) = [] /\
  In (lit "ERROR: input file not found") (Cli.output run).
Proof.
  apply (unreadable_file_is_reported 3
           (Cli.set_command (Some (lit "r"))
              (Cli.set_inputFile (Some (lit "cmds.txt"))
                 (Cli.init_args Cli.cocomm)))
           (Cli.typing []) (daemon reply_ok) [] (lit "cmds.txt") (OSError 2));
    reflexivity.
Defined.

(** What [parse] returns when the command line asks for a command and
    for nothing that ends the program. *)
Lemma parse_command_args (prog : Cli.Program) (ns : Namespace.ns) (a : str) :
  Cli.from_parser prog ns = true ->
  Cli.declares_d prog = true ->
  Namespace.version ns = false ->
  Namespace.listErrors ns = false ->
  Cli.truthy (Namespace.f ns) = false ->
  Namespace.command ns = Some a ->
  a <> [] -> trimmed a = true ->
  exists args,
    Cli.parse prog ns (Cli.init_args prog) = (args, [], None) /\
    Cli.inputFile args = None /\
    Cli.command args = Some (Cli.spaced_out a).
Proof.
  intros Hp Hd Hv Hl Hf Hcmd Hne Htrim.
  unfold Cli.from_parser in Hp. rewrite Hd in Hp.
  destruct (Namespace.d ns) as [flag |] eqn:Hflag; [| discriminate Hp].
  unfold Cli.parse. rewrite Hcmd, Hflag, Hv, Hl, Hf.
  destruct a as [| c r]; [congruence |].
  rewrite (spell_spaced_out (c :: r) Hne Htrim).
  eexists. split; [reflexivity |].
  destruct (Namespace.s ns) as [[| ? ?] |];
    destruct (Cli.truthy (Namespace.t ns));
    destruct (Namespace.p ns) as [port |];
    try destruct (port =? 0)%Z;
    destruct flag; destruct (Namespace.verbose ns); split; reflexivity.
Qed.

(** X20.  From the command line to the wire.  With a command as argument (and
    no input file), once connected [main] sends exactly one message:
    the argument as [parse] stored it, that is with a space between
    every two characters, framed by [sendCommand] with the index 1. *)
Theorem command_argument_on_the_wire (fuel : nat) (prog : Cli.Program)
    (ns : Namespace.ns) (console : Cli.Console) (env : Env) (a msg : str)
    (bs : bytes) :
  Cli.from_parser prog ns = true ->
  Cli.declares_d prog = true ->
  Namespace.version ns = false ->
  Namespace.listErrors ns = false ->
  Cli.truthy (Namespace.f ns) = false ->
  Namespace.command ns = Some a ->
  a <> [] -> trimmed a = true ->
  snd (connect env
         {| self := Cli.make_client
                      (fst (fst (Cli.parse prog ns (Cli.init_args prog))));
            trace := []; stdout := [] |}) = Ret true ->
  build_message (Cli.spaced_out a) default_index = Ret msg ->
  encode msg = Ret bs ->
  sent (Cli.log (Cli.main fuel prog ns console env)) = [bs].
Proof.
  intros Hp Hd Hv Hl Hf Hcmd Hne Htrim Hr Hmsg Henc.
  destruct (parse_command_args prog ns a Hp Hd Hv Hl Hf Hcmd Hne Htrim)
    as (args & Hparse & Hfile & Hcommand).
  unfold Cli.main. rewrite Hparse in *. cbn [fst] in Hr.
  destruct (connect_setup_only env
              {| self := Cli.make_client args; trace := []; stdout := [] |})
    as (setup & Hsetup & Hnotransfer & _).
  destruct (connect env {| self := Cli.make_client args; trace := [];
                           stdout := [] |}) as [s1 r1] eqn:Hc.
  cbn [fst snd trace app] in *. subst r1.
  pose proof (connect_true_opens env
                {| self := Cli.make_client args; trace := []; stdout := [] |})
    as Hopen.
  rewrite Hc in Hopen. destruct (Hopen eq_refl) as [sk Hsk]. cbn [fst] in Hsk.
  destruct (main_with_connected fuel args console env [] s1 Hc)
    as (s2 & st & evs & Hfeed & _ & _ & _ & Hret & Hnot).
  unfold Cli.feed in Hfeed. rewrite Hfile, Hcommand in Hfeed.
  destruct (sendCommand fuel (Cli.spaced_out a) default_index env s1)
    as [s2' r2] eqn:Hsend.
  pose proof (sendCommand_inv _ _ _ _ _ _ _ Hsend) as (_ & _ & Hcases).
  rewrite Hsk, Hmsg, Henc in Hcases. destruct Hcases as (n & _ & Htrace).
  assert (Hs2 : s2 = s2') by (destruct r2; cbn in Hfeed; congruence).
  subst s2'.
  assert (Hsent : sent (trace s2) = [bs]).
  { rewrite Htrace, sent_one_send, Hsetup, (sent_setup setup Hnotransfer).
    reflexivity. }
  destruct st.
  - destruct (Hret eq_refl) as [Hrun Htr]. rewrite Hrun.
    cbn [Cli.finish Cli.log]. rewrite Htr, sent_app, Hsent. reflexivity.
  - rewrite Hnot by discriminate. exact Hsent.
  - rewrite Hnot by discriminate. exact Hsent.
Qed.

Lemma command_argument_on_the_wire_witness :
  sent (Cli.log (Cli.main 3 Cli.cocomm
     {| Namespace.command := Some (lit "read 0x1018 1"); Namespace.f := None;
        Namespace.s := None; Namespace.t := None; Namespace.p := None;
        Namespace.d := Some false; Namespace.version := false;
        Namespace.verbose := false; Namespace.listErrors := false |}
     (Cli.typing []) (daemon reply_ok)))
  = [bytes_of "[1] r e a d   0 x 1 0 1 8   1"].
Proof.
  apply (command_argument_on_the_wire 3 Cli.cocomm
     {| Namespace.command := Some (lit "read 0x1018 1"); Namespace.f := None;
        Namespace.s := None; Namespace.t := None; Namespace.p := None;
        Namespace.d := Some false; Namespace.version := false;
        Namespace.verbose := false; Namespace.listErrors := false |}
     (Cli.typing []) (daemon reply_ok) (lit "read 0x1018 1")
     (lit "[1] r e a d   0 x 1 0 1 8   1")
     (bytes_of "[1] r e a d   0 x 1 0 1 8   1")).
  - reflexivity.
  - reflexivity.
  - reflexivity.
  - reflexivity.
  - reflexivity.
  - reflexivity.
  - discriminate.
  - reflexivity.
  - reflexivity.
  - reflexivity.
  - vm_compute. reflexivity.
Defined.

(** ** Commands in order *)

(** Through a handle that is set, [sendCommand] sends the message of
    its line, when the line has one, and nothing besides. *)
Lemma sendCommand_sent (env : Env) (s s' : State) (sk : socket) (fuel : nat)
    (line : str) (r : outcome str) :
  sock (self s) = Some sk ->
  sendCommand fuel line default_index env s = (s', r) ->
  sent (trace s') = sent (trace s) ++ wire line.
Proof.
  intros Hsock H. apply sendCommand_inv in H. destruct H as (_ & _ & Hcases).
  rewrite Hsock in Hcases. unfold wire.
  destruct (build_message line default_index) as [msg | |];
    [| destruct Hcases as [-> _]; rewrite app_nil_r; reflexivity ..].
  destruct (encode msg) as [bs | |];
    [| destruct Hcases as [-> _]; rewrite app_nil_r; reflexivity ..].
  destruct Hcases as (n & _ & ->). apply sent_one_send.
Qed.

Lemma send_lines_sent (env : Env) (fuel : nat) (sk : socket) (lines : list str) :
  forall s s' r,
    sock (self s) = Some sk ->
    Cli.send_lines fuel lines env s = (s', r) ->
    exists done rest,
      sent (trace s') = sent (trace s) ++ done /\
      flat_map wire lines = done ++ rest /\
      (r = Ret tt -> rest = []).
Proof.
  induction lines as [| line lines IH]; intros s s' r Hsock H.
  - cbn in H. inversion H; subst. exists [], []. rewrite app_nil_r. auto.
  - cbn [Cli.send_lines] in H. unfold bind in H.
    destruct (sendCommand fuel line default_index env s) as [s1 r1] eqn:H1.
    pose proof (sendCommand_sent _ _ _ _ _ _ _ Hsock H1) as Hsent1.
    pose proof (sendCommand_transfers _ _ _ _ _ _ _ H1) as (Hself1 & Hr1 & _).
    destruct r1 as [x | e |]; [| discriminate Hr1 |].
    + apply IH in H; [| rewrite Hself1; exact Hsock].
      destruct H as (done & rest & Hsent & Hflat & Hall).
      exists (wire line ++ done), rest. cbn [flat_map].
      rewrite Hsent, Hsent1, Hflat, !app_assoc. auto.
    + inversion H; subst. exists (wire line), (flat_map wire lines).
      cbn [flat_map]. repeat split; auto. discriminate.
Qed.

Lemma from_stdin_sent (env : Env) (fuel : nat) (sk : socket) (lines : list str) :
  forall s s' st,
    sock (self s) = Some sk ->
    Cli.from_stdin fuel lines env s = (s', st) ->
    exists done rest,
      sent (trace s') = sent (trace s) ++ done /\
      flat_map wire (until_exit lines) = done ++ rest /\
      (st <> Cli.Hung -> rest = []).
Proof.
  induction lines as [| line lines IH]; intros s s' st Hsock H.
  - cbn in H. inversion H; subst. exists [], []. rewrite app_nil_r. auto.
  - cbn [Cli.from_stdin until_exit] in *.
    destruct (contains (lit "exit") line).
    + inversion H; subst. exists [], []. rewrite app_nil_r. auto.
    + destruct (sendCommand fuel line default_index env s) as [s1 r1] eqn:H1.
      pose proof (sendCommand_sent _ _ _ _ _ _ _ Hsock H1) as Hsent1.
      pose proof (sendCommand_transfers _ _ _ _ _ _ _ H1) as (Hself1 & Hr1 & _).
      destruct r1 as [x | e |]; [| discriminate Hr1 |].
      * apply IH in H; [| rewrite Hself1; exact Hsock].
        destruct H as (done & rest & Hsent & Hflat & Hall).
        exists (wire line ++ done), rest. cbn [flat_map].
        rewrite Hsent, Hsent1, Hflat, !app_assoc. auto.
      * inversion H; subst.
        exists (wire line), (flat_map wire (until_exit lines)).
        cbn [flat_map]. repeat split; auto. congruence.
Qed.

(** X21.  The commands of the input file go out in the order of the file, one
    message for each line that has one (a line whose message cannot be
    built or encoded is passed over), and nothing else is sent; unless
    the program stays in a read, every line is dealt with. *)
Theorem file_commands_in_order (fuel : nat) (args : Cli.AppArgs)
    (console : Cli.Console) (env : Env) (printed : list str) (path : str)
    (lines : list str) (failure : option exn) :
  Cli.inputFile args = Some path ->
  Cli.open_file console path = Ret (lines, failure) ->
  snd (connect env {| self := Cli.make_client args; trace := [];
                      stdout := printed |}) = Ret true ->
  let run := Cli.main_with fuel args console env printed in
  exists rest,
    flat_map wire lines = sent (Cli.log run) ++ rest /\
    (Cli.exit run <> Cli.Hung -> rest = []).
Proof.
  intros Hfile Hopen Hr run. subst run.
  destruct (connect_setup_only env
              {| self := Cli.make_client args; trace := []; stdout := printed |})
    as (setup & Hsetup & Hnotransfer & _).
  pose proof (connect_true_opens env
                {| self := Cli.make_client args; trace := []; stdout := printed |}
                Hr) as [sk Hsk].
  destruct (connect env {| self := Cli.make_client args; trace := [];
                           stdout := printed |}) as [s1 r1] eqn:Hc.
  cbn [fst snd trace app] in *. subst r1.
  assert (Hs1 : sent (trace s1) = [])
    by (rewrite Hsetup; apply sent_setup; exact Hnotransfer).
  destruct (main_with_connected fuel args console env printed s1 Hc)
    as (s2 & st & evs & Hfeed & _ & _ & _ & Hret & Hnot).
  unfold Cli.feed in Hfeed. rewrite Hfile in Hfeed.
  unfold Cli.from_file, try_except in Hfeed. unfold bind at 1, eval at 1 in Hfeed.
  rewrite Hopen in Hfeed. cbn [fst snd] in Hfeed. unfold bind at 1 in Hfeed.
  destruct (Cli.send_lines fuel lines env s1) as [s1' r1] eqn:Hlines.
  pose proof (send_lines_transfers _ _ _ _ _ _ Hlines) as (_ & Hraise & _).
  destruct (send_lines_sent env fuel sk lines s1 s1' r1 Hsk Hlines)
    as (done & rest & Hsent & Hflat & Hall).
  rewrite Hs1 in Hsent. cbn [app] in Hsent.
  destruct r1 as [[] | e |]; [| discriminate Hraise |].
  - rewrite (Hall eq_refl), app_nil_r in Hflat.
    assert (Hs2 : sent (trace s2) = done /\ st = Cli.Returned).
    { destruct failure as [e |]; run_monad; cbn in Hfeed;
        inversion Hfeed; subst; cbn; auto. }
    destruct Hs2 as [Hs2 ->].
    destruct (Hret eq_refl) as [Hrun Htr]. rewrite Hrun.
    cbn [Cli.finish Cli.log Cli.exit]. exists [].
    rewrite Htr, sent_app, Hs2, Hflat. cbn. rewrite !app_nil_r. auto.
  - cbn in Hfeed. inversion Hfeed; subst s2 st.
    rewrite Hnot by discriminate. cbn [Cli.finish Cli.log Cli.exit].
    exists rest. rewrite Hsent. split; [exact Hflat | congruence].
Qed.

Lemma file_commands_in_order_witness :
  let run := Cli.main_with 3
               (Cli.set_inputFile (Some (lit "cmds.txt")) (Cli.init_args Cli.cocomm))
               {| Cli.open_file := fun _ => Ret ([lit "[1] r"; []; lit "w"], None);
                  Cli.stdin := [] |}
               (daemon reply_ok) [] in
  exists rest,
    flat_map wire [lit "[1] r"; []; lit "w"] = sent (Cli.log run) ++ rest /\
    (Cli.exit run <> Cli.Hung -> rest = []).
Proof.
  apply (file_commands_in_order 3
           (Cli.set_inputFile (Some (lit "cmds.txt")) (Cli.init_args Cli.cocomm))
           {| Cli.open_file := fun _ => Ret ([lit "[1] r"; []; lit "w"], None);
              Cli.stdin := [] |}
           (daemon reply_ok) [] (lit "cmds.txt") [lit "[1] r"; []; lit "w"] None);
    reflexivity.
Defined.

(** X22.  In an interactive session the lines typed go out in the order
    they were typed, one message for each line that has one, up to the
    first line that contains ["exit"], and nothing else is sent; unless
    the program stays in a read, every such line is dealt with. *)
Theorem typed_commands_in_order (fuel : nat) (args : Cli.AppArgs)
    (console : Cli.Console) (env : Env) (printed : list str) :
  Cli.inputFile args = None ->
  Cli.command args = None ->
  snd (connect env {| self := Cli.make_client args; trace := [];
                      stdout := printed |}) = Ret true ->
  let run := Cli.main_with fuel args console env printed in
  exists rest,
    flat_map wire (until_exit (Cli.stdin console)) =
      sent (Cli.log run) ++ rest /\
    (Cli.exit run <> Cli.Hung -> rest = []).
Proof.
  intros Hfile Hcmd Hr run. subst run.
  destruct (connect_setup_only env
              {| self := Cli.make_client args; trace := []; stdout := printed |})
    as (setup & Hsetup & Hnotransfer & _).
  pose proof (connect_true_opens env
                {| self := Cli.make_client args; trace := []; stdout := printed |}
                Hr) as [sk Hsk].
  destruct (connect env {| self := Cli.make_client args; trace := [];
                           stdout := printed |}) as [s1 r1] eqn:Hc.
  cbn [fst snd trace app] in *. subst r1.
  assert (Hs1 : sent (trace s1) = [])
    by (rewrite Hsetup; apply sent_setup; exact Hnotransfer).
  destruct (main_with_connected fuel args console env printed s1 Hc)
    as (s2 & st & evs & Hfeed & _ & _ & _ & Hret & Hnot).
  unfold Cli.feed in Hfeed. rewrite Hfile, Hcmd in Hfeed.
  destruct (from_stdin_sent env fuel sk (Cli.stdin console) s1 s2 st Hsk Hfeed)
    as (done & rest & Hsent & Hflat & Hall).
  rewrite Hs1 in Hsent. cbn [app] in Hsent.
  destruct st.
  - destruct (Hret eq_refl) as [Hrun Htr]. rewrite Hrun.
    cbn [Cli.finish Cli.log Cli.exit]. exists [].
    rewrite Htr, sent_app, Hsent, Hflat, Hall by discriminate.
    cbn. rewrite !app_nil_r. auto.
  - rewrite Hnot by discriminate. cbn [Cli.finish Cli.log Cli.exit].
    exists []. rewrite Hsent, Hflat, Hall by discriminate.
    rewrite !app_nil_r. auto.
  - rewrite Hnot by discriminate. cbn [Cli.finish Cli.log Cli.exit].
    exists rest. rewrite Hsent. split; [exact Hflat | congruence].
Qed.

Lemma typed_commands_in_order_witness :
  let run := Cli.main_with 3 (Cli.init_args Cli.cocomm)
               (Cli.typing [lit "r"; lit "exit"; lit "w"]) (daemon reply_ok) [] in
  exists rest,
    flat_map wire
      (until_exit (Cli.stdin (Cli.typing [lit "r"; lit "exit"; lit "w"]))) =
      sent (Cli.log run) ++ rest /\
    (Cli.exit run <> Cli.Hung -> rest = []).
Proof.
  apply (typed_commands_in_order 3 (Cli.init_args Cli.cocomm)
           (Cli.typing [lit "r"; lit "exit"; lit "w"]) (daemon reply_ok) []);
    reflexivity.
Defined.

(** ** The line that ends the session *)

Lemma until_exit_cut (before : list str) (line : str) (after : list str) :
  contains (lit "exit") line = true ->
  until_exit (before ++ line :: after) = until_exit before.
Proof.
  intro Hexit. induction before as [| cmd before IH]; cbn [app until_exit].
  - rewrite Hexit. reflexivity.
  - destruct (contains (lit "exit") cmd); [reflexivity |]. rewrite IH. reflexivity.
Qed.

(** What an interactive session has sent when [main] ends. *)
Lemma typed_session_sent (fuel : nat) (args : Cli.AppArgs)
    (console : Cli.Console) (env : Env) (printed : list str) (s1 : State) :
  Cli.inputFile args = None ->
  Cli.command args = None ->
  connect env {| self := Cli.make_client args; trace := []; stdout := printed |}
    = (s1, Ret true) ->
  exists rest,
    flat_map wire (until_exit (Cli.stdin console)) =
      sent (Cli.log (Cli.main_with fuel args console env printed)) ++ rest /\
    (Cli.exit (Cli.main_with fuel args console env printed) <> Cli.Hung ->
     rest = []).
Proof.
  intros Hfile Hcmd Hc.
  destruct (connect_setup_only env
              {| self := Cli.make_client args; trace := []; stdout := printed |})
    as (setup & Hsetup & Hnotransfer & _).
  destruct (connect_true_inv env _ s1 Hc) as (sk & Hsk & _).
  rewrite Hc in Hsetup. cbn [fst trace app] in Hsetup.
  assert (Hs1 : sent (trace s1) = [])
    by (rewrite Hsetup; apply sent_setup; exact Hnotransfer).
  destruct (main_with_connected fuel args console env printed s1 Hc)
    as (s2 & st & evs & Hfeed & _ & _ & _ & Hret & Hnot).
  unfold Cli.feed in Hfeed. rewrite Hfile, Hcmd in Hfeed.
  destruct (from_stdin_sent env fuel sk (Cli.stdin console) s1 s2 st Hsk Hfeed)
    as (done & rest & Hsent & Hflat & Hall).
  rewrite Hs1 in Hsent. cbn [app] in Hsent.
  destruct st.
  - destruct (Hret eq_refl) as [Hrun Htr]. rewrite Hrun.
    cbn [Cli.finish Cli.log Cli.exit]. exists [].
    rewrite Htr, sent_app, Hsent, Hflat, Hall by discriminate.
    cbn. rewrite !app_nil_r. auto.
  - rewrite Hnot by discriminate. cbn [Cli.finish Cli.log Cli.exit].
    exists []. rewrite Hsent, Hflat, Hall by discriminate.
    rewrite !app_nil_r. auto.
  - rewrite Hnot by discriminate. cbn [Cli.finish Cli.log Cli.exit].
    exists rest. rewrite Hsent. split; [exact Hflat | congruence].
Qed.

(** X17.  The interactive loop never looks past the first line that contains
    ["exit"] (anywhere in the line): what is typed after it changes
    nothing to the run, and neither that line nor anything after it is
    sent: the messages sent are those of the lines typed before it, in
    order.  Typed as the first line, it makes the session a connection
    followed by its [close]. *)
Theorem exit_line_ends_session (fuel : nat) (args : Cli.AppArgs)
    (open_ : str -> outcome (list str * option exn)) (env : Env) (printed : list str)
    (before : list str) (line : str) (after : list str) :
  Cli.inputFile args = None ->
  Cli.command args = None ->
  contains (lit "exit") line = true ->
  let run :=
    Cli.main_with fuel args
      {| Cli.open_file := open_; Cli.stdin := before ++ line :: after |}
      env printed in
  run =
    Cli.main_with fuel args
      {| Cli.open_file := open_; Cli.stdin := before ++ [line] |} env printed /\
  (snd (connect env {| self := Cli.make_client args; trace := [];
                       stdout := printed |}) = Ret true ->
   (exists rest,
      flat_map wire (until_exit before) = sent (Cli.log run) ++ rest /\
      (Cli.exit run <> Cli.Hung -> rest = [])) /\
   Cli.log (Cli.main_with fuel args
              {| Cli.open_file := open_; Cli.stdin := line :: after |}
              env printed) =
   trace (fst (connect env {| self := Cli.make_client args; trace := [];
                              stdout := printed |})) ++ [Close]).
Proof.
  intros Hfile Hcmd Hexit run. subst run. split.
  - unfold Cli.main_with, Cli.feed. rewrite Hfile, Hcmd. cbn [Cli.stdin].
    destruct (connect env _) as [s1 [[|] | e |]]; cbn [negb]; try reflexivity.
    rewrite (from_stdin_cut env fuel before line after Hexit). reflexivity.
  - intro Hr.
    destruct (connect env {| self := Cli.make_client args; trace := [];
                             stdout := printed |}) as [s1 r1] eqn:Hc.
    cbn [fst snd] in *. subst r1. split.
    + destruct (typed_session_sent fuel args
                  {| Cli.open_file := open_; Cli.stdin := before ++ line :: after |}
                  env printed s1 Hfile Hcmd Hc) as (rest & Hflat & Hall).
      cbn [Cli.stdin] in Hflat. rewrite (until_exit_cut _ _ _ Hexit) in Hflat.
      exists rest. split; [exact Hflat | exact Hall].
    + destruct (main_with_connected fuel args
                  {| Cli.open_file := open_; Cli.stdin := line :: after |}
                  env printed s1 Hc)
        as (s2 & st & evs & Hfeed & _ & _ & _ & Hret & _).
      unfold Cli.feed in Hfeed. rewrite Hfile, Hcmd in Hfeed.
      cbn [Cli.stdin Cli.from_stdin] in Hfeed. rewrite Hexit in Hfeed.
      inversion Hfeed; subst s2 st.
      destruct (Hret eq_refl) as [Hrun Htr]. rewrite Hrun. cbn [Cli.finish Cli.log].
      exact Htr.
Qed.

Lemma exit_line_ends_session_witness :
  let run :=
    Cli.main_with 3 (Cli.init_args Cli.cocomm)
      {| Cli.open_file := fun _ => Raise (OSError 2);
         Cli.stdin := [lit "r"] ++ lit "set exit_code 1" :: [lit "w"] |}
      (daemon reply_ok) [] in
  run =
    Cli.main_with 3 (Cli.init_args Cli.cocomm)
      {| Cli.open_file := fun _ => Raise (OSError 2);
         Cli.stdin := [lit "r"] ++ [lit "set exit_code 1"] |}
      (daemon reply_ok) [] /\
  (snd (connect (daemon reply_ok)
          {| self := Cli.make_client (Cli.init_args Cli.cocomm); trace := [];
             stdout := [] |}) = Ret true ->
   (exists rest,
      flat_map wire (until_exit [lit "r"]) = sent (Cli.log run) ++ rest /\
      (Cli.exit run <> Cli.Hung -> rest = [])) /\
   Cli.log (Cli.main_with 3 (Cli.init_args Cli.cocomm)
              {| Cli.open_file := fun _ => Raise (OSError 2);
                 Cli.stdin := lit "set exit_code 1" :: [lit "w"] |}
              (daemon reply_ok) []) =
   trace (fst (connect (daemon reply_ok)
                 {| self := Cli.make_client (Cli.init_args Cli.cocomm);
                    trace := []; stdout := [] |})) ++ [Close]).
Proof.
  apply (exit_line_ends_session 3 (Cli.init_args Cli.cocomm)
           (fun _ => Raise (OSError 2)) (daemon reply_ok) []
           [lit "r"] (lit "set exit_code 1") [lit "w"]); reflexivity.
Defined.
